(** * Tlist: a type-tagged singly linked list in C, and its iterator

    A shallow embedding of [src/src/Tlist.c] and [src/src/Titerator.c].

    The C program works on heap-allocated structures through pointers, so
    the embedding is a state-and-error monad over an explicit store:

    - a pointer is [option loc]; [NULL] is [None];
    - the store maps locations to blocks: a [struct Node], a
      [struct Lista], a [struct TIterator], or the storage of one element
      value ([int], [float], [double], or a C string);
    - a function of the C program is a function [world -> outcome A]; it
      either returns ([Ok]), stops the process through [exit(EXIT_FAILURE)]
      ([Exit]), or has undefined behaviour ([Undef]: a dereference of [NULL]
      or of a released block, a [va_arg] of the wrong type, a signed
      overflow);
    - what the program prints on [stderr] is kept as a list of diagnostics.

    [malloc] is a parameter ([Platform]): the theorems hold for every
    allocator that returns unused locations. Values of type [float] and
    [double] are represented by their bit patterns; the two C conversions
    between them are parameters as well. *)

From stdpp Require Import base option list gmap strings.
From Stdlib Require Import ZArith Lia.

Local Open Scope Z_scope.

Module Tlist.

(** ** Data model *)

Definition loc := positive.
Definition ptr := option loc.
Abbreviation NULL := (@None loc).

(** [enum Type] of Tlist.h. *)
Inductive Type_ := T | INT | STRING | FLOAT | DOUBLE.

#[global] Instance Type_eq_dec : EqDecision Type_.
Proof. solve_decision. Defined.

(** [struct Node] (TlistPrivate.h is not part of the sources; the two
    fields are the ones Tlist.c uses). *)
Record Node := mkNode { _val : ptr; _nextNode : ptr }.

(** [struct Lista] of Tlist.h, without the method table: [newList] always
    installs the same functions, so [this->pop(this)] is [pop this]. *)
Record Lista := mkLista {
  _head : ptr;
  _tail : ptr;
  _type : Type_;
  _size : Z;
  _length : Z
}.

(** [struct TIterator], from the fields Titerator.c uses. *)
Record TIterator := mkTIterator {
  _list : ptr;
  _current : ptr;
  _index : Z
}.

Inductive block :=
  | BNode (n : Node)
  | BLista (l : Lista)
  | BIter (i : TIterator)
  | BInt (z : Z)
  | BFloat (f : Z)
  | BDouble (d : Z)
  | BStr (s : string)
  | BRaw.

Abbreviation heap := (gmap loc block).

(** The functions that print on [stderr]. *)
Inductive fn :=
  | FnewList | FnewNode | Fpush | Flen | Fpop | Fget | Fset | Fdelete
  | Finsert | Fpick | FdestroyList | Fduplicate | FnewIterator.

(** The messages of the program. *)
Inductive diag :=
  | NullList (f : fn)                      (* "The provided list instance is NULL." *)
  | AllocFailed (f : fn)                   (* "Failed to allocate memory ..." *)
  | NullString                             (* "Cannot create a STRING node from a NULL pointer." *)
  | NegativeIndex (f : fn) (index : Z)     (* "Index %d is negative and invalid." *)
  | OutOfBounds (f : fn) (index x : Z)     (* "Index %d is out of bounds for list of size %d." *)
  | InsertBounds (index list_len : Z)      (* "Index %d is out of bounds. Valid range is 0 to %d." *)
  | NoMoreElements.                        (* "No more elements to iterate or invalid iterator." *)

Record world := mkWorld { mem : heap; stderr : list diag }.

Inductive outcome (A : Type) :=
  | Ok (a : A) (w : world)
  | Exit (w : world)
  | Undef
  | Diverge.
Arguments Ok {A} a w.
Arguments Exit {A} w.
Arguments Undef {A}.
Arguments Diverge {A}.

Definition M (A : Type) := world -> outcome A.

Definition ret {A} (a : A) : M A := fun w => Ok a w.

Definition bind {A B} (m : M A) (k : A -> M B) : M B := fun w =>
  match m w with
  | Ok a w' => k a w'
  | Exit w' => Exit w'
  | Undef => Undef
  | Diverge => Diverge
  end.

Declare Scope prog_scope.
Delimit Scope prog_scope with prog.
Bind Scope prog_scope with M.
Notation "x <- m ;; k" := (bind m (fun x => k))
  (at level 100, m at next level, k at level 200, right associativity)
  : prog_scope.
Notation "m ;; k" := (bind m (fun _ => k))
  (at level 100, k at level 200, right associativity) : prog_scope.
Local Open Scope prog_scope.

Definition undef {A} : M A := fun _ => Undef.
Definition exit_failure {A} : M A := fun w => Exit w.
Definition diverge {A} : M A := fun _ => Diverge.

(** [fprintf(stderr, ...)] *)
Definition report (d : diag) : M unit := fun w =>
  Ok tt (mkWorld (mem w) (stderr w ++ [d])).

(** ** The store *)

Definition load (p : ptr) : M block := fun w =>
  match p with
  | None => Undef
  | Some a => match mem w !! a with Some b => Ok b w | None => Undef end
  end.

Definition store (p : ptr) (b : block) : M unit := fun w =>
  match p with
  | None => Undef
  | Some a =>
      match mem w !! a with
      | Some _ => Ok tt (mkWorld (<[a := b]> (mem w)) (stderr w))
      | None => Undef
      end
  end.

(** [free(p)]: no effect on [NULL], undefined on a block that is not live. *)
Definition free (p : ptr) : M unit := fun w =>
  match p with
  | None => Ok tt w
  | Some a =>
      match mem w !! a with
      | Some _ => Ok tt (mkWorld (base.delete a (mem w)) (stderr w))
      | None => Undef
      end
  end.

Definition load_Node (p : ptr) : M Node :=
  b <- load p ;; match b with BNode n => ret n | _ => undef end.
Definition load_Lista (p : ptr) : M Lista :=
  b <- load p ;; match b with BLista l => ret l | _ => undef end.
Definition load_Iter (p : ptr) : M TIterator :=
  b <- load p ;; match b with BIter i => ret i | _ => undef end.

(** Assignments to one field of a structure. *)
Definition wr_val (node v : ptr) : M unit :=
  n <- load_Node node ;; store node (BNode (mkNode v (_nextNode n))).
Definition wr_nextNode (node nx : ptr) : M unit :=
  n <- load_Node node ;; store node (BNode (mkNode (_val n) nx)).
Definition wr_head (this p : ptr) : M unit :=
  l <- load_Lista this ;;
  store this (BLista (mkLista p (_tail l) (_type l) (_size l) (_length l))).
Definition wr_tail (this p : ptr) : M unit :=
  l <- load_Lista this ;;
  store this (BLista (mkLista (_head l) p (_type l) (_size l) (_length l))).
Definition wr_length (this : ptr) (n : Z) : M unit :=
  l <- load_Lista this ;;
  store this (BLista (mkLista (_head l) (_tail l) (_type l) (_size l) n)).

(** The type [int]: signed overflow is undefined. *)
Definition INT_MAX : Z := 2147483647.
Definition INT_MIN : Z := -2147483648.
Definition int_add (a b : Z) : M Z :=
  if decide (INT_MIN <= a + b <= INT_MAX) then ret (a + b) else undef.

(** [this->_length++] and [this->_length--] *)
Definition length_incr (this : ptr) : M unit :=
  l <- load_Lista this ;; n <- int_add (_length l) 1 ;; wr_length this n.
Definition length_decr (this : ptr) : M unit :=
  l <- load_Lista this ;; n <- int_add (_length l) (-1) ;; wr_length this n.

(** [sizeof] for the five kinds, on an LP64 platform. The model stores
    typed values, so the width only fills the [_size] field. *)
Definition sizeof_ (type : Type_) : Z :=
  match type with
  | INT => 4
  | STRING => 8
  | DOUBLE => 8
  | FLOAT => 4
  | T => 8
  end.

(** An argument passed through [...]: after the default promotions a
    variadic argument is an [int], a [double] or a pointer. Reading it
    with [va_arg] at another type is undefined. *)
Inductive arg :=
  | AInt (z : Z)
  | ADouble (d : Z)
  | APtr (p : ptr).

(** The first parameter of [newNode]: the address of a local variable
    holding a value ([&val], [&dbl], [&flt]), or a pointer argument. *)
Inductive operand :=
  | AddrOf (b : block)
  | Pointer (p : ptr).

(** What the program takes from its platform: [malloc], which returns the
    location of the new block, or [None] when memory is exhausted; the
    conversion [(float)d]; and the promotion of a [float] to [double]. *)
Class Platform := {
  malloc : heap -> option loc;
  double_to_float : Z -> Z;
  float_to_double : Z -> Z
}.

Section Program.

Context {P : Platform}.

(** [malloc(...)]: the new block holds [init], which stands for the
    indeterminate content; no path reads it before it is assigned. *)
Definition malloc_ (init : block) : M ptr := fun w =>
  match malloc (mem w) with
  | Some a => Ok (Some a) (mkWorld (<[a := init]> (mem w)) (stderr w))
  | None => Ok NULL w
  end.

(** ** Tlist.c *)

Definition newList (type : Type_) : M ptr :=
  this <- malloc_ BRaw ;;
  match this with
  | None => report (AllocFailed FnewList) ;; exit_failure
  | Some _ =>
      store this (BLista (mkLista NULL NULL type (sizeof_ type) 0)) ;;
      ret this
  end.

Definition newNode (val : operand) (size : Z) (type : Type_) : M ptr :=
  node <- malloc_ (BNode (mkNode NULL NULL)) ;;
  match node with
  | None => report (AllocFailed FnewNode) ;; exit_failure
  | Some _ =>
      (match type with
       | STRING =>
           match val with
           | Pointer None => report NullString ;; exit_failure
           | Pointer (Some s) =>
               b <- load (Some s) ;;
               match b with
               | BStr str =>
                   v <- malloc_ BRaw ;;
                   wr_val node v ;;
                   match v with
                   | None => report (AllocFailed FnewNode) ;; exit_failure
                   | Some _ => store v (BStr str)
                   end
               | _ => undef
               end
           | AddrOf _ => undef
           end
       | T =>
           match val with
           | Pointer p => wr_val node p
           | AddrOf _ => undef
           end
       | _ =>
           v <- malloc_ BRaw ;;
           wr_val node v ;;
           match v with
           | None => report (AllocFailed FnewNode) ;; exit_failure
           | Some _ =>
               match val with
               | AddrOf b => store v b
               | Pointer _ => undef
               end
           end
       end) ;;
      wr_nextNode node NULL ;;
      ret node
  end.

Definition underPush (this node : ptr) : M unit :=
  l <- load_Lista this ;;
  (match _head l with
   | None => wr_head this node ;; wr_tail this node
   | Some _ => wr_nextNode (_tail l) node ;; wr_tail this node
   end) ;;
  length_incr this.

(** The [switch] shared by [push] and [insert]: read the variadic
    argument at the list's type and build the node. *)
Definition node_of_arg (l : Lista) (a : arg) : M ptr :=
  match _type l with
  | INT =>
      match a with
      | AInt val => newNode (AddrOf (BInt val)) (_size l) (_type l)
      | _ => undef
      end
  | STRING =>
      match a with
      | APtr str => newNode (Pointer str) (_size l) (_type l)
      | _ => undef
      end
  | DOUBLE =>
      match a with
      | ADouble dbl => newNode (AddrOf (BDouble dbl)) (_size l) (_type l)
      | _ => undef
      end
  | FLOAT =>
      match a with
      | ADouble d =>
          newNode (AddrOf (BFloat (double_to_float d))) (_size l) (_type l)
      | _ => undef
      end
  | T =>
      match a with
      | APtr unkown => newNode (Pointer unkown) (_size l) (_type l)
      | _ => undef
      end
  end.

Definition push (this : ptr) (a : arg) : M unit :=
  match this with
  | None => report (NullList Fpush)
  | Some _ =>
      l <- load_Lista this ;;
      node <- node_of_arg l a ;;
      underPush this node
  end.

Definition len (this : ptr) : M Z :=
  (match this with
   | None => report (NullList Flen)
   | Some _ => ret tt
   end) ;;
  l <- load_Lista this ;;
  ret (_length l).

Definition pop (this : ptr) : M ptr :=
  match this with
  | None => report (NullList Fpop) ;; ret NULL
  | Some _ =>
      l <- load_Lista this ;;
      match _head l with
      | None => ret NULL
      | Some _ =>
          let current := _head l in
          n <- load_Node current ;;
          wr_head this (_nextNode n) ;;
          let val := _val n in
          free current ;;
          length_decr this ;;
          l' <- load_Lista this ;;
          (match _head l' with
           | None => wr_tail this NULL
           | Some _ => ret tt
           end) ;;
          ret val
      end
  end.

(** [get]: the loop runs while [x <= index], so [index] iterations after
    the first are enough; [x < index] at [x++], which cannot overflow. *)
Fixpoint get_loop (fuel : nat) (current : ptr) (x index : Z) : M ptr :=
  match current with
  | None => report (OutOfBounds Fget index x) ;; ret NULL
  | Some _ =>
      if decide (x = index) then
        n <- load_Node current ;; ret (_val n)
      else
        match fuel with
        | O => diverge
        | S fuel' =>
            n <- load_Node current ;;
            get_loop fuel' (_nextNode n) (x + 1) index
        end
  end.

Definition get (this : ptr) (index : Z) : M ptr :=
  match this with
  | None => report (NullList Fget) ;; ret NULL
  | Some _ =>
      if decide (index < 0) then
        report (NegativeIndex Fget index) ;; ret NULL
      else
        l <- load_Lista this ;;
        get_loop (Z.to_nat index) (_head l) 0 index
  end.

(** The [switch] of [set], at the node [current]. *)
Definition set_at (this current : ptr) (a : arg) : M unit :=
  l <- load_Lista this ;;
  match _type l with
  | INT =>
      match a with
      | AInt val => n <- load_Node current ;; store (_val n) (BInt val)
      | _ => undef
      end
  | FLOAT =>
      match a with
      | ADouble d =>
          n <- load_Node current ;; store (_val n) (BFloat (double_to_float d))
      | _ => undef
      end
  | DOUBLE =>
      match a with
      | ADouble dbl => n <- load_Node current ;; store (_val n) (BDouble dbl)
      | _ => undef
      end
  | STRING =>
      match a with
      | APtr chr =>
          n <- load_Node current ;;
          free (_val n) ;;
          b <- load chr ;;                       (* strlen(chr) *)
          match b with
          | BStr str =>
              v <- malloc_ BRaw ;;
              wr_val current v ;;
              match v with
              | None => report (AllocFailed Fset) ;; exit_failure
              | Some _ => store v (BStr str)     (* strcpy *)
              end
          | _ => undef
          end
      | _ => undef
      end
  | T =>
      match a with
      | APtr nil_ => wr_val current nil_
      | _ => undef
      end
  end.

Fixpoint set_loop (fuel : nat) (this current : ptr) (x index : Z) (a : arg)
  : M unit :=
  match current with
  | None => report (OutOfBounds Fset index x)
  | Some _ =>
      if decide (x = index) then set_at this current a
      else
        match fuel with
        | O => diverge
        | S fuel' =>
            n <- load_Node current ;;
            set_loop fuel' this (_nextNode n) (x + 1) index a
        end
  end.

Definition set (this : ptr) (index : Z) (a : arg) : M unit :=
  match this with
  | None => report (NullList Fset)
  | Some _ =>
      if decide (index < 0) then report (NegativeIndex Fset index)
      else
        l <- load_Lista this ;;
        set_loop (Z.to_nat index) this (_head l) 0 index a
  end.

(** [if(this->_type != T) free(temp->_val);] *)
Definition free_val (this temp : ptr) : M unit :=
  l <- load_Lista this ;;
  if decide (_type l <> T) then n <- load_Node temp ;; free (_val n)
  else ret tt.

Fixpoint delete_loop (fuel : nat) (this current : ptr) (x index : Z)
  : M unit :=
  match current with
  | None => report (OutOfBounds Fdelete index x)
  | Some _ =>
      if decide (index - 1 = x /\ index <> 0) then
        n <- load_Node current ;;
        match _nextNode n with
        | None => report (OutOfBounds Fdelete index x)      (* break *)
        | Some _ =>
            let temp := _nextNode n in
            tn <- load_Node temp ;;
            wr_nextNode current (_nextNode tn) ;;
            l <- load_Lista this ;;
            (if decide (temp = _tail l) then wr_tail this current
             else ret tt) ;;
            free_val this temp ;;
            free temp ;;
            length_decr this
        end
      else
        match fuel with
        | O => diverge
        | S fuel' =>
            n <- load_Node current ;;
            delete_loop fuel' this (_nextNode n) (x + 1) index
        end
  end.

Definition delete (this : ptr) (index : Z) : M unit :=
  match this with
  | None => report (NullList Fdelete)
  | Some _ =>
      if decide (index < 0) then report (NegativeIndex Fdelete index)
      else if decide (index = 0) then
        l <- load_Lista this ;;
        let temp := _head l in
        n <- load_Node temp ;;
        wr_head this (_nextNode n) ;;
        l' <- load_Lista this ;;
        (match _head l' with
         | None => wr_tail this NULL
         | Some _ => ret tt
         end) ;;
        free_val this temp ;;
        free temp ;;
        length_decr this
      else
        l <- load_Lista this ;;
        delete_loop (Z.to_nat index) this (_head l) 0 index
  end.

Fixpoint underInsert_loop (fuel : nat) (this current : ptr) (x index : Z)
  (node : ptr) : M unit :=
  match current with
  | None => ret tt
  | Some _ =>
      if decide (x = index - 1) then
        n <- load_Node current ;;
        let temp := _nextNode n in
        wr_nextNode current node ;;
        wr_nextNode node temp ;;
        length_incr this
      else
        match fuel with
        | O => diverge
        | S fuel' =>
            n <- load_Node current ;;
            underInsert_loop fuel' this (_nextNode n) (x + 1) index node
        end
  end.

Definition underInsert (this : ptr) (index : Z) (node : ptr) : M unit :=
  if decide (index = 0) then
    l <- load_Lista this ;;
    wr_nextNode node (_head l) ;;
    wr_head this node ;;
    length_incr this
  else
    l <- load_Lista this ;;
    underInsert_loop (Z.to_nat index) this (_head l) 0 index node.

Definition insert (this : ptr) (index : Z) (a : arg) : M unit :=
  match this with
  | None => report (NullList Finsert)
  | Some _ =>
      list_len <- len this ;;
      if decide (index < 0 \/ index > list_len) then
        report (InsertBounds index list_len)
      else
        l <- load_Lista this ;;
        node <- node_of_arg l a ;;
        underInsert this index node
  end.

Fixpoint pick_loop (fuel : nat) (this current : ptr) (x index : Z)
  : M ptr :=
  match current with
  | None => report (OutOfBounds Fpick index x) ;; ret NULL
  | Some _ =>
      n <- load_Node current ;;
      if decide (x = index - 1 /\ _nextNode n <> NULL) then
        let temp := _nextNode n in
        tn <- load_Node temp ;;
        wr_nextNode current (_nextNode tn) ;;
        l <- load_Lista this ;;
        (if decide (temp = _tail l) then wr_tail this current
         else ret tt) ;;
        tn' <- load_Node temp ;;
        let n' := _val tn' in
        free temp ;;
        length_decr this ;;
        ret n'
      else
        match fuel with
        | O => diverge
        | S fuel' => pick_loop fuel' this (_nextNode n) (x + 1) index
        end
  end.

Definition pick (this : ptr) (index : Z) : M ptr :=
  match this with
  | None => report (NullList Fpick) ;; ret NULL
  | Some _ =>
      if decide (index < 0) then
        report (NegativeIndex Fpick index) ;; ret NULL
      else if decide (index = 0) then pop this
      else
        l <- load_Lista this ;;
        pick_loop (Z.to_nat index) this (_head l) 0 index
  end.

(** [destroyList]: every iteration releases a live node, so the loop
    runs at most once per block of the store. *)
Fixpoint destroyList_loop (fuel : nat) (this current : ptr) : M unit :=
  match current with
  | None => ret tt
  | Some _ =>
      match fuel with
      | O => diverge
      | S fuel' =>
          let temp := current in
          n <- load_Node temp ;;
          free_val this temp ;;
          free temp ;;
          destroyList_loop fuel' this (_nextNode n)
      end
  end.

Definition destroyList (this : ptr) : M unit :=
  match this with
  | None => report (NullList FdestroyList)
  | Some _ =>
      l <- load_Lista this ;;
      (fun w => destroyList_loop (S (size (mem w))) this (_head l) w) ;;
      wr_head this NULL ;;
      wr_tail this NULL ;;
      wr_length this 0
  end.

(** ** Titerator.c *)

Definition newIterator (list : ptr) : M ptr :=
  iterator <- malloc_ BRaw ;;
  match iterator with
  | None => report (AllocFailed FnewIterator) ;; exit_failure
  | Some _ =>
      match list with
      | None => report (NullList FnewIterator) ;; exit_failure
      | Some _ =>
          l <- load_Lista list ;;
          store iterator (BIter (mkTIterator list (_head l) 0)) ;;
          ret iterator
      end
  end.

Definition next (iterator : ptr) : M ptr :=
  match iterator with
  | None => report NoMoreElements ;; ret NULL
  | Some _ =>
      it <- load_Iter iterator ;;
      match _current it with
      | None => report NoMoreElements ;; ret NULL
      | Some _ =>
          n <- load_Node (_current it) ;;
          let val := _val n in
          i <- int_add (_index it) 1 ;;
          store iterator (BIter (mkTIterator (_list it) (_current it) i)) ;;
          n' <- load_Node (_current it) ;;
          store iterator (BIter (mkTIterator (_list it) (_nextNode n') i)) ;;
          ret val
      end
  end.

Definition hasNext (iterator : ptr) : M bool :=
  match iterator with
  | None => ret false
  | Some _ =>
      it <- load_Iter iterator ;;
      ret (bool_decide (_current it <> NULL))
  end.

Definition freeIterator (iterator : ptr) : M unit := free iterator.

(** ** [duplicate] *)

(** The body of the [while] loop of [duplicate]: the value is read at the
    list's type and handed to [push]; a [float] is promoted to [double]
    on the way. *)
Definition duplicate_step (this list iterator : ptr) : M unit :=
  val <- next iterator ;;
  l <- load_Lista this ;;
  match _type l with
  | INT =>
      b <- load val ;;
      match b with BInt z => push list (AInt z) | _ => undef end
  | FLOAT =>
      b <- load val ;;
      match b with
      | BFloat f => push list (ADouble (float_to_double f))
      | _ => undef
      end
  | DOUBLE =>
      b <- load val ;;
      match b with BDouble d => push list (ADouble d) | _ => undef end
  | STRING => push list (APtr val)
  | T => push list (APtr val)
  end.

(** The loop ends when the iterator reaches the end of the chain; on a
    chain that never ends it does not, hence the explicit [fuel]. *)
Fixpoint duplicate_loop (fuel : nat) (this list iterator : ptr) : M unit :=
  b <- hasNext iterator ;;
  if b : bool then
    match fuel with
    | O => diverge
    | S fuel' =>
        duplicate_step this list iterator ;;
        duplicate_loop fuel' this list iterator
    end
  else ret tt.

Definition duplicate (fuel : nat) (this : ptr) : M ptr :=
  match this with
  | None => report (NullList Fduplicate) ;; ret NULL
  | Some _ =>
      l <- load_Lista this ;;
      list <- newList (_type l) ;;
      iterator <- newIterator this ;;
      duplicate_loop fuel this list iterator ;;
      freeIterator iterator ;;
      ret list
  end.

(** ** Client programs used to state the properties *)

(** [push] the arguments one after the other. *)
Fixpoint push_all (this : ptr) (args : list arg) : M unit :=
  match args with
  | [] => ret tt
  | a :: args' => push this a ;; push_all this args'
  end.

(** [pop] [n] times and collect what was returned. *)
Fixpoint pop_n (this : ptr) (n : nat) : M (list ptr) :=
  match n with
  | O => ret []
  | S n' => v <- pop this ;; vs <- pop_n this n' ;; ret (v :: vs)
  end.

(** Query [hasNext] and then call [next], [n] times over. *)
Fixpoint iterate (iterator : ptr) (n : nat) : M (list (bool * ptr)) :=
  match n with
  | O => ret []
  | S n' =>
      b <- hasNext iterator ;;
      v <- next iterator ;;
      r <- iterate iterator n' ;;
      ret ((b, v) :: r)
  end.

(** [next], [n] times over. *)
Fixpoint next_n (iterator : ptr) (n : nat) : M (list ptr) :=
  match n with
  | O => ret []
  | S n' => v <- next iterator ;; r <- next_n iterator n' ;; ret (v :: r)
  end.

(** ** Abstraction of a store *)

(** The value of an element, whatever its kind. *)
Inductive elem :=
  | EInt (z : Z)
  | EStr (s : string)
  | EFloat (f : Z)
  | EDouble (d : Z)
  | ERef (p : ptr).

(** The block that holds an element of a kind whose storage the list
    owns. *)
Definition block_of (type : Type_) (e : elem) : option block :=
  match type, e with
  | INT, EInt z => Some (BInt z)
  | STRING, EStr s => Some (BStr s)
  | FLOAT, EFloat f => Some (BFloat f)
  | DOUBLE, EDouble d => Some (BDouble d)
  | _, _ => None
  end.

(** [val_elem m type v e]: in the store [m], the pointer [v] kept in a
    node of a list of kind [type] stands for the element [e]. *)
Definition val_elem (m : heap) (type : Type_) (v : ptr) (e : elem) : Prop :=
  match type with
  | T => e = ERef v
  | _ => exists c b, v = Some c /\ m !! c = Some b /\ block_of type e = Some b
  end.

(** [arg_elem m type a e]: the variadic argument [a] is a value of kind
    [type], and storing it yields the element [e]. *)
Definition arg_elem (m : heap) (type : Type_) (a : arg) (e : elem) : Prop :=
  match type with
  | T => exists p, a = APtr p /\ e = ERef p
  | INT => exists z, a = AInt z /\ e = EInt z
  | STRING => exists c s, a = APtr (Some c) /\ m !! c = Some (BStr s) /\ e = EStr s
  | FLOAT => exists d, a = ADouble d /\ e = EFloat (double_to_float d)
  | DOUBLE => exists d, a = ADouble d /\ e = EDouble d
  end.

(** [lseg m p ns q]: following [_nextNode] from [p] in [m] visits the
    nodes [ns] (location and [_val] of each) and arrives at [q]. *)
Fixpoint lseg (m : heap) (p : ptr) (ns : list (loc * ptr)) (q : ptr) : Prop :=
  match ns with
  | [] => p = q
  | (a, v) :: ns' =>
      p = Some a /\
      exists nx, m !! a = Some (BNode (mkNode v nx)) /\ lseg m nx ns' q
  end.

(** The nodes of the list at [this] are [ns], and their values stand for
    the elements [es]. *)
Record is_list (m : heap) (this : loc) (l : Lista) (ns : list (loc * ptr))
  (es : list elem) : Prop := mk_is_list {
  il_this : m !! this = Some (BLista l);
  il_chain : lseg m (_head l) ns NULL;
  il_elems : Forall2 (val_elem m (_type l)) (ns.*2) es
}.

(** The invariant of the data model: [_tail] is the last node and
    [_length], an [int], the number of nodes. *)
Record wf_list (m : heap) (this : loc) (l : Lista) (ns : list (loc * ptr))
  (es : list elem) : Prop := mk_wf_list {
  wf_is_list : is_list m this l ns es;
  wf_tail : _tail l = last (ns.*1);
  wf_length : _length l = Z.of_nat (length ns);
  wf_range : Z.of_nat (length ns) <= INT_MAX
}.

(** What [remove] releases and [pick] hands to the caller. *)
Definition release (type : Type_) (v : ptr) (w : world) : world :=
  if decide (type = T) then w
  else
    match v with
    | None => w
    | Some c => mkWorld (base.delete c (mem w)) (stderr w)
    end.

(** [returns m]: the program [m] comes to an end on every store, with
    a result, an exit or undefined behaviour. *)
Definition returns {A} (m : M A) : Prop := forall w, m w <> Diverge.

(** The blocks that hold the value of an element. *)
Definition value_block (b : block) : Prop :=
  match b with
  | BInt _ | BFloat _ | BDouble _ | BStr _ => True
  | _ => False
  end.

(** The list structure after the node [a], whose predecessor is [b],
    has been unlinked. *)
Definition unlinked (l : Lista) (a : loc) (b : ptr) : Lista :=
  mkLista (_head l) (if decide (Some a = _tail l) then b else _tail l)
    (_type l) (_size l) (_length l + -1).

(** The list structure after the first node, whose successor is [nx], has
    been removed. *)
Definition beheaded (l : Lista) (nx : ptr) : Lista :=
  mkLista nx (match nx with None => NULL | Some _ => _tail l end)
    (_type l) (_size l) (_length l + -1).

(** The locations the list at [this] is made of: the structure, the
    nodes and, unless the kind is [T], the storage of the values. *)
Definition footprint (this : loc) (l : Lista) (ns : list (loc * ptr))
  : list loc :=
  this :: ns.*1 ++
  match _type l with
  | T => []
  | _ => omap id (ns.*2)
  end.

(** ** [print] and [foreach] *)

(** What [print] and [foreach] write themselves, in order: the text of a
    format string, a converted argument, or their message on [stderr].
    The functions of the model return it as their result. *)
Inductive out :=
  | OText (s : string)     (* literal text *)
  | OInt (z : Z)           (* %d *)
  | OStr (s : string)      (* %s between double quotes *)
  | OFixed2 (d : Z)        (* %.2f of a double *)
  | OPtr (p : ptr)         (* %p *)
  | ONewline
  | OErr (s : string).     (* a line on stderr *)

(** The [switch] of [print]: one element, converted at the list's type.
    A [float] is promoted to [double] on its way to [printf]. *)
Definition print_item (this current : ptr) : M (list out) :=
  l <- load_Lista this ;;
  n <- load_Node current ;;
  match _type l with
  | INT =>
      b <- load (_val n) ;;
      match b with BInt z => ret [OInt z] | _ => undef end
  | STRING =>
      b <- load (_val n) ;;
      match b with BStr str => ret [OStr str] | _ => undef end
  | DOUBLE =>
      b <- load (_val n) ;;
      match b with BDouble d => ret [OFixed2 d] | _ => undef end
  | FLOAT =>
      b <- load (_val n) ;;
      match b with
      | BFloat f => ret [OFixed2 (float_to_double f)]
      | _ => undef
      end
  | T => ret [OPtr (_val n)]
  end.

(** The [for] loop of [print]; it ends with the chain, hence the
    [fuel]. *)
Fixpoint print_loop (fuel : nat) (this current : ptr) : M (list out) :=
  match current with
  | None => ret []
  | Some _ =>
      match fuel with
      | O => diverge
      | S fuel' =>
          item <- print_item this current ;;
          n <- load_Node current ;;
          let sep :=
            match _nextNode n with
            | None => []
            | Some _ => [OText ", "]
            end in
          rest <- print_loop fuel' this (_nextNode n) ;;
          ret (item ++ sep ++ rest)
      end
  end.

Definition print (fuel : nat) (this : ptr) : M (list out) :=
  match this with
  | None =>
      ret [OErr "Error in print(): The provided list instance is NULL."]
  | Some _ =>
      l <- load_Lista this ;;
      body <- print_loop fuel this (_head l) ;;
      ret (OText "[" :: body ++ [OText "]"; ONewline])
  end.

(** The [for] loop of [foreach]. The visitor is any program; the link
    to the next node is read after it has run. *)
Fixpoint foreach_loop (fuel : nat) (current : ptr) (function : ptr -> M unit)
  : M unit :=
  match current with
  | None => ret tt
  | Some _ =>
      match fuel with
      | O => diverge
      | S fuel' =>
          n <- load_Node current ;;
          function (_val n) ;;
          n' <- load_Node current ;;
          foreach_loop fuel' (_nextNode n') function
      end
  end.

Definition foreach (fuel : nat) (this : ptr) (function : ptr -> M unit)
  : M (list out) :=
  match this with
  | None =>
      ret [OErr "Error in foreach(): The provided list instance is NULL."]
  | Some _ =>
      l <- load_Lista this ;;
      foreach_loop fuel (_head l) function ;;
      ret []
  end.

(** Run the visitor on each value of a list of values, in order. *)
Fixpoint visit_all (function : ptr -> M unit) (vals : list ptr) : M unit :=
  match vals with
  | [] => ret tt
  | v :: vals' => function v ;; visit_all function vals'
  end.

(** The expected rendering of a sequence of elements: the items,
    separated by a comma and a space. *)
Definition render_elem (e : elem) : out :=
  match e with
  | EInt z => OInt z
  | EStr s => OStr s
  | EFloat f => OFixed2 (float_to_double f)
  | EDouble d => OFixed2 d
  | ERef p => OPtr p
  end.

Fixpoint render (es : list elem) : list out :=
  match es with
  | [] => []
  | [e] => [render_elem e]
  | e :: es' => render_elem e :: OText ", " :: render es'
  end.

(** Every node owns the storage of its value: unless the kind is [T],
    no two nodes keep the same pointer. *)
Definition owned_apart (l : Lista) (ns : list (loc * ptr)) : Prop :=
  _type l <> T -> NoDup (ns.*2).

(** A visitor that leaves every node of the store as it is. *)
Definition keeps_nodes (function : ptr -> M unit) : Prop :=
  forall v w w', function v w = Ok tt w' ->
  forall a n, mem w !! a = Some (BNode n) -> mem w' !! a = Some (BNode n).

(** The number of blocks a node of a list of the kind [type] takes: the
    node and, unless the kind is [T], the storage of its value. *)
Definition blocks_per_node (type : Type_) : nat :=
  if decide (type = T) then 1%nat else 2%nat.

(** A program that writes nothing to the store: whenever it comes to
    an end, the blocks are those it started from. *)
Definition read_only {A} (m : M A) : Prop :=
  forall w,
    match m w with
    | Ok _ w' | Exit w' => mem w' = mem w
    | Undef | Diverge => True
    end.

End Program.

(** ** Assumptions on the platform *)

(** [malloc] returns a location that is not in use. *)
Definition malloc_fresh (P : Platform) : Prop :=
  forall (m : heap) a, malloc m = Some a -> m !! a = None.

(** Memory is never exhausted. *)
Definition malloc_total (P : Platform) : Prop :=
  forall m : heap, is_Some (malloc m).

(** Promoting a [float] to [double] and converting back is exact. *)
Definition float_exact (P : Platform) : Prop :=
  forall f, double_to_float (float_to_double f) = f.

(** A platform to run the programs on: [malloc] takes [fresh (dom m)], a
    location that is not in use, and the two conversions keep the bit
    pattern. *)
Definition fresh_platform : Platform := {|
  malloc := fun m => Some (fresh (dom m));
  double_to_float := fun d => d;
  float_to_double := fun f => f
|}.

(** The store before the program has allocated anything. *)
Definition empty_world : world := mkWorld ∅ [].

(** [*(int * )p] *)
Definition read_int (p : ptr) : M Z :=
  b <- load p ;; match b with BInt z => ret z | _ => undef end.

(** The store after [newList(INT)] and [push] of 10, 20 and 30 on
    [fresh_platform], written out. *)
Definition three_ints : world :=
  mkWorld
    (list_to_map
       [ (1%positive, BLista (mkLista (Some 2%positive) (Some 6%positive) INT 4 3));
         (2%positive, BNode (mkNode (Some 3%positive) (Some 4%positive)));
         (3%positive, BInt 10);
         (4%positive, BNode (mkNode (Some 5%positive) (Some 6%positive)));
         (5%positive, BInt 20);
         (6%positive, BNode (mkNode (Some 7%positive) NULL));
         (7%positive, BInt 30) ])
    [].

Definition three_ints_Lista : Lista :=
  mkLista (Some 2%positive) (Some 6%positive) INT 4 3.

Definition three_ints_nodes : list (loc * ptr) :=
  [ (2%positive, Some 3%positive); (4%positive, Some 5%positive);
    (6%positive, Some 7%positive) ].

(** A store with one string constant, as a program that pushes a string
    literal starts from. *)
Definition literal_world : world :=
  mkWorld (list_to_map [ (1%positive, BStr "abc") ]) [].

(** A store with an empty list of kind [INT] at location 1. *)
Definition empty_list_world : world :=
  mkWorld (list_to_map [ (1%positive, BLista (mkLista NULL NULL INT 4 0)) ]) [].

(** A store with an iterator at location 8 that has reached the end of
    the list of [three_ints]. *)
Definition exhausted_world : world :=
  mkWorld (<[8%positive := BIter (mkTIterator (Some 1%positive) NULL 3)]>
             (mem three_ints)) [].

(** A store with a list of kind [STRING] at location 1 that holds the
    strings ab and cd. *)
Definition two_strings : world :=
  mkWorld
    (list_to_map
       [ (1%positive, BLista (mkLista (Some 2%positive) (Some 4%positive) STRING 8 2));
         (2%positive, BNode (mkNode (Some 3%positive) (Some 4%positive)));
         (3%positive, BStr "ab");
         (4%positive, BNode (mkNode (Some 5%positive) NULL));
         (5%positive, BStr "cd") ])
    [].

Definition two_strings_Lista : Lista :=
  mkLista (Some 2%positive) (Some 4%positive) STRING 8 2.

Definition two_strings_nodes : list (loc * ptr) :=
  [ (2%positive, Some 3%positive); (4%positive, Some 5%positive) ].

(** A platform that has run out of memory: [malloc] returns [NULL]. *)
Definition no_memory : Platform := {|
  malloc := fun _ => None;
  double_to_float := fun d => d;
  float_to_double := fun f => f
|}.

(** A visitor for [foreach] on a list of kind [INT]: [( *(int * )p)++],
    without overflow. *)
Definition add_one (p : ptr) : M unit :=
  b <- load p ;;
  match b with
  | BInt z => store p (BInt (z + 1))
  | _ => undef
  end.

Section Proofs.

Context {P : Platform}.

(** ** Running the primitives *)

Lemma bind_Ok {A B} (m : M A) (k : A -> M B) w a w' :
  m w = Ok a w' -> bind m k w = k a w'.
Proof. intros H. unfold bind. by rewrite H. Qed.

Lemma load_ok a b w : mem w !! a = Some b -> load (Some a) w = Ok b w.
Proof. intros H. unfold load. by rewrite H. Qed.

Lemma load_Node_ok a n w :
  mem w !! a = Some (BNode n) -> load_Node (Some a) w = Ok n w.
Proof. intros H. unfold load_Node. by rewrite (bind_Ok _ _ _ _ _ (load_ok _ _ _ H)). Qed.

Lemma load_Lista_ok a l w :
  mem w !! a = Some (BLista l) -> load_Lista (Some a) w = Ok l w.
Proof. intros H. unfold load_Lista. by rewrite (bind_Ok _ _ _ _ _ (load_ok _ _ _ H)). Qed.

Lemma load_Iter_ok a i w :
  mem w !! a = Some (BIter i) -> load_Iter (Some a) w = Ok i w.
Proof. intros H. unfold load_Iter. by rewrite (bind_Ok _ _ _ _ _ (load_ok _ _ _ H)). Qed.

Lemma store_ok a b b0 w :
  mem w !! a = Some b0 ->
  store (Some a) b w = Ok tt (mkWorld (<[a := b]> (mem w)) (stderr w)).
Proof. intros H. unfold store. by rewrite H. Qed.

Lemma free_ok a b0 w :
  mem w !! a = Some b0 ->
  free (Some a) w = Ok tt (mkWorld (base.delete a (mem w)) (stderr w)).
Proof. intros H. unfold free. by rewrite H. Qed.

Lemma wr_val_ok a n v w :
  mem w !! a = Some (BNode n) ->
  wr_val (Some a) v w =
  Ok tt (mkWorld (<[a := BNode (mkNode v (_nextNode n))]> (mem w)) (stderr w)).
Proof.
  intros H. unfold wr_val.
  rewrite (bind_Ok _ _ _ _ _ (load_Node_ok _ _ _ H)). by erewrite store_ok.
Qed.

Lemma wr_nextNode_ok a n nx w :
  mem w !! a = Some (BNode n) ->
  wr_nextNode (Some a) nx w =
  Ok tt (mkWorld (<[a := BNode (mkNode (_val n) nx)]> (mem w)) (stderr w)).
Proof.
  intros H. unfold wr_nextNode.
  rewrite (bind_Ok _ _ _ _ _ (load_Node_ok _ _ _ H)). by erewrite store_ok.
Qed.

Lemma wr_head_ok a l p w :
  mem w !! a = Some (BLista l) ->
  wr_head (Some a) p w =
  Ok tt (mkWorld (<[a := BLista (mkLista p (_tail l) (_type l) (_size l)
                                   (_length l))]> (mem w)) (stderr w)).
Proof.
  intros H. unfold wr_head.
  rewrite (bind_Ok _ _ _ _ _ (load_Lista_ok _ _ _ H)). by erewrite store_ok.
Qed.

Lemma wr_tail_ok a l p w :
  mem w !! a = Some (BLista l) ->
  wr_tail (Some a) p w =
  Ok tt (mkWorld (<[a := BLista (mkLista (_head l) p (_type l) (_size l)
                                   (_length l))]> (mem w)) (stderr w)).
Proof.
  intros H. unfold wr_tail.
  rewrite (bind_Ok _ _ _ _ _ (load_Lista_ok _ _ _ H)). by erewrite store_ok.
Qed.

Lemma wr_length_ok a l n w :
  mem w !! a = Some (BLista l) ->
  wr_length (Some a) n w =
  Ok tt (mkWorld (<[a := BLista (mkLista (_head l) (_tail l) (_type l)
                                   (_size l) n)]> (mem w)) (stderr w)).
Proof.
  intros H. unfold wr_length.
  rewrite (bind_Ok _ _ _ _ _ (load_Lista_ok _ _ _ H)). by erewrite store_ok.
Qed.

Lemma int_add_ok a b w :
  INT_MIN <= a + b <= INT_MAX -> int_add a b w = Ok (a + b) w.
Proof. intros H. unfold int_add. by rewrite decide_True. Qed.

Lemma length_incr_ok a l w :
  mem w !! a = Some (BLista l) ->
  INT_MIN <= _length l + 1 <= INT_MAX ->
  length_incr (Some a) w =
  Ok tt (mkWorld (<[a := BLista (mkLista (_head l) (_tail l) (_type l)
                                   (_size l) (_length l + 1))]> (mem w))
           (stderr w)).
Proof.
  intros H Hr. unfold length_incr.
  rewrite (bind_Ok _ _ _ _ _ (load_Lista_ok _ _ _ H)).
  rewrite (bind_Ok _ _ _ _ _ (int_add_ok _ _ _ Hr)).
  by erewrite wr_length_ok.
Qed.

Lemma length_decr_ok a l w :
  mem w !! a = Some (BLista l) ->
  INT_MIN <= _length l + -1 <= INT_MAX ->
  length_decr (Some a) w =
  Ok tt (mkWorld (<[a := BLista (mkLista (_head l) (_tail l) (_type l)
                                   (_size l) (_length l + -1))]> (mem w))
           (stderr w)).
Proof.
  intros H Hr. unfold length_decr.
  rewrite (bind_Ok _ _ _ _ _ (load_Lista_ok _ _ _ H)).
  rewrite (bind_Ok _ _ _ _ _ (int_add_ok _ _ _ Hr)).
  by erewrite wr_length_ok.
Qed.

(** One step of a program: run the first command with the lemma [L]. *)
Ltac heap_lookup :=
  repeat first
    [ rewrite lookup_insert_eq
    | rewrite lookup_insert_ne by congruence
    | rewrite lookup_delete_eq
    | rewrite lookup_delete_ne by congruence ].

Ltac lookup :=
  cbn [mem stderr _head _tail _type _size _length _val _nextNode
       _list _current _index];
  heap_lookup;
  first [ eassumption | reflexivity ].

Ltac exec L :=
  erewrite bind_Ok; [ | eapply L; lookup ];
  cbn [mem stderr _head _tail _type _size _length _val _nextNode
       _list _current _index].

Ltac finish L :=
  erewrite L; [ | lookup | .. ];
  cbn [mem stderr _head _tail _type _size _length _val _nextNode
       _list _current _index].

(** ** Termination *)

(** The loops that walk to an index are run with as many iterations as
    the index allows; none of them is cut short. *)

Lemma returns_ret {A} (a : A) : returns (ret a).
Proof. intros w. done. Qed.

Lemma returns_bind {A B} (m : M A) (k : A -> M B) :
  returns m -> (forall a, returns (k a)) -> returns (bind m k).
Proof.
  intros Hm Hk w. unfold bind. specialize (Hm w).
  destruct (m w); try done. apply Hk.
Qed.

Lemma returns_undef {A} : returns (@undef A).
Proof. intros w. done. Qed.

Lemma returns_exit {A} : returns (@exit_failure A).
Proof. intros w. done. Qed.

Lemma returns_report d : returns (report d).
Proof. intros w. done. Qed.

Lemma returns_load p : returns (load p).
Proof. intros w. unfold load. destruct p; [|done]. by destruct (mem w !! l). Qed.

Lemma returns_store p b : returns (store p b).
Proof. intros w. unfold store. destruct p; [|done]. by destruct (mem w !! l). Qed.

Lemma returns_free p : returns (free p).
Proof. intros w. unfold free. destruct p; [|done]. by destruct (mem w !! l). Qed.

Lemma returns_malloc init : returns (malloc_ init).
Proof. intros w. unfold malloc_. by destruct (malloc (mem w)). Qed.

Lemma returns_int_add a b : returns (int_add a b).
Proof. intros w. unfold int_add. by case_decide. Qed.

Lemma returns_load_Node p : returns (load_Node p).
Proof.
  apply returns_bind; [apply returns_load|].
  intros []; first [apply returns_ret|apply returns_undef].
Qed.

Lemma returns_load_Lista p : returns (load_Lista p).
Proof.
  apply returns_bind; [apply returns_load|].
  intros []; first [apply returns_ret|apply returns_undef].
Qed.

Lemma returns_load_Iter p : returns (load_Iter p).
Proof.
  apply returns_bind; [apply returns_load|].
  intros []; first [apply returns_ret|apply returns_undef].
Qed.

Ltac returns_step :=
  first
    [ apply returns_ret | apply returns_undef | apply returns_exit
    | apply returns_report | apply returns_load_Node
    | apply returns_load_Lista | apply returns_load_Iter
    | apply returns_load | apply returns_store | apply returns_free
    | apply returns_malloc | apply returns_int_add
    | apply returns_bind; [|intros ?]
    | match goal with
      | |- returns (match ?x with _ => _ end) => destruct x
      end ].

Ltac returns_auto := repeat returns_step.

Lemma returns_wr_val p v : returns (wr_val p v).
Proof. unfold wr_val. returns_auto. Qed.
Lemma returns_wr_nextNode p v : returns (wr_nextNode p v).
Proof. unfold wr_nextNode. returns_auto. Qed.
Lemma returns_wr_head p v : returns (wr_head p v).
Proof. unfold wr_head. returns_auto. Qed.
Lemma returns_wr_tail p v : returns (wr_tail p v).
Proof. unfold wr_tail. returns_auto. Qed.
Lemma returns_wr_length p n : returns (wr_length p n).
Proof. unfold wr_length. returns_auto. Qed.
Lemma returns_length_incr p : returns (length_incr p).
Proof. unfold length_incr, wr_length. returns_auto. Qed.
Lemma returns_length_decr p : returns (length_decr p).
Proof. unfold length_decr, wr_length. returns_auto. Qed.
Lemma returns_free_val this temp : returns (free_val this temp).
Proof. unfold free_val. returns_auto. Qed.

Ltac returns_all :=
  repeat first
    [ apply returns_wr_val | apply returns_wr_nextNode | apply returns_wr_head
    | apply returns_wr_tail | apply returns_wr_length
    | apply returns_length_incr | apply returns_length_decr
    | apply returns_free_val | returns_step ].

Lemma returns_newNode val size type : returns (newNode val size type).
Proof. unfold newNode. returns_all. Qed.

Lemma returns_node_of_arg l a : returns (node_of_arg l a).
Proof.
  unfold node_of_arg. destruct (_type l), a;
    first [apply returns_undef|apply returns_newNode].
Qed.

Lemma returns_push this a : returns (push this a).
Proof.
  unfold push, underPush. destruct this; [|apply returns_report].
  apply returns_bind; [apply returns_load_Lista|intros l0].
  apply returns_bind; [apply returns_node_of_arg|intros node].
  returns_all.
Qed.

Lemma returns_len this : returns (len this).
Proof. unfold len. returns_all. Qed.

Lemma returns_pop this : returns (pop this).
Proof. unfold pop. returns_all. Qed.

Lemma returns_get_loop index fuel : forall p x,
  x <= index -> (Z.to_nat (index - x) <= fuel)%nat ->
  returns (get_loop fuel p x index).
Proof.
  induction fuel as [|fuel IH]; intros p x Hx Hfuel;
    (destruct p; cbn [get_loop]; [|returns_all]);
    (case_decide; [returns_all|]).
  - lia.
  - apply returns_bind; [apply returns_load_Node|intros n].
    apply IH; lia.
Qed.

Lemma returns_get this index : returns (get this index).
Proof.
  unfold get. destruct this; [|returns_all].
  case_decide; [returns_all|].
  apply returns_bind; [apply returns_load_Lista|intros l0].
  apply returns_get_loop; lia.
Qed.

Lemma returns_set_at this current a : returns (set_at this current a).
Proof.
  unfold set_at. apply returns_bind; [apply returns_load_Lista|intros l0].
  destruct (_type l0), a; returns_all.
Qed.

Lemma returns_set_loop this index a fuel : forall p x,
  x <= index -> (Z.to_nat (index - x) <= fuel)%nat ->
  returns (set_loop fuel this p x index a).
Proof.
  induction fuel as [|fuel IH]; intros p x Hx Hfuel;
    (destruct p; cbn [set_loop]; [|returns_all]);
    (case_decide; [apply returns_set_at|]).
  - lia.
  - apply returns_bind; [apply returns_load_Node|intros n].
    apply IH; lia.
Qed.

Lemma returns_set this index a : returns (set this index a).
Proof.
  unfold set. destruct this; [|returns_all].
  case_decide; [returns_all|].
  apply returns_bind; [apply returns_load_Lista|intros l0].
  apply returns_set_loop; lia.
Qed.

Lemma returns_delete_loop this index fuel : forall p x,
  1 <= index -> x <= index - 1 -> (Z.to_nat (index - 1 - x) <= fuel)%nat ->
  returns (delete_loop fuel this p x index).
Proof.
  induction fuel as [|fuel IH]; intros p x Hi Hx Hfuel;
    (destruct p; cbn [delete_loop]; [|returns_all]);
    (case_decide; [returns_all|]).
  - lia.
  - apply returns_bind; [apply returns_load_Node|intros n].
    apply IH; lia.
Qed.

Lemma returns_delete this index : returns (delete this index).
Proof.
  unfold delete. destruct this; [|returns_all].
  case_decide; [returns_all|]. case_decide; [returns_all|].
  apply returns_bind; [apply returns_load_Lista|intros l0].
  apply returns_delete_loop; lia.
Qed.

Lemma returns_underInsert_loop this index node fuel : forall p x,
  x <= index - 1 -> (Z.to_nat (index - 1 - x) <= fuel)%nat ->
  returns (underInsert_loop fuel this p x index node).
Proof.
  induction fuel as [|fuel IH]; intros p x Hx Hfuel;
    (destruct p; cbn [underInsert_loop]; [|returns_all]);
    (case_decide; [returns_all|]).
  - lia.
  - apply returns_bind; [apply returns_load_Node|intros n].
    apply IH; lia.
Qed.

Lemma returns_insert this index a : returns (insert this index a).
Proof.
  unfold insert. destruct this; [|returns_all].
  apply returns_bind; [apply returns_len|intros list_len].
  case_decide; [returns_all|].
  apply returns_bind; [apply returns_load_Lista|intros l0].
  apply returns_bind; [apply returns_node_of_arg|intros node].
  unfold underInsert. case_decide; [returns_all|].
  apply returns_bind; [apply returns_load_Lista|intros l1].
  apply returns_underInsert_loop; lia.
Qed.

Lemma returns_pick_loop this index fuel : forall p x,
  (p = NULL \/ (x <= index - 1 /\ (Z.to_nat (index - x) <= fuel)%nat)) ->
  returns (pick_loop fuel this p x index).
Proof.
  induction fuel as [|fuel IH]; intros p x Hp;
    (destruct p; cbn [pick_loop]; [|returns_all]);
    (destruct Hp as [?|[Hx Hfuel]]; [done|]).
  - lia.
  - apply returns_bind; [apply returns_load_Node|intros n].
    case_decide as Hc; [returns_all|]. apply IH.
    destruct (_nextNode n) eqn:Hn; [right|by left].
    assert (x <> index - 1) by (intros ->; apply Hc; done). lia.
Qed.

Lemma returns_pick this index : returns (pick this index).
Proof.
  unfold pick. destruct this; [|returns_all].
  case_decide; [returns_all|]. case_decide; [apply returns_pop|].
  apply returns_bind; [apply returns_load_Lista|intros l0].
  apply returns_pick_loop. right. lia.
Qed.

Lemma returns_next iterator : returns (next iterator).
Proof. unfold next. returns_all. Qed.

Lemma returns_hasNext iterator : returns (hasNext iterator).
Proof. unfold hasNext. returns_all. Qed.

Lemma returns_newIterator list : returns (newIterator list).
Proof. unfold newIterator. returns_all. Qed.

(** [destroyList]: every iteration releases a live node, so one
    iteration per block of the store is enough. *)

Lemma load_Node_same p w n w' : load_Node p w = Ok n w' -> w' = w.
Proof.
  unfold load_Node, bind, load. destruct p as [a|]; [|done].
  destruct (mem w !! a) as [[]|]; try done. by intros [= _ ->].
Qed.

Lemma load_Lista_same p w l w' : load_Lista p w = Ok l w' -> w' = w.
Proof.
  unfold load_Lista, bind, load. destruct p as [a|]; [|done].
  destruct (mem w !! a) as [[]|]; try done. by intros [= _ ->].
Qed.

Lemma free_size p w w' :
  free p w = Ok tt w' ->
  (size (mem w') <= size (mem w))%nat /\
  (p <> NULL -> (size (mem w') < size (mem w))%nat).
Proof.
  unfold free. destruct p as [a|]; [|by intros [= <-]].
  destruct (mem w !! a) as [b|] eqn:Ha; [|done]. intros [= <-]. cbn.
  rewrite map_size_delete_Some by eauto.
  assert (size (mem w) <> 0%nat).
  { intros H0. apply map_size_empty_inv in H0. by rewrite H0 in Ha. }
  lia.
Qed.

Lemma free_val_size this temp w w' :
  free_val this temp w = Ok tt w' -> (size (mem w') <= size (mem w))%nat.
Proof.
  unfold free_val, bind.
  destruct (load_Lista this w) as [l w1| | |] eqn:Hl; try done.
  apply load_Lista_same in Hl as ->. case_decide; [|by intros [= <-]].
  destruct (load_Node temp w) as [n w1| | |] eqn:Hn; try done.
  apply load_Node_same in Hn as ->. intros Hfree.
  by apply free_size in Hfree as [Hle _].
Qed.

Lemma returns_destroyList_loop this fuel : forall p w,
  (size (mem w) < fuel)%nat -> destroyList_loop fuel this p w <> Diverge.
Proof.
  induction fuel as [|fuel IH]; intros p w Hsize; [lia|].
  destruct p as [a|]; [|done]. cbn [destroyList_loop]. unfold bind.
  destruct (load_Node (Some a) w) as [n w1| | |] eqn:Hn; try done.
  - apply load_Node_same in Hn as ->.
    destruct (free_val this (Some a) w) as [[] w1| | |] eqn:Hv; try done.
    + apply free_val_size in Hv.
      destruct (free (Some a) w1) as [[] w2| | |] eqn:Hfree; try done.
      * apply free_size in Hfree as [_ Hlt]. apply IH.
        specialize (Hlt ltac:(done)). lia.
      * by apply returns_free in Hfree.
    + by apply returns_free_val in Hv.
  - by apply returns_load_Node in Hn.
Qed.

Lemma returns_destroyList this : returns (destroyList this).
Proof.
  unfold destroyList. destruct this; [|returns_all].
  apply returns_bind; [apply returns_load_Lista|intros l0].
  apply returns_bind; [|intros ?; returns_all].
  intros w. apply returns_destroyList_loop. lia.
Qed.

(** ** Chains of nodes *)

Lemma lseg_agree (m m' : heap) ns p q :
  (forall a, a ∈ ns.*1 -> m' !! a = m !! a) ->
  lseg m p ns q -> lseg m' p ns q.
Proof.
  revert p. induction ns as [|[a v] ns IH]; intros p Hag; cbn; [done|].
  intros [-> (nx & Ha & Hs)]. split; [done|]. exists nx. split.
  - rewrite Hag; [done|]. cbn. left.
  - apply IH; [|done]. intros b Hb. apply Hag. cbn. by right.
Qed.

Lemma lseg_live (m : heap) ns p q a :
  lseg m p ns q -> a ∈ ns.*1 -> exists n, m !! a = Some (BNode n).
Proof.
  revert p. induction ns as [|[b v] ns IH]; intros p; cbn.
  - intros _ H. by apply elem_of_nil in H.
  - intros [-> (nx & Hb & Hs)] [->|Hin]%elem_of_cons; eauto.
Qed.

Lemma lseg_not_node (m : heap) ns p q a b :
  lseg m p ns q -> m !! a = Some b -> (forall n, b <> BNode n) -> a ∉ ns.*1.
Proof.
  intros Hs Ha Hb Hin. destruct (lseg_live _ _ _ _ _ Hs Hin) as [n Hn].
  rewrite Ha in Hn. injection Hn as ->. by eapply Hb.
Qed.

Lemma lseg_fresh (m : heap) ns p q a :
  lseg m p ns q -> m !! a = None -> a ∉ ns.*1.
Proof.
  intros Hs Ha Hin. destruct (lseg_live _ _ _ _ _ Hs Hin) as [n Hn].
  by rewrite Ha in Hn.
Qed.

Lemma lseg_fun (m : heap) ns1 ns2 p :
  lseg m p ns1 NULL -> lseg m p ns2 NULL -> ns1 = ns2.
Proof.
  revert ns2 p. induction ns1 as [|[a v] ns1 IH]; intros [|[b u] ns2] p; cbn.
  - done.
  - intros -> [? _]. done.
  - intros [-> _] ?. done.
  - intros [-> (nx & Ha & Hs1)] [[= <-] (nx' & Hb & Hs2)].
    rewrite Ha in Hb. injection Hb as <- <-. f_equal. by eapply IH.
Qed.

Lemma lseg_app (m : heap) ns1 ns2 p q r :
  lseg m p ns1 q -> lseg m q ns2 r -> lseg m p (ns1 ++ ns2) r.
Proof.
  revert p. induction ns1 as [|[a v] ns1 IH]; intros p; cbn.
  - by intros ->.
  - intros [-> (nx & Ha & Hs)] H2. split; [done|]. exists nx. eauto.
Qed.

Lemma lseg_split (m : heap) ns1 ns2 p r :
  lseg m p (ns1 ++ ns2) r -> exists q, lseg m p ns1 q /\ lseg m q ns2 r.
Proof.
  revert p. induction ns1 as [|[a v] ns1 IH]; intros p; cbn.
  - intros H. by exists p.
  - intros [-> (nx & Ha & Hs)]. destruct (IH _ Hs) as (q & H1 & H2).
    exists q. split; [|done]. split; [done|]. eauto.
Qed.

(** A chain that ends in [NULL] visits no node twice. *)
Lemma lseg_NoDup (m : heap) ns p : lseg m p ns NULL -> NoDup (ns.*1).
Proof.
  revert p. induction ns as [|[a v] ns IH]; intros p; cbn.
  - intros _. constructor.
  - intros [-> (nx & Ha & Hs)]. constructor; [|by eapply IH].
    intros Hin. apply list_elem_of_fmap in Hin as ([a' v'] & Heq & Hin).
    cbn in Heq. subst a'.
    apply list_elem_of_split in Hin as (l1 & l2 & ->).
    apply lseg_split in Hs as Hs'. destruct Hs' as (q & H1 & H2).
    cbn in H2. destruct H2 as [-> (nx' & Ha' & H2)].
    rewrite Ha in Ha'. injection Ha' as <- <-.
    pose proof (lseg_fun _ _ _ _ Hs H2) as Heq.
    apply (f_equal length) in Heq. rewrite length_app in Heq. cbn in Heq.
    lia.
Qed.

Lemma footprint_live (m : heap) this l ns es a :
  is_list m this l ns es -> a ∈ footprint this l ns -> is_Some (m !! a).
Proof.
  intros [Ht Hc He] Hin. unfold footprint in Hin.
  apply elem_of_cons in Hin as [->|Hin]; [eauto|].
  apply elem_of_app in Hin as [Hin|Hin].
  - destruct (lseg_live _ _ _ _ _ Hc Hin); eauto.
  - assert (Some a ∈ ns.*2 /\ _type l <> T) as [Hv HT].
    { destruct (_type l); try by apply elem_of_nil in Hin.
      all: apply list_elem_of_omap in Hin as (o & Ho & Heq); cbn in Heq; by subst o. }
    clear Hin. revert He. generalize (ns.*2) es Hv. clear -HT.
    intros vs es Hv He. induction He as [|v e vs es Hve He IH].
    + by apply elem_of_nil in Hv.
    + apply elem_of_cons in Hv as [<-|Hv]; [|by apply IH].
      unfold val_elem in Hve.
      destruct (_type l); try done;
        destruct Hve as (c & b & [= ->] & Hc & _); eauto.
Qed.

Lemma val_elem_agree (m m' : heap) type v e :
  (forall c, v = Some c -> type <> T -> m' !! c = m !! c) ->
  val_elem m type v e -> val_elem m' type v e.
Proof.
  intros Hag. unfold val_elem. destruct type; try done;
    intros (c & b & -> & Hc & Hb); exists c, b;
    (split; [done|]); (split; [|done]); by rewrite Hag.
Qed.

Lemma is_list_agree (m m' : heap) this l ns es :
  (forall a, a ∈ footprint this l ns -> m' !! a = m !! a) ->
  is_list m this l ns es -> is_list m' this l ns es.
Proof.
  intros Hag [Ht Hc He]. split.
  - rewrite Hag; [done|]. unfold footprint. left.
  - eapply lseg_agree; [|done]. intros a Ha. apply Hag.
    unfold footprint. right. apply elem_of_app. by left.
  - revert He. assert (Hsub : forall v, v ∈ ns.*2 -> forall c, v = Some c ->
      _type l <> T -> m' !! c = m !! c).
    { intros v Hv c -> HT. apply Hag. unfold footprint. right.
      apply elem_of_app. right. destruct (_type l); try done;
        apply list_elem_of_omap; by exists (Some c). }
    revert Hsub. generalize (ns.*2) es. clear.
    intros vs es Hsub He. induction He as [|v e vs es Hve He IH]; constructor.
    + eapply val_elem_agree; [|done]. intros c Hc HT.
      eapply Hsub; [|done..]. left.
    + apply IH. intros u Hu. apply Hsub. by right.
Qed.

Lemma is_list_insert_fresh (m : heap) this l ns es a b :
  m !! a = None ->
  is_list m this l ns es -> is_list (<[a := b]> m) this l ns es.
Proof.
  intros Ha Hl. eapply is_list_agree; [|done]. intros c Hc.
  destruct (footprint_live _ _ _ _ _ _ Hl Hc) as [x Hx].
  rewrite lookup_insert_ne; [done|]. intros ->. by rewrite Ha in Hx.
Qed.

(** ** The iterator *)

Lemma malloc_ok init w :
  malloc_fresh P -> malloc_total P ->
  exists a, mem w !! a = None /\
    malloc_ init w = Ok (Some a) (mkWorld (<[a := init]> (mem w)) (stderr w)).
Proof.
  intros Hf Ht. destruct (Ht (mem w)) as [a Ha]. exists a.
  split; [by apply Hf|]. unfold malloc_. by rewrite Ha.
Qed.

Lemma hasNext_ok it i w :
  mem w !! it = Some (BIter i) ->
  hasNext (Some it) w = Ok (bool_decide (_current i <> NULL)) w.
Proof. intros H. unfold hasNext. by exec load_Iter_ok. Qed.

Lemma next_end it i w :
  mem w !! it = Some (BIter i) -> _current i = NULL ->
  next (Some it) w = Ok NULL (mkWorld (mem w) (stderr w ++ [NoMoreElements])).
Proof. intros H Hc. unfold next. exec load_Iter_ok. by rewrite Hc. Qed.

Lemma next_node it i a n w :
  mem w !! it = Some (BIter i) -> _current i = Some a ->
  mem w !! a = Some (BNode n) ->
  _index i + 1 <= INT_MAX -> 0 <= _index i ->
  next (Some it) w =
  Ok (_val n)
     (mkWorld (<[it := BIter (mkTIterator (_list i) (_nextNode n)
                                (_index i + 1))]> (mem w)) (stderr w)).
Proof.
  intros H Hc Ha Hi1 Hi0.
  assert (a <> it) by (intros ->; rewrite H in Ha; done).
  unfold next. exec load_Iter_ok. rewrite Hc.
  exec load_Node_ok.
  erewrite bind_Ok; [|apply int_add_ok; unfold INT_MIN; lia].
  exec store_ok. exec load_Node_ok. exec store_ok.
  unfold ret. by rewrite insert_insert_eq.
Qed.

(** C10. Once the cursor of an iterator is at the end, every further
    [next] returns [NULL] and only prints its message: the store, and with
    it the iterator (position and index) and the list, is left as it was,
    and [hasNext] still answers [false]. *)
Theorem next_exhausted it i w n :
  mem w !! it = Some (BIter i) -> _current i = NULL ->
  exists w',
    next_n (Some it) n w = Ok (replicate n NULL) w' /\
    mem w' = mem w /\
    stderr w' = stderr w ++ replicate n NoMoreElements /\
    hasNext (Some it) w' = Ok false w'.
Proof.
  intros H Hc. revert w H. induction n as [|n IH]; intros w H.
  - exists w. cbn [next_n replicate]. rewrite app_nil_r.
    rewrite (hasNext_ok _ _ _ H), Hc. done.
  - cbn [next_n replicate].
    destruct (IH (mkWorld (mem w) (stderr w ++ [NoMoreElements])) H)
      as (w' & Hrun & Hm & He & Hh).
    exists w'. rewrite (bind_Ok _ _ _ _ _ (next_end _ _ _ H Hc)).
    rewrite (bind_Ok _ _ _ _ _ Hrun). cbn in *.
    rewrite He, <- app_assoc. done.
Qed.

Lemma iterate_end it i w k :
  mem w !! it = Some (BIter i) -> _current i = NULL ->
  iterate (Some it) k w =
  Ok (replicate k (false, NULL))
     (mkWorld (mem w) (stderr w ++ replicate k NoMoreElements)).
Proof.
  intros H Hc. revert w H. induction k as [|k IH]; intros w H.
  - cbn. rewrite app_nil_r. by destruct w.
  - cbn [iterate replicate].
    rewrite (bind_Ok _ _ _ _ _ (hasNext_ok _ _ _ H)).
    rewrite (bind_Ok _ _ _ _ _ (next_end _ _ _ H Hc)).
    rewrite (bind_Ok _ _ _ _ _
               (IH (mkWorld (mem w) (stderr w ++ [NoMoreElements])) H)).
    cbn. rewrite Hc, <- app_assoc. done.
Qed.

Lemma iterate_chain it lst ns k : forall p idx w,
  mem w !! it = Some (BIter (mkTIterator lst p idx)) ->
  lseg (mem w) p ns NULL ->
  0 <= idx -> idx + Z.of_nat (length ns) <= INT_MAX ->
  iterate (Some it) (length ns + k) w =
  Ok (map (fun v => (true, v)) (ns.*2) ++ replicate k (false, NULL))
     (mkWorld (<[it := BIter (mkTIterator lst NULL
                                (idx + Z.of_nat (length ns)))]> (mem w))
        (stderr w ++ replicate k NoMoreElements)).
Proof.
  induction ns as [|[a v] ns IH]; intros p idx w Hit Hs H0 Hmax.
  - cbn in Hs. subst p. cbn [length Nat.add fmap list_fmap map app].
    rewrite (iterate_end _ _ _ _ Hit eq_refl).
    rewrite Z.add_0_r, insert_id; done.
  - cbn in Hs. destruct Hs as [-> (nx & Ha & Hs)].
    assert (a <> it) by (intros ->; rewrite Hit in Ha; done).
    cbn [length Nat.add iterate]. cbn [length] in Hmax.
    rewrite (bind_Ok _ _ _ _ _ (hasNext_ok _ _ _ Hit)).
    erewrite bind_Ok;
      [|eapply next_node; [exact Hit|reflexivity|exact Ha|cbn; lia|cbn; lia]].
    cbn [_val _nextNode _list _index].
    erewrite bind_Ok; [|eapply (IH nx (idx + 1))].
    + cbn. rewrite insert_insert_eq. unfold ret. do 3 f_equal.
      f_equal. f_equal. lia.
    + cbn. by rewrite lookup_insert_eq.
    + cbn. eapply lseg_agree; [|done]. intros b Hb.
      rewrite lookup_insert_ne; [done|]. intros <-.
      eapply (lseg_not_node _ _ _ _ it); [exact Hs|exact Hit|done|done].
    + lia.
    + lia.
Qed.

Lemma newIterator_ok this l w :
  malloc_fresh P -> malloc_total P ->
  mem w !! this = Some (BLista l) ->
  exists it, mem w !! it = None /\
    newIterator (Some this) w =
    Ok (Some it)
       (mkWorld (<[it := BIter (mkTIterator (Some this) (_head l) 0)]> (mem w))
          (stderr w)).
Proof.
  intros Hf Ht Hthis. destruct (malloc_ok BRaw w Hf Ht) as (it & Hit & Hm).
  exists it. split; [done|].
  assert (this <> it) by (intros ->; by rewrite Hit in Hthis).
  unfold newIterator. rewrite (bind_Ok _ _ _ _ _ Hm).
  exec load_Lista_ok. exec store_ok. unfold ret.
  by rewrite insert_insert_eq.
Qed.

(** C6. An iterator created on a list of [n] nodes answers [true] to
    [hasNext] and yields the stored values in list order for the first
    [n] rounds, and answers [false] and yields [NULL] in every later
    round; the list is left as it was. *)
Theorem iterator_yields this l ns es w k :
  malloc_fresh P -> malloc_total P ->
  is_list (mem w) this l ns es ->
  Z.of_nat (length ns) <= INT_MAX ->
  exists it w0 w1,
    newIterator (Some this) w = Ok (Some it) w0 /\
    iterate (Some it) (length ns + k) w0 =
      Ok (map (fun v => (true, v)) (ns.*2) ++ replicate k (false, NULL)) w1 /\
    is_list (mem w1) this l ns es /\
    (forall a, a <> it -> mem w1 !! a = mem w !! a).
Proof.
  intros Hf Ht Hl Hmax. pose proof Hl as [Hthis Hc He].
  destruct (newIterator_ok this l w Hf Ht Hthis) as (it & Hit & Hnew).
  eexists it, _, _. split; [exact Hnew|].
  split; [|split].
  - eapply iterate_chain; cbn.
    + by rewrite lookup_insert_eq.
    + eapply lseg_agree; [|done]. intros b Hb.
      rewrite lookup_insert_ne; [done|]. intros <-.
      by eapply lseg_fresh.
    + lia.
    + lia.
  - cbn. rewrite insert_insert_eq. by apply is_list_insert_fresh.
  - intros a Ha. cbn. rewrite insert_insert_eq.
    by rewrite lookup_insert_ne.
Qed.

(** ** Building a node *)

Lemma block_of_value type e b : block_of type e = Some b -> value_block b.
Proof. destruct type, e; cbn; intros [= <-]; done. Qed.

Lemma val_elem_preserved (m m' : heap) type v e :
  (forall c b, m !! c = Some b -> value_block b -> m' !! c = Some b) ->
  val_elem m type v e -> val_elem m' type v e.
Proof.
  intros Hag. unfold val_elem. destruct type; try done;
    intros (c & b & -> & Hc & Hb); exists c, b;
    (split; [done|]); (split; [|done]);
    (eapply Hag; [done|]); by eapply block_of_value.
Qed.

Lemma vals_agree (m m' : heap) type vs es :
  (forall c b, m !! c = Some b -> value_block b -> m' !! c = Some b) ->
  Forall2 (val_elem m type) vs es -> Forall2 (val_elem m' type) vs es.
Proof.
  intros Hag He. induction He as [|v e vs es Hve He IH]; constructor; [|done].
  by eapply val_elem_preserved.
Qed.

Lemma args_agree (m m' : heap) type args es :
  (forall c b, m !! c = Some b -> value_block b -> m' !! c = Some b) ->
  Forall2 (arg_elem m type) args es -> Forall2 (arg_elem m' type) args es.
Proof.
  intros Hag He. induction He as [|v e vs es Hve He IH]; constructor; [|done].
  revert Hve. unfold arg_elem. destruct type; try tauto.
  intros (c & s & -> & Hc & ->). exists c, s. repeat split.
  by eapply Hag.
Qed.

Lemma newNode_AddrOf b size type w :
  malloc_fresh P -> malloc_total P ->
  type <> STRING -> type <> T ->
  exists n c w',
    newNode (AddrOf b) size type w = Ok (Some n) w' /\
    mem w !! n = None /\ mem w !! c = None /\ n <> c /\
    mem w' = <[n := BNode (mkNode (Some c) NULL)]> (<[c := b]> (mem w)) /\
    stderr w' = stderr w.
Proof.
  intros Hf Ht HS HT.
  destruct (malloc_ok (BNode (mkNode NULL NULL)) w Hf Ht) as (n & Hn & Hmn).
  destruct (malloc_ok BRaw
              (mkWorld (<[n := BNode (mkNode NULL NULL)]> (mem w)) (stderr w))
              Hf Ht) as (c & Hc & Hmc).
  cbn [mem stderr] in Hc, Hmc.
  assert (n <> c) by (intros ->; by rewrite lookup_insert_eq in Hc).
  rewrite lookup_insert_ne in Hc by done.
  eexists n, c, _. split; [|split; [exact Hn|split; [exact Hc|split; [done|]]]].
  - unfold newNode. rewrite (bind_Ok _ _ _ _ _ Hmn).
    destruct type; try done.
    all: erewrite bind_Ok;
      [|rewrite (bind_Ok _ _ _ _ _ Hmc); exec wr_val_ok; finish store_ok;
        reflexivity].
    all: exec wr_nextNode_ok; unfold ret; reflexivity.
  - cbn. split; [|done]. apply map_eq. intros x.
    destruct (decide (x = n)) as [->|]; [by heap_lookup|].
    destruct (decide (x = c)) as [->|]; by heap_lookup.
Qed.

Lemma newNode_STRING s str size w :
  malloc_fresh P -> malloc_total P ->
  mem w !! s = Some (BStr str) ->
  exists n c w',
    newNode (Pointer (Some s)) size STRING w = Ok (Some n) w' /\
    mem w !! n = None /\ mem w !! c = None /\ n <> c /\
    mem w' = <[n := BNode (mkNode (Some c) NULL)]> (<[c := BStr str]> (mem w)) /\
    stderr w' = stderr w.
Proof.
  intros Hf Ht Hs.
  destruct (malloc_ok (BNode (mkNode NULL NULL)) w Hf Ht) as (n & Hn & Hmn).
  destruct (malloc_ok BRaw
              (mkWorld (<[n := BNode (mkNode NULL NULL)]> (mem w)) (stderr w))
              Hf Ht) as (c & Hc & Hmc).
  cbn [mem stderr] in Hc, Hmc.
  assert (n <> c) by (intros ->; by rewrite lookup_insert_eq in Hc).
  assert (n <> s) by (intros ->; by rewrite Hn in Hs).
  rewrite lookup_insert_ne in Hc by done.
  eexists n, c, _. split; [|split; [exact Hn|split; [exact Hc|split; [done|]]]].
  - unfold newNode. rewrite (bind_Ok _ _ _ _ _ Hmn).
    erewrite bind_Ok;
      [|exec load_ok; rewrite (bind_Ok _ _ _ _ _ Hmc); exec wr_val_ok;
        finish store_ok; reflexivity].
    exec wr_nextNode_ok. unfold ret. reflexivity.
  - cbn. split; [|done]. apply map_eq. intros x.
    destruct (decide (x = n)) as [->|]; [by heap_lookup|].
    destruct (decide (x = c)) as [->|]; by heap_lookup.
Qed.

Lemma newNode_T p size w :
  malloc_fresh P -> malloc_total P ->
  exists n w',
    newNode (Pointer p) size T w = Ok (Some n) w' /\
    mem w !! n = None /\
    mem w' = <[n := BNode (mkNode p NULL)]> (mem w) /\
    stderr w' = stderr w.
Proof.
  intros Hf Ht.
  destruct (malloc_ok (BNode (mkNode NULL NULL)) w Hf Ht) as (n & Hn & Hmn).
  eexists n, _. split; [|split; [exact Hn|]].
  - unfold newNode. rewrite (bind_Ok _ _ _ _ _ Hmn).
    exec wr_val_ok. exec wr_nextNode_ok. unfold ret. reflexivity.
  - cbn. by rewrite !insert_insert_eq.
Qed.

(** The node built for an argument of the list's kind. *)
Lemma node_of_arg_ok l a e w :
  malloc_fresh P -> malloc_total P ->
  arg_elem (mem w) (_type l) a e ->
  exists n v w',
    node_of_arg l a w = Ok (Some n) w' /\
    mem w !! n = None /\
    mem w' !! n = Some (BNode (mkNode v NULL)) /\
    val_elem (mem w') (_type l) v e /\
    (forall c, v = Some c -> _type l <> T -> mem w !! c = None /\ c <> n) /\
    (forall x, is_Some (mem w !! x) -> mem w' !! x = mem w !! x) /\
    (forall x, mem w !! x = None -> x <> n -> Some x <> v \/ _type l = T ->
               mem w' !! x = None) /\
    stderr w' = stderr w.
Proof.
  intros Hf Ht Ha. unfold node_of_arg, arg_elem, val_elem in *.
  destruct (_type l) eqn:Hty.
  - destruct Ha as (p & -> & ->).
    destruct (newNode_T p (_size l) w Hf Ht) as (n & w' & Hrun & Hn & Hm & He).
    exists n, p, w'. rewrite Hm. split; [done|]. split; [done|].
    split; [by rewrite lookup_insert_eq|]. split; [done|].
    split; [done|]. split; [|split; [|done]].
    + intros x [b Hx]. rewrite lookup_insert_ne; [done|].
      intros ->. by rewrite Hn in Hx.
    + intros x Hx Hxn _. by rewrite lookup_insert_ne.
  - destruct Ha as (z & -> & ->).
    destruct (newNode_AddrOf (BInt z) (_size l) INT w Hf Ht)
      as (n & c & w' & Hrun & Hn & Hc & Hnc & Hm & He); [done..|].
    exists n, (Some c), w'. rewrite Hm. split; [done|]. split; [done|].
    split; [by rewrite lookup_insert_eq|]. split; [|split; [|split; [|split; [|done]]]].
    + exists c, (BInt z). split; [done|].
      by rewrite lookup_insert_ne, lookup_insert_eq.
    + intros ? [= <-] _. done.
    + intros x [b Hx]. rewrite !lookup_insert_ne; [done|..]; intros ->; congruence.
    + intros x Hx Hxn [Hxc|?]; [|done].
      rewrite !lookup_insert_ne; [done|congruence..].
  - destruct Ha as (s & str & -> & Hs & ->).
    destruct (newNode_STRING s str (_size l) w Hf Ht Hs)
      as (n & c & w' & Hrun & Hn & Hc & Hnc & Hm & He).
    exists n, (Some c), w'. rewrite Hm. split; [done|]. split; [done|].
    split; [by rewrite lookup_insert_eq|]. split; [|split; [|split; [|split; [|done]]]].
    + exists c, (BStr str). split; [done|].
      by rewrite lookup_insert_ne, lookup_insert_eq.
    + intros ? [= <-] _. done.
    + intros x [b Hx]. rewrite !lookup_insert_ne; [done|..]; intros ->; congruence.
    + intros x Hx Hxn [Hxc|?]; [|done].
      rewrite !lookup_insert_ne; [done|congruence..].
  - destruct Ha as (d & -> & ->).
    destruct (newNode_AddrOf (BFloat (double_to_float d)) (_size l) FLOAT w Hf Ht)
      as (n & c & w' & Hrun & Hn & Hc & Hnc & Hm & He); [done..|].
    exists n, (Some c), w'. rewrite Hm. split; [done|]. split; [done|].
    split; [by rewrite lookup_insert_eq|]. split; [|split; [|split; [|split; [|done]]]].
    + exists c, (BFloat (double_to_float d)). split; [done|].
      by rewrite lookup_insert_ne, lookup_insert_eq.
    + intros ? [= <-] _. done.
    + intros x [b Hx]. rewrite !lookup_insert_ne; [done|..]; intros ->; congruence.
    + intros x Hx Hxn [Hxc|?]; [|done].
      rewrite !lookup_insert_ne; [done|congruence..].
  - destruct Ha as (d & -> & ->).
    destruct (newNode_AddrOf (BDouble d) (_size l) DOUBLE w Hf Ht)
      as (n & c & w' & Hrun & Hn & Hc & Hnc & Hm & He); [done..|].
    exists n, (Some c), w'. rewrite Hm. split; [done|]. split; [done|].
    split; [by rewrite lookup_insert_eq|]. split; [|split; [|split; [|split; [|done]]]].
    + exists c, (BDouble d). split; [done|].
      by rewrite lookup_insert_ne, lookup_insert_eq.
    + intros ? [= <-] _. done.
    + intros x [b Hx]. rewrite !lookup_insert_ne; [done|..]; intros ->; congruence.
    + intros x Hx Hxn [Hxc|?]; [|done].
      rewrite !lookup_insert_ne; [done|congruence..].
Qed.

(** ** [push] *)

Lemma lseg_snoc (m : heap) ns a v p q :
  lseg m p (ns ++ [(a, v)]) q <->
  lseg m p ns (Some a) /\ m !! a = Some (BNode (mkNode v q)).
Proof.
  split.
  - intros (r & H1 & H2)%lseg_split. cbn in H2.
    destruct H2 as [-> (nx & Ha & ->)]. done.
  - intros [H1 H2]. eapply lseg_app; [done|]. cbn. eauto.
Qed.

Lemma last_fst_snoc (ns : list (loc * ptr)) a v :
  last ((ns ++ [(a, v)]).*1) = Some a.
Proof. rewrite fmap_app. cbn. apply last_snoc. Qed.

Lemma push_ok this l ns es a e w :
  malloc_fresh P -> malloc_total P ->
  wf_list (mem w) this l ns es ->
  arg_elem (mem w) (_type l) a e ->
  Z.of_nat (length ns) < INT_MAX ->
  exists n v l' w',
    push (Some this) a w = Ok tt w' /\
    wf_list (mem w') this l' (ns ++ [(n, v)]) (es ++ [e]) /\
    _type l' = _type l /\
    mem w !! n = None /\
    (forall c, v = Some c -> _type l <> T -> mem w !! c = None) /\
    (forall x, is_Some (mem w !! x) -> x <> this -> Some x <> _tail l ->
               mem w' !! x = mem w !! x) /\
    (forall x, mem w !! x = None -> x <> n -> Some x <> v \/ _type l = T ->
               mem w' !! x = None) /\
    stderr w' = stderr w.
Proof.
  intros Hf Ht [[Hthis Hc He] Htail Hlen _] Ha Hmax.
  destruct (node_of_arg_ok l a e w Hf Ht Ha)
    as (n & v & w1 & Hrun & Hn & Hn1 & Hv & Hfresh & Hframe & Hnone & Herr).
  assert (this <> n) as Htn by (intros ->; by rewrite Hn in Hthis).
  assert (mem w1 !! this = Some (BLista l)) as Hthis1
    by (rewrite Hframe; eauto).
  assert (forall c b, mem w !! c = Some b -> value_block b ->
            mem w1 !! c = Some b /\ c <> this /\ c <> n) as Hvb.
  { intros c b Hcb Hb. split; [rewrite Hframe; eauto|].
    split; intros ->; [rewrite Hthis in Hcb|rewrite Hn in Hcb];
      by simplify_eq. }
  assert (forall c, v = Some c -> _type l <> T -> c <> this) as Hvthis.
  { intros c -> HT ->. destruct (Hfresh _ eq_refl HT) as [Hnil _].
    by rewrite Hthis in Hnil. }
  unfold push. exec load_Lista_ok. rewrite (bind_Ok _ _ _ _ _ Hrun).
  unfold underPush. exec load_Lista_ok.
  destruct ns as [|[t vt] ns0 _] using rev_ind.
  - cbn in Hc. rewrite Hc. apply Forall2_nil_inv_l in He as ->.
    exists n, v. eexists. eexists. split.
    { erewrite bind_Ok;
        [|exec wr_head_ok; finish wr_tail_ok; reflexivity].
      finish length_incr_ok; [reflexivity|].
      cbn in Hlen. rewrite Hlen. unfold INT_MIN, INT_MAX in *. lia. }
    cbn [mem stderr _head _tail _type _size _length].
    rewrite !insert_insert_eq.
    split; [split; [split|..]|]; cbn [_head _tail _type _length app].
    + by rewrite lookup_insert_eq.
    + cbn. split; [done|]. exists NULL. by rewrite lookup_insert_ne.
    + cbn. constructor; [|constructor].
      eapply val_elem_agree; [|exact Hv]. intros c -> HT.
      rewrite lookup_insert_ne; [done|]. intros ->. by eapply Hvthis.
    + done.
    + cbn in *. lia.
    + cbn in *. lia.
    + split; [done|]. split; [done|]. split; [intros; by eapply Hfresh|].
      split; [|split; [|done]].
      * intros x Hx Hxt _. rewrite lookup_insert_ne by done. by apply Hframe.
      * intros x Hx Hxn Hxv. rewrite lookup_insert_ne.
        -- by apply Hnone.
        -- intros ->. by rewrite Hthis in Hx.
  - apply lseg_snoc in Hc as [Hc Ht0].
    rewrite last_fst_snoc in Htail.
    assert (exists h, _head l = Some h) as [h Hh].
    { destruct ns0 as [|[b u] ns0]; cbn in Hc; [eauto|].
      destruct Hc as [-> _]. eauto. }
    rewrite Hh, Htail.
    assert (t <> this) by (intros ->; rewrite Hthis in Ht0; done).
    assert (t <> n) by (intros ->; by rewrite Hn in Ht0).
    assert (mem w1 !! t = Some (BNode (mkNode vt NULL))) as Ht1
      by (rewrite Hframe; eauto).
    exists n, v. eexists. eexists. split.
    { erewrite bind_Ok;
        [|exec wr_nextNode_ok; finish wr_tail_ok; reflexivity].
      finish length_incr_ok; [reflexivity|].
      rewrite Hlen. unfold INT_MIN, INT_MAX in *. lia. }
    cbn [mem stderr _head _tail _type _size _length].
    rewrite !insert_insert_eq.
    assert (forall x, x <> this -> x <> t ->
      <[this := BLista (mkLista (_head l) (Some n) (_type l) (_size l)
                          (_length l + 1))]>
        (<[t := BNode (mkNode vt (Some n))]> (mem w1)) !! x = mem w1 !! x)
      as Hother by (intros; by rewrite !lookup_insert_ne).
    split; [split; [split|..]|]; cbn [_head _tail _type _length].
    + by rewrite lookup_insert_eq.
    + apply lseg_snoc. split; [|by rewrite Hother].
      apply lseg_snoc.
      split; [|by rewrite lookup_insert_ne, lookup_insert_eq].
      eapply lseg_agree; [|exact Hc]. intros b Hb.
      destruct (lseg_live _ _ _ _ _ Hc Hb) as [nb Hnb].
      rewrite Hother.
      * apply Hframe. eauto.
      * intros ->. rewrite Hthis in Hnb. done.
      * intros ->.
        assert (lseg (mem w) (_head l) (ns0 ++ [(t, vt)]) NULL) as Hfull
          by (apply lseg_snoc; done).
        apply lseg_NoDup in Hfull. rewrite fmap_app in Hfull.
        apply NoDup_app in Hfull as (_ & Hdis & _).
        eapply Hdis; [done|]. cbn. left.
    + rewrite fmap_app. apply Forall2_app.
      * eapply vals_agree; [|exact He]. intros c b Hcb Hb.
        destruct (Hvb _ _ Hcb Hb) as (Hc1 & Hct & Hcn).
        rewrite Hother; [done|done|]. intros ->.
        rewrite Ht0 in Hcb. injection Hcb as <-. done.
      * cbn. constructor; [|constructor].
        eapply val_elem_agree; [|exact Hv]. intros c -> HT.
        destruct (Hfresh _ eq_refl HT) as [Hcnil _].
        rewrite Hother; [done|by eapply Hvthis|].
        intros ->. by rewrite Ht0 in Hcnil.
    + by rewrite last_fst_snoc.
    + rewrite !length_app in *. cbn in *. lia.
    + rewrite !length_app in *. cbn in *. lia.
    + split; [done|]. split; [done|]. split; [intros; by eapply Hfresh|].
      split; [|split; [|done]].
      * intros x Hx Hxt Hxtail. rewrite Hother; [by apply Hframe|done|].
        intros ->. by apply Hxtail.
      * intros x Hx Hxn Hxv. rewrite Hother.
        -- by apply Hnone.
        -- intros ->. by rewrite Hthis in Hx.
        -- intros ->. by rewrite Ht0 in Hx.
Qed.

(** ** [pop] *)

Lemma pop_empty this l w :
  mem w !! this = Some (BLista l) -> _head l = NULL ->
  pop (Some this) w = Ok NULL w.
Proof. intros Hthis Hh. unfold pop. exec load_Lista_ok. by rewrite Hh. Qed.

Lemma len_ok this l w :
  mem w !! this = Some (BLista l) -> len (Some this) w = Ok (_length l) w.
Proof.
  intros Hthis. unfold len. erewrite bind_Ok; [|reflexivity].
  by exec load_Lista_ok.
Qed.

Lemma pop_cons this l a v ns e es w :
  wf_list (mem w) this l ((a, v) :: ns) (e :: es) ->
  exists l' w',
    pop (Some this) w = Ok v w' /\
    wf_list (mem w') this l' ns es /\
    _type l' = _type l /\
    val_elem (mem w') (_type l) v e /\
    mem w' = <[this := BLista l']> (base.delete a (mem w)) /\
    stderr w' = stderr w.
Proof.
  intros [[Hthis Hc He] Htail Hlen Hrange].
  cbn in Hc. destruct Hc as [Hh (nx & Ha & Hc)].
  assert (a <> this) as Hat by (intros ->; rewrite Hthis in Ha; done).
  pose proof (lseg_NoDup (mem w) ((a, v) :: ns) (Some a)) as Hnd.
  cbn in Hnd. specialize (Hnd (conj eq_refl (ex_intro _ nx (conj Ha Hc)))).
  apply NoDup_cons in Hnd as [Hnotin _].
  set (l' := mkLista nx (match nx with None => NULL | Some _ => _tail l end)
                (_type l) (_size l) (_length l + -1)).
  assert (forall x b, mem w !! x = Some b -> x <> this -> x <> a ->
            (<[this := BLista l']> (base.delete a (mem w))) !! x = Some b)
    as Hother.
  { intros x b Hx ? ?. by rewrite lookup_insert_ne, lookup_delete_ne. }
  exists l'. eexists. split; [|split; [|split; [done|split; [|split]]]].
  - unfold pop. exec load_Lista_ok. rewrite Hh. exec load_Node_ok.
    exec wr_head_ok. exec free_ok.
    erewrite bind_Ok;
      [|eapply length_decr_ok; [lookup|cbn; rewrite Hlen; cbn [length];
        cbn [length] in Hrange; unfold INT_MIN, INT_MAX in *; lia]].
    cbn [mem stderr _head _tail _type _size _length].
    exec load_Lista_ok.
    instantiate (1 := mkWorld (<[this := BLista l']> (base.delete a (mem w)))
                        (stderr w)).
    assert (forall L1 L2 : Lista,
      <[this := BLista L2]>
        (base.delete a (<[this := BLista L1]> (mem w))) =
      <[this := BLista L2]> (base.delete a (mem w))) as Hcollapse.
    { intros. apply map_eq. intros x.
      destruct (decide (x = this)) as [->|]; [by heap_lookup|].
      destruct (decide (x = a)) as [->|]; by heap_lookup. }
    unfold l'. destruct nx.
    + erewrite bind_Ok; [|reflexivity]. unfold ret.
      by rewrite Hcollapse.
    + erewrite bind_Ok; [|finish wr_tail_ok; reflexivity].
      cbn [mem stderr _head _tail _type _size _length]. unfold ret.
      by rewrite insert_insert_eq, Hcollapse.
  - cbn [mem]. split; [split|..]; cbn [_head _tail _type _length].
    + by rewrite lookup_insert_eq.
    + eapply lseg_agree; [|exact Hc]. intros b Hb.
      destruct (lseg_live _ _ _ _ _ Hc Hb) as [nb Hnb].
      erewrite Hother; [done|done|..].
      * intros ->. rewrite Hthis in Hnb. done.
      * intros ->. done.
    + cbn in He. apply Forall2_cons_1 in He as [_ He].
      eapply vals_agree; [|exact He]. intros c b Hcb Hb.
      apply Hother; [done|..]; intros ->; rewrite Hcb in *; by simplify_eq.
    + destruct ns as [|[b u] ns]; cbn in Hc.
      * by subst nx.
      * destruct Hc as [Hnx _]. unfold l'. rewrite Hnx. cbn [_tail].
        rewrite Htail. done.
    + unfold l'. cbn [_length]. rewrite Hlen. cbn [length]. lia.
    + cbn [length] in Hrange. lia.
  - cbn [mem]. cbn in He. apply Forall2_cons_1 in He as [He _].
    eapply val_elem_preserved; [|exact He]. intros c b Hcb Hb.
    apply Hother; [done|..]; intros ->; rewrite Hcb in *; by simplify_eq.
  - done.
  - done.
Qed.

Lemma pop_n_ok ns : forall es this l w,
  wf_list (mem w) this l ns es ->
  exists l' w',
    pop_n (Some this) (length ns) w = Ok (ns.*2) w' /\
    wf_list (mem w') this l' [] [] /\
    _type l' = _type l /\
    (forall c b, mem w !! c = Some b -> value_block b ->
                 mem w' !! c = Some b) /\
    stderr w' = stderr w.
Proof.
  induction ns as [|[a v] ns IH]; intros es this l w Hwf.
  - exists l, w. cbn. pose proof Hwf as [[_ _ He] _ _ _].
    cbn in He. apply Forall2_nil_inv_l in He as ->. done.
  - pose proof Hwf as [[Hthis Hc He] _ _ _]. cbn in He.
    apply Forall2_cons_inv_l in He as (e & es' & _ & _ & ->).
    destruct (pop_cons _ _ _ _ _ _ _ _ Hwf)
      as (l1 & w1 & Hrun & Hwf1 & Hty1 & Hv & Hm & Herr).
    destruct (IH _ _ _ _ Hwf1) as (l2 & w2 & Hrun2 & Hwf2 & Hty2 & Hfr & Herr2).
    exists l2, w2. cbn [length pop_n].
    rewrite (bind_Ok _ _ _ _ _ Hrun), (bind_Ok _ _ _ _ _ Hrun2).
    split; [done|]. split; [done|]. split; [congruence|].
    split; [|congruence]. intros c b Hcb Hb. apply Hfr; [|done].
    cbn in Hc. destruct Hc as [_ (nx & Ha & _)].
    rewrite Hm, lookup_insert_ne, lookup_delete_ne; [done|..];
      intros ->; rewrite Hcb in *; by simplify_eq.
Qed.

(** ** [push] then [pop] *)

Lemma wf_value_frame (m m' : heap) this l ns es :
  wf_list m this l ns es ->
  (forall x, is_Some (m !! x) -> x <> this -> Some x <> _tail l ->
             m' !! x = m !! x) ->
  forall c b, m !! c = Some b -> value_block b -> m' !! c = Some b.
Proof.
  intros [[Hthis Hc He] Htail Hlen _] Hfr c b Hcb Hb.
  rewrite Hfr; [done|eauto|..].
  - intros ->. rewrite Hthis in Hcb. by simplify_eq.
  - intros Heq. rewrite Htail in Heq. symmetry in Heq.
    apply last_Some_elem_of in Heq.
    destruct (lseg_live _ _ _ _ _ Hc Heq) as [n Hn].
    rewrite Hcb in Hn. by simplify_eq.
Qed.

Lemma push_all_ok args : forall es' this l ns es w,
  malloc_fresh P -> malloc_total P ->
  wf_list (mem w) this l ns es ->
  Forall2 (arg_elem (mem w) (_type l)) args es' ->
  Z.of_nat (length ns + length args) <= INT_MAX ->
  exists l' ns' w',
    push_all (Some this) args w = Ok tt w' /\
    wf_list (mem w') this l' (ns ++ ns') (es ++ es') /\
    _type l' = _type l /\
    length ns' = length args /\
    stderr w' = stderr w.
Proof.
  induction args as [|a args IH]; intros es' this l ns es w Hf Ht Hwf Ha Hmax.
  - apply Forall2_nil_inv_l in Ha as ->. exists l, [], w.
    rewrite !app_nil_r. done.
  - apply Forall2_cons_inv_l in Ha as (e & es1 & Ha & Has & ->).
    destruct (push_ok this l ns es a e w Hf Ht Hwf Ha)
      as (n & v & l1 & w1 & Hrun & Hwf1 & Hty1 & _ & _ & Hfr & _ & Herr1).
    { cbn [length] in Hmax. lia. }
    destruct (IH es1 this l1 (ns ++ [(n, v)]) (es ++ [e]) w1 Hf Ht Hwf1)
      as (l2 & ns2 & w2 & Hrun2 & Hwf2 & Hty2 & Hlen2 & Herr2).
    { rewrite Hty1. eapply args_agree; [|exact Has].
      by eapply wf_value_frame. }
    { rewrite length_app. cbn [length] in *. lia. }
    exists l2, ((n, v) :: ns2), w2. cbn [push_all].
    rewrite (bind_Ok _ _ _ _ _ Hrun).
    rewrite <- !app_assoc in Hwf2. cbn [app] in Hwf2.
    split; [done|]. split; [done|]. split; [congruence|].
    split; [cbn; lia|congruence].
Qed.

(** C5. After the arguments [args], which stand for the elements [es],
    have been pushed on an empty list, as many calls of [pop] return
    values that stand for [es], in this order; then [len] returns 0 and
    one more [pop] returns [NULL] and prints nothing. *)
Theorem push_pop_fifo this l args es w :
  malloc_fresh P -> malloc_total P ->
  wf_list (mem w) this l [] [] ->
  Forall2 (arg_elem (mem w) (_type l)) args es ->
  Z.of_nat (length args) <= INT_MAX ->
  exists w1 vals w2,
    push_all (Some this) args w = Ok tt w1 /\
    pop_n (Some this) (length args) w1 = Ok vals w2 /\
    Forall2 (val_elem (mem w2) (_type l)) vals es /\
    len (Some this) w2 = Ok 0 w2 /\
    pop (Some this) w2 = Ok NULL w2.
Proof.
  intros Hf Ht Hwf Ha Hmax.
  destruct (push_all_ok args es this l [] [] w Hf Ht Hwf Ha)
    as (l1 & ns & w1 & Hrun & Hwf1 & Hty1 & Hlen & Herr1).
  { cbn [length]. lia. }
  cbn [app] in Hwf1.
  destruct (pop_n_ok ns es this l1 w1 Hwf1)
    as (l2 & w2 & Hrun2 & Hwf2 & Hty2 & Hfr & Herr2).
  exists w1, (ns.*2), w2. rewrite <- Hlen.
  split; [done|]. split; [done|].
  destruct Hwf1 as [[_ _ He1] _ _ _].
  destruct Hwf2 as [[Hthis2 Hc2 _] _ Hlen2 _]. cbn in Hc2, Hlen2.
  split; [|split].
  - rewrite <- Hty1. eapply vals_agree; [exact Hfr|exact He1].
  - rewrite (len_ok _ _ _ Hthis2), Hlen2. done.
  - by apply (pop_empty _ l2).
Qed.

(** ** Walking to an index *)

Lemma get_loop_skip w index q pre : forall fuel p x,
  lseg (mem w) p pre q ->
  x + Z.of_nat (length pre) <= index ->
  (length pre <= fuel)%nat ->
  get_loop fuel p x index w =
  get_loop (fuel - length pre) q (x + Z.of_nat (length pre)) index w.
Proof.
  induction pre as [|[a v] pre IH]; intros fuel p x Hs Hx Hfuel.
  - cbn in *. subst. by rewrite Nat.sub_0_r, Z.add_0_r.
  - cbn in Hs. destruct Hs as [-> (nx & Ha & Hs)]. cbn [length] in *.
    destruct fuel as [|fuel]; [lia|]. cbn [get_loop].
    rewrite decide_False by lia. exec load_Node_ok.
    rewrite IH; [|done|lia|lia]. f_equal. lia.
Qed.

Lemma pick_loop_skip w this index q pre : forall fuel p x,
  lseg (mem w) p pre q ->
  x + Z.of_nat (length pre) <= index - 1 ->
  (length pre <= fuel)%nat ->
  pick_loop fuel this p x index w =
  pick_loop (fuel - length pre) this q (x + Z.of_nat (length pre)) index w.
Proof.
  induction pre as [|[a v] pre IH]; intros fuel p x Hs Hx Hfuel.
  - cbn in *. subst. by rewrite Nat.sub_0_r, Z.add_0_r.
  - cbn in Hs. destruct Hs as [-> (nx & Ha & Hs)]. cbn [length] in *.
    destruct fuel as [|fuel]; [lia|]. cbn [pick_loop].
    exec load_Node_ok. rewrite decide_False by lia.
    rewrite IH; [|done|lia|lia]. f_equal. lia.
Qed.

Lemma delete_loop_skip w this index q pre : forall fuel p x,
  lseg (mem w) p pre q ->
  x + Z.of_nat (length pre) <= index - 1 ->
  (length pre <= fuel)%nat ->
  delete_loop fuel this p x index w =
  delete_loop (fuel - length pre) this q (x + Z.of_nat (length pre)) index w.
Proof.
  induction pre as [|[a v] pre IH]; intros fuel p x Hs Hx Hfuel.
  - cbn in *. subst. by rewrite Nat.sub_0_r, Z.add_0_r.
  - cbn in Hs. destruct Hs as [-> (nx & Ha & Hs)]. cbn [length] in *.
    destruct fuel as [|fuel]; [lia|]. cbn [delete_loop].
    rewrite decide_False by lia. exec load_Node_ok.
    rewrite IH; [|done|lia|lia]. f_equal. lia.
Qed.

Lemma get_at this l pre a v nx w :
  mem w !! this = Some (BLista l) ->
  lseg (mem w) (_head l) pre (Some a) ->
  mem w !! a = Some (BNode (mkNode v nx)) ->
  get (Some this) (Z.of_nat (length pre)) w = Ok v w.
Proof.
  intros Hthis Hs Ha. unfold get. rewrite decide_False by lia.
  exec load_Lista_ok.
  rewrite (get_loop_skip w _ (Some a) pre); [|done|lia|lia].
  rewrite Nat2Z.id, Nat.sub_diag, Z.add_0_l. cbn [get_loop].
  rewrite decide_True by done. by exec load_Node_ok.
Qed.

(** ** Removing a node *)

Ltac heap_eq x :=
  apply map_eq; intros x;
  repeat (heap_lookup;
    match goal with
    | |- context [<[?k := _]> _ !! x] => destruct (decide (x = k)); [subst x|]
    | |- context [base.delete ?k _ !! x] =>
        destruct (decide (x = k)); [subst x|]
    end);
  heap_lookup; try done.

Lemma pick_mid this l pre b vb a v nx w :
  mem w !! this = Some (BLista l) ->
  lseg (mem w) (_head l) pre (Some b) ->
  mem w !! b = Some (BNode (mkNode vb (Some a))) ->
  mem w !! a = Some (BNode (mkNode v nx)) ->
  a <> b ->
  INT_MIN < _length l <= INT_MAX ->
  pick (Some this) (Z.of_nat (S (length pre))) w =
  Ok v (mkWorld
          (<[this := BLista (unlinked l a (Some b))]>
             (base.delete a (<[b := BNode (mkNode vb nx)]> (mem w))))
          (stderr w)).
Proof.
  intros Hthis Hs Hb Ha Hab Hrange.
  assert (a <> this) by (intros ->; rewrite Hthis in Ha; done).
  assert (b <> this) by (intros ->; rewrite Hthis in Hb; done).
  unfold pick. rewrite decide_False by lia. rewrite decide_False by lia.
  exec load_Lista_ok.
  rewrite (pick_loop_skip w _ _ (Some b) pre); [|done|lia|lia].
  rewrite Nat2Z.id. replace (S (length pre) - length pre)%nat with 1%nat by lia.
  cbn [pick_loop]. exec load_Node_ok.
  rewrite decide_True by (split; [lia|done]).
  exec load_Node_ok. exec wr_nextNode_ok. exec load_Lista_ok.
  unfold unlinked.
  assert (Some a = _tail l \/ Some a <> _tail l) as [Heq|Hne]
    by (destruct (decide (Some a = _tail l)); auto).
  - rewrite !decide_True by done.
    exec wr_tail_ok. exec load_Node_ok. exec free_ok.
    erewrite bind_Ok;
      [|eapply length_decr_ok; [lookup|cbn; unfold INT_MIN, INT_MAX in *; lia]].
    cbn [mem stderr _head _tail _type _size _length]. unfold ret.
    do 2 f_equal. heap_eq x.
  - rewrite !decide_False by done.
    erewrite bind_Ok; [|reflexivity].
    exec load_Node_ok. exec free_ok.
    erewrite bind_Ok;
      [|eapply length_decr_ok; [lookup|cbn; unfold INT_MIN, INT_MAX in *; lia]].
    cbn [mem stderr _head _tail _type _size _length]. unfold ret.
    done.
Qed.

Lemma delete_mid this l pre b vb a v nx w :
  mem w !! this = Some (BLista l) ->
  lseg (mem w) (_head l) pre (Some b) ->
  mem w !! b = Some (BNode (mkNode vb (Some a))) ->
  mem w !! a = Some (BNode (mkNode v nx)) ->
  a <> b ->
  INT_MIN < _length l <= INT_MAX ->
  (_type l <> T ->
   exists c blk, v = Some c /\ mem w !! c = Some blk /\ value_block blk) ->
  delete (Some this) (Z.of_nat (S (length pre))) w =
  Ok tt (release (_type l) v
           (mkWorld
              (<[this := BLista (unlinked l a (Some b))]>
                 (base.delete a (<[b := BNode (mkNode vb nx)]> (mem w))))
              (stderr w))).
Proof.
  intros Hthis Hs Hb Ha Hab Hrange Hv.
  assert (a <> this) by (intros ->; rewrite Hthis in Ha; done).
  assert (b <> this) by (intros ->; rewrite Hthis in Hb; done).
  unfold delete. rewrite decide_False by lia. rewrite decide_False by lia.
  exec load_Lista_ok.
  rewrite (delete_loop_skip w _ _ (Some b) pre); [|done|lia|lia].
  rewrite Nat2Z.id. replace (S (length pre) - length pre)%nat with 1%nat by lia.
  cbn [delete_loop]. rewrite decide_True by (split; lia).
  exec load_Node_ok. exec load_Node_ok. exec wr_nextNode_ok.
  exec load_Lista_ok. unfold unlinked, release, free_val.
  assert (Some a = _tail l \/ Some a <> _tail l) as [Heq|Hne]
    by (destruct (decide (Some a = _tail l)); auto);
  [rewrite !decide_True by done; exec wr_tail_ok
  |rewrite !decide_False by done; (erewrite bind_Ok; [|reflexivity])].
  all: destruct (decide (_type l = T)) as [HT|HT].
  all: try (destruct (Hv HT) as (c & blk & -> & Hc & Hblk);
            assert (c <> this) by (intros ->; rewrite Hthis in Hc; by simplify_eq);
            assert (c <> a) by (intros ->; rewrite Ha in Hc; by simplify_eq);
            assert (c <> b) by (intros ->; rewrite Hb in Hc; by simplify_eq)).
  all: erewrite bind_Ok;
    [|exec load_Lista_ok;
      first [ rewrite decide_False by (intros ?; done); reflexivity
            | rewrite decide_True by done; exec load_Node_ok;
              finish free_ok; reflexivity ]].
  all: exec free_ok.
  all: erewrite length_decr_ok;
    [|lookup|cbn; unfold INT_MIN, INT_MAX in *; lia].
  all: cbn [mem stderr _head _tail _type _size _length].
  all: do 2 f_equal; try done; heap_eq x.
  all: first [ by rewrite decide_True by done
             | by rewrite decide_False by done ].
Qed.

Lemma pop_run this l a v nx w :
  mem w !! this = Some (BLista l) ->
  _head l = Some a ->
  mem w !! a = Some (BNode (mkNode v nx)) ->
  INT_MIN < _length l <= INT_MAX ->
  pop (Some this) w =
  Ok v (mkWorld (<[this := BLista (beheaded l nx)]> (base.delete a (mem w)))
          (stderr w)).
Proof.
  intros Hthis Hh Ha Hrange.
  assert (a <> this) by (intros ->; rewrite Hthis in Ha; done).
  unfold pop. exec load_Lista_ok. rewrite Hh. exec load_Node_ok.
  exec wr_head_ok. exec free_ok.
  erewrite bind_Ok;
    [|eapply length_decr_ok; [lookup|cbn; unfold INT_MIN, INT_MAX in *; lia]].
  cbn [mem stderr _head _tail _type _size _length].
  exec load_Lista_ok. unfold beheaded. destruct nx.
  - erewrite bind_Ok; [|reflexivity]. unfold ret. do 2 f_equal. heap_eq x.
  - exec wr_tail_ok. unfold ret. do 2 f_equal. heap_eq x.
Qed.

Lemma delete_head this l a v nx w :
  mem w !! this = Some (BLista l) ->
  _head l = Some a ->
  mem w !! a = Some (BNode (mkNode v nx)) ->
  INT_MIN < _length l <= INT_MAX ->
  (_type l <> T ->
   exists c blk, v = Some c /\ mem w !! c = Some blk /\ value_block blk) ->
  delete (Some this) 0 w =
  Ok tt (release (_type l) v
           (mkWorld (<[this := BLista (beheaded l nx)]> (base.delete a (mem w)))
              (stderr w))).
Proof.
  intros Hthis Hh Ha Hrange Hv.
  assert (a <> this) by (intros ->; rewrite Hthis in Ha; done).
  unfold delete. rewrite decide_False by lia. rewrite decide_True by lia.
  exec load_Lista_ok. rewrite Hh. exec load_Node_ok. exec wr_head_ok.
  exec load_Lista_ok. unfold beheaded, release, free_val.
  destruct nx as [nx|];
    [erewrite bind_Ok; [|reflexivity]|exec wr_tail_ok].
  all: destruct (decide (_type l = T)) as [HT|HT].
  all: try (destruct (Hv HT) as (c & blk & -> & Hc & Hblk);
            assert (c <> this) by (intros ->; rewrite Hthis in Hc; by simplify_eq);
            assert (c <> a) by (intros ->; rewrite Ha in Hc; by simplify_eq)).
  all: erewrite bind_Ok;
    [|exec load_Lista_ok;
      first [ rewrite decide_False by (intros ?; done); reflexivity
            | rewrite decide_True by done; exec load_Node_ok;
              finish free_ok; reflexivity ]].
  all: exec free_ok.
  all: erewrite length_decr_ok;
    [|lookup|cbn; unfold INT_MIN, INT_MAX in *; lia].
  all: cbn [mem stderr _head _tail _type _size _length].
  all: do 2 f_equal; try done; heap_eq x.
Qed.

(** ** [pick], [get] and [remove] *)

Lemma is_list_parts (m : heap) this l pre a v post epre e epost :
  is_list m this l (pre ++ (a, v) :: post) (epre ++ e :: epost) ->
  length epre = length pre ->
  exists nx,
    lseg m (_head l) pre (Some a) /\
    m !! a = Some (BNode (mkNode v nx)) /\
    lseg m nx post NULL /\
    Forall2 (val_elem m (_type l)) (pre.*2) epre /\
    val_elem m (_type l) v e /\
    Forall2 (val_elem m (_type l)) (post.*2) epost /\
    (a ∉ pre.*1) /\ (a ∉ post.*1) /\
    NoDup (pre.*1) /\ (forall x, x ∈ pre.*1 -> x ∉ post.*1).
Proof.
  intros [Hthis Hc He] Hlen.
  pose proof (lseg_NoDup _ _ _ Hc) as Hnd.
  apply lseg_split in Hc as (q & Hpre & Hpost). cbn in Hpost.
  destruct Hpost as [-> (nx & Ha & Hpost)]. exists nx.
  rewrite fmap_app in He. cbn in He.
  apply Forall2_app_inv in He as [He1 He2];
    [|by rewrite length_fmap].
  apply Forall2_cons_1 in He2 as [He2 He3].
  rewrite fmap_app in Hnd. cbn in Hnd.
  apply NoDup_app in Hnd as (Hnd1 & Hdis & Hnd2).
  apply NoDup_cons in Hnd2 as [Hnotin Hnd2].
  repeat split; try done.
  - intros Hin. eapply Hdis; [exact Hin|]. left.
  - intros x Hx Hx'. eapply Hdis; [exact Hx|]. by right.
Qed.

Lemma value_of_elem (m : heap) type v e :
  val_elem m type v e -> type <> T ->
  exists c blk, v = Some c /\ m !! c = Some blk /\ value_block blk.
Proof.
  unfold val_elem. destruct type; try done;
    intros (c & b & -> & Hc & Hb) _; exists c, b;
    (split; [done|]); (split; [done|]); by eapply block_of_value.
Qed.

(** C4. At an index [i] that holds a node, [pick] returns the pointer
    that [get] returns, and [remove] leaves the store that [pick] leaves
    except that it has released the storage of the value, which after
    [pick] is still live and stands for the element: the list structure
    and the chain of nodes are the same after both, with the node at [i]
    unlinked. And [pick] at index 0 is [pop], on every store. *)
Theorem pick_get_remove this l pre a v post epre e epost w :
  is_list (mem w) this l (pre ++ (a, v) :: post) (epre ++ e :: epost) ->
  length epre = length pre ->
  INT_MIN < _length l <= INT_MAX ->
  exists l' w1,
    get (Some this) (Z.of_nat (length pre)) w = Ok v w /\
    pick (Some this) (Z.of_nat (length pre)) w = Ok v w1 /\
    delete (Some this) (Z.of_nat (length pre)) w =
      Ok tt (release (_type l) v w1) /\
    is_list (mem w1) this l' (pre ++ post) (epre ++ epost) /\
    val_elem (mem w1) (_type l) v e /\
    mem (release (_type l) v w1) !! this = Some (BLista l') /\
    lseg (mem (release (_type l) v w1)) (_head l') (pre ++ post) NULL /\
    _type l' = _type l /\
    _length l' = _length l - 1 /\
    stderr w1 = stderr w /\
    (wf_list (mem w) this l (pre ++ (a, v) :: post) (epre ++ e :: epost) ->
     wf_list (mem w1) this l' (pre ++ post) (epre ++ epost)) /\
    (forall w', pick (Some this) 0 w' = pop (Some this) w').
Proof.
  intros Hl Hlen Hrange. pose proof Hl as [Hthis Hc _].
  destruct (is_list_parts _ _ _ _ _ _ _ _ _ _ Hl Hlen)
    as (nx & Hpre & Ha & Hpost & He1 & He2 & He3 & Hna1 & Hna2 & Hnd & Hdis).
  assert (a <> this) as Hat by (intros ->; rewrite Hthis in Ha; done).
  assert (forall x, x ∈ pre.*1 \/ x ∈ post.*1 ->
            x <> this /\ x <> a /\ exists n, mem w !! x = Some (BNode n))
    as Hnodes.
  { intros x Hx. assert (x ∈ (pre ++ (a, v) :: post).*1) as Hin.
    { rewrite fmap_app. cbn. apply elem_of_app.
      destruct Hx; [by left|right; by right]. }
    destruct (lseg_live _ _ _ _ _ Hc Hin) as [n Hn].
    split; [intros ->; rewrite Hthis in Hn; done|].
    split; [|eauto]. intros ->. destruct Hx; done. }
  assert (forall c blk, mem w !! c = Some blk -> value_block blk ->
            c <> this /\ c <> a) as Hvals.
  { intros c blk Hcb Hb.
    split; intros ->; rewrite Hcb in *; by simplify_eq. }
  assert (_type l <> T ->
          exists c blk, v = Some c /\ mem w !! c = Some blk /\ value_block blk)
    as Hv by (intros; by eapply value_of_elem).
  destruct pre as [|[b vb] pre0 _] using rev_ind.
  - (* the first node *)
    cbn in Hpre. cbn [length app] in *.
    apply Forall2_nil_inv_l in He1 as ->. cbn [app].
    set (m1 := <[this := BLista (beheaded l nx)]> (base.delete a (mem w))).
    assert (forall x blk, mem w !! x = Some blk -> x <> this -> x <> a ->
              m1 !! x = Some blk) as Hother.
    { intros x blk Hx ? ?. unfold m1.
      by rewrite lookup_insert_ne, lookup_delete_ne. }
    assert (lseg m1 nx post NULL) as Hpost1.
    { eapply lseg_agree; [|exact Hpost]. intros x Hx.
      destruct (Hnodes x (or_intror Hx)) as (? & ? & n & Hn).
      rewrite Hn. by eapply Hother. }
    assert (forall c blk, mem w !! c = Some blk -> value_block blk ->
              m1 !! c = Some blk) as Hkeep.
    { intros c blk Hcb Hb. destruct (Hvals _ _ Hcb Hb).
      by eapply Hother. }
    exists (beheaded l nx), (mkWorld m1 (stderr w)).
    split; [by eapply (get_at this l [] a v nx)|].
    split; [unfold pick; rewrite decide_False by lia;
            rewrite decide_True by lia; by eapply pop_run|].
    split; [by eapply delete_head|].
    assert (is_list m1 this (beheaded l nx) post epost) as Hl1.
    { split; cbn [_head _type beheaded].
      - unfold m1. by rewrite lookup_insert_eq.
      - done.
      - by eapply vals_agree. }
    split; [done|]. split; [by eapply val_elem_preserved|].
    assert (forall x,
      (forall c, v = Some c -> _type l <> T -> x <> c) ->
      mem (release (_type l) v (mkWorld m1 (stderr w))) !! x = m1 !! x)
      as Hrel.
    { intros x Hxc. unfold release. destruct (decide (_type l = T)); [done|].
      destruct v as [c|]; [|done]. cbn.
      rewrite lookup_delete_ne; [done|]. intros ->. by eapply Hxc. }
    split; [|split; [|split; [done|split; [cbn; lia|split; [done|split]]]]].
    + rewrite Hrel; [unfold m1; by rewrite lookup_insert_eq|].
      intros c -> HT ->. destruct (Hv HT) as (c' & blk & [= <-] & Hcb & Hb).
      rewrite Hthis in Hcb. by simplify_eq.
    + cbn [_head beheaded]. eapply lseg_agree; [|exact Hpost1].
      intros x Hx. destruct (Hnodes x (or_intror Hx)) as (? & ? & n & Hn).
      apply Hrel. intros c -> HT ->.
      destruct (Hv HT) as (c' & blk & [= <-] & Hcb & Hb).
      rewrite Hn in Hcb. by simplify_eq.
    + intros [_ Htail Hlength Hrg]. split; [done|..].
      * cbn [_tail beheaded]. cbn in Htail.
        destruct post as [|[b u] post]; cbn in Hpost.
        -- by subst nx.
        -- destruct Hpost as [-> _]. by rewrite Htail.
      * cbn [_length beheaded]. rewrite Hlength. cbn [length]. lia.
      * cbn [length] in Hrg. lia.
    + intros w'. unfold pick. rewrite decide_False by lia.
      by rewrite decide_True by lia.
  - (* a node with a predecessor *)
    clear Hnd. apply lseg_snoc in Hpre as [Hpre Hb].
    assert (a <> b) as Hab.
    { intros ->. apply Hna1. rewrite fmap_app. apply elem_of_app. right.
      cbn. left. }
    assert (b <> this) as Hbt by (intros ->; rewrite Hthis in Hb; done).
    assert (b ∉ pre0.*1) as Hb1.
    { pose proof (lseg_NoDup _ _ _ Hc) as Hnd.
      rewrite !fmap_app in Hnd. cbn in Hnd.
      apply NoDup_app in Hnd as (Hnd & _ & _).
      apply NoDup_app in Hnd as (_ & Hd & _).
      intros Hin. eapply Hd; [exact Hin|]. left. }
    assert (b ∉ post.*1) as Hb2.
    { apply Hdis. rewrite fmap_app. apply elem_of_app. right. cbn. left. }
    rewrite length_app. cbn [length].
    replace (length pre0 + 1)%nat with (S (length pre0)) by lia.
    set (m1 := <[this := BLista (unlinked l a (Some b))]>
                 (base.delete a (<[b := BNode (mkNode vb nx)]> (mem w)))).
    assert (forall x blk, mem w !! x = Some blk -> x <> this -> x <> a ->
              x <> b -> m1 !! x = Some blk) as Hother.
    { intros x blk Hx ? ? ?. unfold m1.
      by rewrite lookup_insert_ne, lookup_delete_ne, lookup_insert_ne. }
    assert (m1 !! b = Some (BNode (mkNode vb nx))) as Hb'.
    { unfold m1.
      by rewrite lookup_insert_ne, lookup_delete_ne, lookup_insert_eq. }
    assert (lseg m1 (_head l) (pre0 ++ (b, vb) :: post) NULL) as Hchain1.
    { eapply lseg_app; [|cbn; split; [done|]; exists nx; split; [done|]].
      - eapply lseg_agree; [|exact Hpre]. intros x Hx.
        destruct (Hnodes x) as (? & ? & n & Hn).
        { left. rewrite fmap_app. apply elem_of_app. by left. }
        rewrite Hn. eapply Hother; [done..|]. intros ->. done.
      - eapply lseg_agree; [|exact Hpost]. intros x Hx.
        destruct (Hnodes x (or_intror Hx)) as (? & ? & n & Hn).
        rewrite Hn. eapply Hother; [done..|]. intros ->. done. }
    assert (forall c blk, mem w !! c = Some blk -> value_block blk ->
              m1 !! c = Some blk) as Hkeep.
    { intros c blk Hcb Hbk. destruct (Hvals _ _ Hcb Hbk).
      eapply Hother; [done..|]. intros ->. rewrite Hb in Hcb. by simplify_eq. }
    exists (unlinked l a (Some b)), (mkWorld m1 (stderr w)).
    split.
    { pose proof (get_at this l (pre0 ++ [(b, vb)]) a v nx w Hthis) as Hg.
      rewrite length_app in Hg. cbn [length] in Hg.
      replace (length pre0 + 1)%nat with (S (length pre0)) in Hg by lia.
      apply Hg; [|done]. apply lseg_snoc. done. }
    split; [by eapply pick_mid|].
    split; [by eapply delete_mid|].
    rewrite <- !app_assoc. cbn [app].
    assert (is_list m1 this (unlinked l a (Some b)) (pre0 ++ (b, vb) :: post)
              (epre ++ epost)) as Hl1.
    { split; cbn [_head _type unlinked].
      - unfold m1. by rewrite lookup_insert_eq.
      - done.
      - replace (pre0 ++ (b, vb) :: post) with ((pre0 ++ [(b, vb)]) ++ post)
          by (by rewrite <- app_assoc).
        rewrite fmap_app. apply Forall2_app; by eapply vals_agree. }
    split; [done|]. split; [by eapply val_elem_preserved|].
    assert (forall x,
      (forall c, v = Some c -> _type l <> T -> x <> c) ->
      mem (release (_type l) v (mkWorld m1 (stderr w))) !! x = m1 !! x)
      as Hrel.
    { intros x Hxc. unfold release. destruct (decide (_type l = T)); [done|].
      destruct v as [c|]; [|done]. cbn.
      rewrite lookup_delete_ne; [done|]. intros ->. by eapply Hxc. }
    assert (forall x, x ∈ (pre0 ++ (b, vb) :: post).*1 ->
              exists n, mem w !! x = Some (BNode n)) as Hlive.
    { intros x Hx. rewrite fmap_app in Hx. cbn in Hx.
      apply elem_of_app in Hx as [Hx|Hx].
      - destruct (Hnodes x) as (_ & _ & Hn); [|done].
        left. rewrite fmap_app. apply elem_of_app. by left.
      - apply elem_of_cons in Hx as [->|Hx]; [eauto|].
        by destruct (Hnodes x (or_intror Hx)) as (_ & _ & Hn). }
    split; [|split; [|split; [done|split; [cbn; lia|split; [done|split]]]]].
    + rewrite Hrel; [unfold m1; by rewrite lookup_insert_eq|].
      intros c -> HT ->. destruct (Hv HT) as (c' & blk & [= <-] & Hcb & Hbk).
      rewrite Hthis in Hcb. by simplify_eq.
    + cbn [_head unlinked]. eapply lseg_agree; [|exact Hchain1].
      intros x Hx. destruct (Hlive x Hx) as [n Hn].
      apply Hrel. intros c -> HT ->.
      destruct (Hv HT) as (c' & blk & [= <-] & Hcb & Hbk).
      rewrite Hn in Hcb. by simplify_eq.
    + intros [_ Htail Hlength Hrg]. split; [done|..].
      * cbn [_tail unlinked].
        destruct post as [|[t u] post0 _] using rev_ind.
        -- replace (pre0 ++ [(b, vb); (a, v)])
             with ((pre0 ++ [(b, vb)]) ++ [(a, v)]) in Htail
             by (by rewrite <- app_assoc).
           rewrite last_fst_snoc in Htail.
           rewrite decide_True by done. by rewrite last_fst_snoc.
        -- replace (pre0 ++ (b, vb) :: (a, v) :: post0 ++ [(t, u)])
             with ((pre0 ++ (b, vb) :: (a, v) :: post0) ++ [(t, u)]) in Htail
             by (by rewrite <- app_assoc).
           rewrite last_fst_snoc in Htail.
           replace (pre0 ++ (b, vb) :: post0 ++ [(t, u)])
             with ((pre0 ++ (b, vb) :: post0) ++ [(t, u)])
             by (by rewrite <- app_assoc).
           rewrite last_fst_snoc.
           rewrite decide_False; [done|]. rewrite Htail. intros [= ->].
           apply Hna2. rewrite fmap_app. apply elem_of_app. right.
           cbn. left.
      * cbn [_length unlinked]. rewrite Hlength.
        rewrite ?length_app. cbn [length]. rewrite ?length_app.
        cbn [length]. lia.
      * rewrite ?length_app in *. cbn [length] in *.
        rewrite ?length_app in *. cbn [length] in *. lia.
    + intros w'. unfold pick. rewrite decide_False by lia.
      by rewrite decide_True by lia.
Qed.

(** ** [set] *)

Lemma set_loop_skip w this index arg q pre : forall fuel p x,
  lseg (mem w) p pre q ->
  x + Z.of_nat (length pre) <= index ->
  (length pre <= fuel)%nat ->
  set_loop fuel this p x index arg w =
  set_loop (fuel - length pre) this q (x + Z.of_nat (length pre)) index arg w.
Proof.
  induction pre as [|[a v] pre IH]; intros fuel p x Hs Hx Hfuel.
  - cbn in *. subst. by rewrite Nat.sub_0_r, Z.add_0_r.
  - cbn in Hs. destruct Hs as [-> (nx & Ha & Hs)]. cbn [length] in *.
    destruct fuel as [|fuel]; [lia|]. cbn [set_loop].
    rewrite decide_False by lia. exec load_Node_ok.
    rewrite IH; [|done|lia|lia]. f_equal. lia.
Qed.

Lemma set_at_ok this l a v nx arg e' w :
  malloc_fresh P -> malloc_total P ->
  mem w !! this = Some (BLista l) ->
  mem w !! a = Some (BNode (mkNode v nx)) ->
  (_type l <> T ->
   exists c blk, v = Some c /\ mem w !! c = Some blk /\ value_block blk) ->
  arg_elem (mem w) (_type l) arg e' ->
  (_type l = STRING -> arg <> APtr v) ->
  exists v' w',
    set_at (Some this) (Some a) arg w = Ok tt w' /\
    mem w' !! a = Some (BNode (mkNode v' nx)) /\
    val_elem (mem w') (_type l) v' e' /\
    (forall x, is_Some (mem w !! x) -> x <> a ->
               (_type l <> T -> Some x <> v) -> mem w' !! x = mem w !! x) /\
    stderr w' = stderr w.
Proof.
  intros Hf Ht Hthis Ha Hv Harg Hne.
  unfold set_at. exec load_Lista_ok. unfold arg_elem, val_elem in *.
  destruct (_type l) eqn:Hty.
  - destruct Harg as (p & -> & ->). exists p. eexists.
    split; [finish wr_val_ok; reflexivity|]. cbn.
    split; [by rewrite lookup_insert_eq|]. split; [done|]. split; [|done].
    intros x _ Hx _. by rewrite lookup_insert_ne.
  - destruct Harg as (z & -> & ->).
    destruct Hv as (c & blk & -> & Hc & Hblk); [done|].
    assert (a <> c) by (intros ->; rewrite Ha in Hc; by simplify_eq).
    exists (Some c). eexists.
    split; [exec load_Node_ok; finish store_ok; reflexivity|]. cbn.
    split; [by rewrite lookup_insert_ne|].
    split; [exists c, (BInt z); by rewrite lookup_insert_eq|]. split; [|done].
    intros x _ _ Hx. rewrite lookup_insert_ne; [done|]. intros ->. by apply Hx.
  - destruct Harg as (s & str & -> & Hs & ->).
    destruct Hv as (c & blk & -> & Hc & Hblk); [done|].
    assert (a <> c) by (intros ->; rewrite Ha in Hc; by simplify_eq).
    assert (s <> c) by (intros ->; by apply Hne).
    destruct (malloc_ok BRaw (mkWorld (base.delete c (mem w)) (stderr w)) Hf Ht)
      as (c' & Hc' & Hm).
    cbn [mem stderr] in Hc', Hm.
    assert (c' <> a).
    { intros ->. rewrite lookup_delete_ne in Hc' by done. by rewrite Ha in Hc'. }
    assert (c' <> s).
    { intros ->. rewrite lookup_delete_ne in Hc' by done. by rewrite Hs in Hc'. }
    exists (Some c'). eexists.
    split.
    { exec load_Node_ok. exec free_ok. exec load_ok.
      rewrite (bind_Ok _ _ _ _ _ Hm). exec wr_val_ok.
      finish store_ok. reflexivity. }
    cbn. split; [by heap_lookup|].
    split; [exists c', (BStr str); by heap_lookup|]. split; [|done].
    intros x [bx Hx] Hxa Hxc.
    assert (x <> c) by (intros ->; by apply Hxc).
    assert (x <> c').
    { intros ->. rewrite lookup_delete_ne in Hc' by done. by rewrite Hx in Hc'. }
    by heap_lookup.
  - destruct Harg as (d & -> & ->).
    destruct Hv as (c & blk & -> & Hc & Hblk); [done|].
    assert (a <> c) by (intros ->; rewrite Ha in Hc; by simplify_eq).
    exists (Some c). eexists.
    split; [exec load_Node_ok; finish store_ok; reflexivity|]. cbn.
    split; [by rewrite lookup_insert_ne|].
    split; [eexists c, _; by rewrite lookup_insert_eq|]. split; [|done].
    intros x _ _ Hx. rewrite lookup_insert_ne; [done|]. intros ->. by apply Hx.
  - destruct Harg as (d & -> & ->).
    destruct Hv as (c & blk & -> & Hc & Hblk); [done|].
    assert (a <> c) by (intros ->; rewrite Ha in Hc; by simplify_eq).
    exists (Some c). eexists.
    split; [exec load_Node_ok; finish store_ok; reflexivity|]. cbn.
    split; [by rewrite lookup_insert_ne|].
    split; [eexists c, _; by rewrite lookup_insert_eq|]. split; [|done].
    intros x _ _ Hx. rewrite lookup_insert_ne; [done|]. intros ->. by apply Hx.
Qed.

(** [set] at an index that holds a node: the node now holds a value that
    stands for the new element, and nothing else of what was live changes
    but the storage of the old value. *)
Lemma set_ok this l pre a v post epre e epost arg e' w :
  malloc_fresh P -> malloc_total P ->
  is_list (mem w) this l (pre ++ (a, v) :: post) (epre ++ e :: epost) ->
  length epre = length pre ->
  arg_elem (mem w) (_type l) arg e' ->
  (_type l = STRING -> arg <> APtr v) ->
  exists v' w',
    set (Some this) (Z.of_nat (length pre)) arg w = Ok tt w' /\
    get (Some this) (Z.of_nat (length pre)) w' = Ok v' w' /\
    val_elem (mem w') (_type l) v' e' /\
    (forall x, is_Some (mem w !! x) -> x <> a ->
               (_type l <> T -> Some x <> v) -> mem w' !! x = mem w !! x) /\
    stderr w' = stderr w.
Proof.
  intros Hf Ht Hl Hlen Harg Hne. pose proof Hl as [Hthis Hc _].
  destruct (is_list_parts _ _ _ _ _ _ _ _ _ _ Hl Hlen)
    as (nx & Hpre & Ha & Hpost & He1 & He2 & He3 & Hna1 & Hna2 & Hnd & Hdis).
  assert (_type l <> T ->
          exists c blk, v = Some c /\ mem w !! c = Some blk /\ value_block blk)
    as Hv by (intros; by eapply value_of_elem).
  destruct (set_at_ok this l a v nx arg e' w Hf Ht Hthis Ha Hv Harg Hne)
    as (v' & w' & Hrun & Ha' & Hv' & Hfr & Herr).
  exists v', w'. split; [|split; [|done]].
  - unfold set. rewrite decide_False by lia. exec load_Lista_ok.
    rewrite (set_loop_skip w _ _ _ (Some a) pre); [|done|lia|lia].
    rewrite Nat2Z.id, Nat.sub_diag, Z.add_0_l. cbn [set_loop].
    by rewrite decide_True by done.
  - assert (forall x n, mem w !! x = Some (BNode n) -> x <> a ->
              mem w' !! x = Some (BNode n)) as Hnode.
    { intros x n Hx Hxa. rewrite Hfr; [done|eauto|done|].
      intros HT <-. destruct (Hv HT) as (c & blk & [= ->] & Hcb & Hb).
      rewrite Hx in Hcb. by simplify_eq. }
    eapply (get_at this l pre a v' nx).
    + rewrite Hfr; [done|eauto|..].
      * intros ->. rewrite Hthis in Ha. done.
      * intros HT <-. destruct (Hv HT) as (c & blk & [= ->] & Hcb & Hb).
        rewrite Hthis in Hcb. by simplify_eq.
    + eapply lseg_agree; [|exact Hpre]. intros x Hx.
      destruct (lseg_live _ _ _ _ _ Hpre Hx) as [n Hn].
      rewrite Hn. apply Hnode; [done|]. intros ->. done.
    + done.
Qed.

(** ** [duplicate] *)

Lemma elem_of_footprint this l ns x :
  x ∈ footprint this l ns <->
  x = this \/ x ∈ ns.*1 \/ (_type l <> T /\ Some x ∈ ns.*2).
Proof.
  unfold footprint. rewrite elem_of_cons, elem_of_app.
  assert (x ∈ match _type l with T => [] | _ => omap id (ns.*2) end <->
          _type l <> T /\ Some x ∈ ns.*2) as ->; [|tauto].
  destruct (_type l).
  - split; [by intros ?%elem_of_nil|by intros [? _]].
  - rewrite list_elem_of_omap. split.
    + intros (o & Ho & Heq). cbn in Heq. subst o. done.
    + intros [_ H]. by exists (Some x).
  - rewrite list_elem_of_omap. split.
    + intros (o & Ho & Heq). cbn in Heq. subst o. done.
    + intros [_ H]. by exists (Some x).
  - rewrite list_elem_of_omap. split.
    + intros (o & Ho & Heq). cbn in Heq. subst o. done.
    + intros [_ H]. by exists (Some x).
  - rewrite list_elem_of_omap. split.
    + intros (o & Ho & Heq). cbn in Heq. subst o. done.
    + intros [_ H]. by exists (Some x).
Qed.

Lemma footprint_blocks (m : heap) this l ns es x :
  is_list m this l ns es -> x ∈ footprint this l ns ->
  exists b, m !! x = Some b /\
    ((exists l', b = BLista l') \/ (exists n, b = BNode n) \/ value_block b).
Proof.
  intros [Hthis Hc He] Hx. apply elem_of_footprint in Hx as [->|[Hx|[HT Hx]]].
  - eauto.
  - destruct (lseg_live _ _ _ _ _ Hc Hx) as [n Hn]. eauto 6.
  - revert He. generalize (ns.*2) es Hx. clear -HT.
    intros vs es Hx He. induction He as [|v e vs es Hve He IH].
    + by apply elem_of_nil in Hx.
    + apply elem_of_cons in Hx as [<-|Hx]; [|by apply IH].
      destruct (value_of_elem _ _ _ _ Hve HT) as (c & b & [= <-] & Hc & Hb).
      eauto 6.
Qed.

Lemma wf_list_agree (m m' : heap) this l ns es :
  (forall a, a ∈ footprint this l ns -> m' !! a = m !! a) ->
  wf_list m this l ns es -> wf_list m' this l ns es.
Proof. intros Hag [Hl ? ? ?]. split; [by eapply is_list_agree|done..]. Qed.

Lemma Forall2_snoc_inv {A B} (R : A -> B -> Prop) l k x y :
  Forall2 R (l ++ [x]) (k ++ [y]) -> Forall2 R l k /\ R x y.
Proof.
  intros H. pose proof (Forall2_length _ _ _ H) as Hlen.
  rewrite !length_app in Hlen. cbn in Hlen.
  apply Forall2_app_inv in H as [H1 H2]; [|lia].
  by apply Forall2_cons_1 in H2 as [H2 _].
Qed.

Lemma newList_ok type w :
  malloc_fresh P -> malloc_total P ->
  exists d, mem w !! d = None /\
    newList type w =
    Ok (Some d)
       (mkWorld (<[d := BLista (mkLista NULL NULL type (sizeof_ type) 0)]> (mem w))
          (stderr w)).
Proof.
  intros Hf Ht. destruct (malloc_ok BRaw w Hf Ht) as (d & Hd & Hm).
  exists d. split; [done|]. unfold newList. rewrite (bind_Ok _ _ _ _ _ Hm).
  exec store_ok. unfold ret. by rewrite insert_insert_eq.
Qed.

Lemma duplicate_step_ok this l d it lst a v nx idx e w :
  float_exact P ->
  mem w !! this = Some (BLista l) ->
  mem w !! it = Some (BIter (mkTIterator lst (Some a) idx)) ->
  mem w !! a = Some (BNode (mkNode v nx)) ->
  val_elem (mem w) (_type l) v e ->
  0 <= idx -> idx + 1 <= INT_MAX ->
  exists arg,
    arg_elem (mem w) (_type l) arg e /\
    duplicate_step (Some this) d (Some it) w =
    push d arg (mkWorld (<[it := BIter (mkTIterator lst nx (idx + 1))]> (mem w))
                  (stderr w)).
Proof.
  intros Hfx Hthis Hit Ha Hv H0 Hmax.
  assert (this <> it) by (intros ->; rewrite Hthis in Hit; done).
  pose proof (next_node it _ a _ w Hit eq_refl Ha Hmax H0) as Hnext.
  cbn [_val _nextNode _list _index] in Hnext.
  unfold duplicate_step. rewrite (bind_Ok _ _ _ _ _ Hnext).
  exec load_Lista_ok. unfold val_elem, arg_elem in *.
  destruct (_type l) eqn:Hty.
  - subst e. exists (APtr v). split; [eauto|done].
  - destruct Hv as (c & b & -> & Hc & Hb). destruct e; try done.
    cbn in Hb. injection Hb as <-.
    assert (c <> it) by (intros ->; rewrite Hc in Hit; done).
    exists (AInt z). split; [eauto|]. by exec load_ok.
  - destruct Hv as (c & b & -> & Hc & Hb). destruct e; try done.
    cbn in Hb. injection Hb as <-.
    exists (APtr (Some c)). split; [eauto|done].
  - destruct Hv as (c & b & -> & Hc & Hb). destruct e; try done.
    cbn in Hb. injection Hb as <-.
    assert (c <> it) by (intros ->; rewrite Hc in Hit; done).
    exists (ADouble (float_to_double f)). split.
    + exists (float_to_double f). by rewrite Hfx.
    + by exec load_ok.
  - destruct Hv as (c & b & -> & Hc & Hb). destruct e; try done.
    cbn in Hb. injection Hb as <-.
    assert (c <> it) by (intros ->; rewrite Hc in Hit; done).
    exists (ADouble d0). split; [eauto|]. by exec load_ok.
Qed.

Lemma duplicate_loop_ok (prot : loc -> Prop) this l d it lst rest :
  malloc_fresh P -> malloc_total P -> float_exact P ->
  forall fuel erest nsd esd ld idx p wc,
  (length rest <= fuel)%nat ->
  mem wc !! this = Some (BLista l) ->
  mem wc !! it = Some (BIter (mkTIterator lst p idx)) ->
  lseg (mem wc) p rest NULL ->
  Forall2 (val_elem (mem wc) (_type l)) (rest.*2) erest ->
  wf_list (mem wc) d ld nsd esd -> _type ld = _type l ->
  0 <= idx -> idx + Z.of_nat (length rest) <= INT_MAX ->
  Z.of_nat (length nsd + length rest) <= INT_MAX ->
  prot this ->
  (forall x, x ∈ rest.*1 -> prot x) ->
  (forall c, Some c ∈ rest.*2 -> _type l <> T -> prot c) ->
  (forall x, prot x -> is_Some (mem wc !! x)) ->
  (forall x, x ∈ footprint d ld nsd -> ~ prot x) ->
  ~ prot it ->
  exists ld' nsd' wc',
    duplicate_loop fuel (Some this) (Some d) (Some it) wc = Ok tt wc' /\
    wf_list (mem wc') d ld' (nsd ++ nsd') (esd ++ erest) /\
    _type ld' = _type l /\
    (forall x, prot x -> mem wc' !! x = mem wc !! x) /\
    (forall x, x ∈ footprint d ld' (nsd ++ nsd') -> ~ prot x) /\
    (_type l = T -> nsd'.*2 = rest.*2) /\
    (exists i, mem wc' !! it = Some (BIter i)) /\
    stderr wc' = stderr wc.
Proof.
  intros Hf Ht Hfx.
  induction rest as [|[a v] rest IH];
    intros fuel erest nsd esd ld idx p wc Hfuel Hthis Hit Hs He Hwf Hty
      H0 Hmax Hlen Hpthis Hpn Hpc Hplive Hpd Hpit.
  - cbn in Hs. subst p. apply Forall2_nil_inv_l in He as ->.
    exists ld, [], wc. rewrite !app_nil_r.
    split; [|split; [done|split; [done|split; [done|split; [done|
             split; [done|split; [eauto|done]]]]]]].
    destruct fuel; cbn [duplicate_loop];
      rewrite (bind_Ok _ _ _ _ _ (hasNext_ok _ _ _ Hit)); cbn [_current];
      by rewrite bool_decide_false by (intros H; by apply H).
  - cbn in Hs. destruct Hs as [-> (nx & Ha & Hs)].
    cbn in He. apply Forall2_cons_inv_l in He as (e & erest' & Hv & He & ->).
    cbn [length] in *. destruct fuel as [|fuel]; [lia|].
    pose proof Hwf as [Hld Htail _ _]. pose proof Hld as [Hd _ _].
    assert (it <> d) as Hitd by (intros ->; rewrite Hd in Hit; done).
    assert (forall x, x ∈ footprint d ld nsd -> x <> it) as Hfpit.
    { intros x Hx ->.
      destruct (footprint_blocks _ _ _ _ _ _ Hld Hx) as (b & Hb & Hkind).
      rewrite Hit in Hb. injection Hb as <-.
      destruct Hkind as [[? ?]|[[? ?]|?]]; done. }
    assert (forall x, prot x -> x <> it) as Hprotit by (intros x Hx ->; done).
    assert (forall x, prot x -> x <> d /\ Some x <> _tail ld) as Hprotd.
    { intros x Hx. split.
      - intros ->. eapply Hpd; [|exact Hx]. apply elem_of_footprint. by left.
      - intros Heq. rewrite Htail in Heq. symmetry in Heq.
        apply last_Some_elem_of in Heq. eapply Hpd; [|exact Hx].
        apply elem_of_footprint. right. by left. }
    destruct (duplicate_step_ok this l (Some d) it lst a v nx idx e wc
                Hfx Hthis Hit Ha Hv H0) as (arg & Harg & Hstep); [lia|].
    set (w1 := mkWorld (<[it := BIter (mkTIterator lst nx (idx + 1))]> (mem wc))
                 (stderr wc)) in *.
    assert (forall x, x <> it -> mem w1 !! x = mem wc !! x) as Hw1
      by (intros x Hx; cbn; by rewrite lookup_insert_ne).
    assert (wf_list (mem w1) d ld nsd esd) as Hwf1.
    { eapply wf_list_agree; [|exact Hwf]. intros x Hx. apply Hw1. by apply Hfpit. }
    assert (arg_elem (mem w1) (_type ld) arg e) as Harg1.
    { rewrite Hty. revert Harg. unfold arg_elem. destruct (_type l); try tauto.
      intros (c & str & -> & Hc & ->). exists c, str. repeat split.
      rewrite Hw1; [done|]. intros ->. rewrite Hc in Hit. done. }
    destruct (push_ok d ld nsd esd arg e w1 Hf Ht Hwf1 Harg1)
      as (n & v' & ld1 & w2 & Hrun & Hwf2 & Hty2 & Hn & Hcfresh & Hfr & _ & Herr2);
      [lia|].
    assert (forall x, prot x -> mem w2 !! x = mem wc !! x) as Hw2.
    { intros x Hx. destruct (Hprotd x Hx).
      rewrite Hfr; [by apply Hw1, Hprotit| |done..].
      rewrite Hw1 by (by apply Hprotit). by apply Hplive. }
    assert (mem w2 !! it = Some (BIter (mkTIterator lst nx (idx + 1)))) as Hit2.
    { rewrite Hfr; [cbn; by rewrite lookup_insert_eq|cbn; by rewrite lookup_insert_eq|done|].
      intros Heq. rewrite Htail in Heq. symmetry in Heq.
      apply last_Some_elem_of in Heq. eapply (Hfpit it); [|done].
      apply elem_of_footprint. right. by left. }
    assert (val_elem (mem w2) (_type l) v' e) as Hv'.
    { destruct Hwf2 as [[_ _ He2] _ _ _]. rewrite fmap_app in He2. cbn in He2.
      apply Forall2_snoc_inv in He2 as [_ He2]. by rewrite <- Hty, <- Hty2. }
    destruct (IH fuel erest' (nsd ++ [(n, v')]) (esd ++ [e]) ld1 (idx + 1) nx w2)
      as (ld' & nsd' & wc' & Hrun' & Hwf' & Hty' & Hfr' & Hpd' & HT' & Hit' & Herr');
      try done.
    + lia.
    + by rewrite Hw2.
    + eapply lseg_agree; [|exact Hs]. intros x Hx. apply Hw2, Hpn. by right.
    + revert He. assert (forall c, Some c ∈ rest.*2 -> _type l <> T ->
                           mem w2 !! c = mem wc !! c) as Hcells.
      { intros c Hc HT. apply Hw2, Hpc; [by right|done]. }
      revert Hcells. generalize (rest.*2) erest'. clear.
      intros vs es Hcells He. induction He as [|u e vs es Hue He IH]; constructor.
      * eapply val_elem_agree; [|exact Hue]. intros c -> HT.
        apply Hcells; [left|done].
      * apply IH. intros c Hc. apply Hcells. by right.
    + congruence.
    + lia.
    + lia.
    + rewrite length_app. cbn [length]. lia.
    + intros x Hx. apply Hpn. by right.
    + intros c Hc HT. apply Hpc; [by right|done].
    + intros x Hx. rewrite Hw2 by done. by apply Hplive.
    + intros x Hx Hprot. apply elem_of_footprint in Hx.
      rewrite !fmap_app, !elem_of_app in Hx. cbn in Hx.
      rewrite Hty2, Hty in Hx.
      assert (prot n -> False) as Hnn.
      { intros Hpn'. destruct (Hplive n Hpn') as [b Hb].
        rewrite <- Hw1 in Hb by (by apply Hprotit). by rewrite Hn in Hb. }
      destruct Hx as [->|[[Hx|Hx]|[HT [Hx|Hx]]]].
      * eapply Hpd; [|exact Hprot]. apply elem_of_footprint. by left.
      * eapply Hpd; [|exact Hprot]. apply elem_of_footprint. right. by left.
      * apply list_elem_of_singleton in Hx as ->. done.
      * eapply Hpd; [|exact Hprot]. apply elem_of_footprint. right. right.
        by rewrite Hty.
      * apply list_elem_of_singleton in Hx. 
        assert (mem w1 !! x = None) as Hnil
          by (apply Hcfresh; [done|by rewrite Hty]).
        destruct (Hplive x Hprot) as [b Hb].
        rewrite <- Hw1 in Hb by (by apply Hprotit). by rewrite Hnil in Hb.
    + exists ld', ((n, v') :: nsd'), wc'.
      rewrite <- (app_assoc nsd), <- (app_assoc esd) in Hwf'.
      rewrite <- (app_assoc nsd) in Hpd'. cbn [app] in Hwf', Hpd'.
      split.
      { cbn [duplicate_loop].
        rewrite (bind_Ok _ _ _ _ _ (hasNext_ok _ _ _ Hit)).
        cbn [_current]. rewrite bool_decide_true by done.
        erewrite bind_Ok; [|rewrite Hstep; exact Hrun]. exact Hrun'. }
      split; [done|]. split; [done|].
      split; [intros x Hx; rewrite Hfr' by done; by apply Hw2|].
      split; [done|]. split; [|split; [done|by rewrite Herr', Herr2]].
      intros HT. cbn. rewrite HT' by done. f_equal.
      unfold val_elem in Hv, Hv'. rewrite HT in Hv, Hv'. congruence.
Qed.

(** C7. [duplicate] returns a new list of the same kind whose elements
    are those of the original, in the same order. For the kind [T] the
    stored pointers are the same as the original's. Whatever the kind,
    [set] on the duplicate succeeds, stores the new element, and leaves
    the original list and every element of it as they were. *)
Theorem duplicate_independent this l ns es w fuel :
  malloc_fresh P -> malloc_total P -> float_exact P ->
  is_list (mem w) this l ns es ->
  (length ns <= fuel)%nat ->
  Z.of_nat (length ns) <= INT_MAX ->
  exists d ld nsd w',
    duplicate fuel (Some this) w = Ok (Some d) w' /\
    d <> this /\
    is_list (mem w') this l ns es /\
    wf_list (mem w') d ld nsd es /\
    _type ld = _type l /\
    (_type l = T -> nsd.*2 = ns.*2) /\
    (forall pre a v post epre e epost arg e',
       nsd = pre ++ (a, v) :: post ->
       es = epre ++ e :: epost ->
       length epre = length pre ->
       arg_elem (mem w') (_type l) arg e' ->
       (_type l = STRING -> arg <> APtr v) ->
       exists v' w'',
         set (Some d) (Z.of_nat (length pre)) arg w' = Ok tt w'' /\
         get (Some d) (Z.of_nat (length pre)) w'' = Ok v' w'' /\
         val_elem (mem w'') (_type l) v' e' /\
         is_list (mem w'') this l ns es).
Proof.
  intros Hf Ht Hfx Hl Hfuel Hmax. pose proof Hl as [Hthis Hc He].
  destruct (newList_ok (_type l) w Hf Ht) as (d & Hd & Hnew).
  set (ld0 := mkLista NULL NULL (_type l) (sizeof_ (_type l)) 0) in *.
  set (w1 := mkWorld (<[d := BLista ld0]> (mem w)) (stderr w)) in *.
  assert (this <> d) as Htd by (intros ->; by rewrite Hd in Hthis).
  assert (mem w1 !! this = Some (BLista l)) as Hthis1
    by (cbn; by rewrite lookup_insert_ne).
  destruct (newIterator_ok this l w1 Hf Ht Hthis1) as (it & Hit & Hnewit).
  set (w2 := mkWorld (<[it := BIter (mkTIterator (Some this) (_head l) 0)]>
                        (mem w1)) (stderr w1)) in *.
  assert (it <> d) as Hitd
    by (intros ->; cbn in Hit; by rewrite lookup_insert_eq in Hit).
  assert (mem w !! it = None) as Hit0
    by (cbn in Hit; by rewrite lookup_insert_ne in Hit).
  set (prot := fun x : loc => is_Some (mem w !! x)).
  assert (forall x, prot x -> mem w2 !! x = mem w !! x) as Hw2.
  { intros x [b Hx]. cbn. rewrite !lookup_insert_ne; [done|..];
      intros ->; rewrite Hx in *; done. }
  assert (forall x, x ∈ footprint this l ns -> prot x) as Hfp
    by (intros x Hx; by eapply footprint_live).
  destruct (duplicate_loop_ok prot this l d it (Some this) ns Hf Ht Hfx
              fuel es [] [] ld0 0 (_head l) w2)
    as (ld & nsd & wc & Hrun & Hwf & Hty & Hfr & Hpd & HT & (i & Hiti) & Herr);
    try done.
  - by rewrite Hw2 by (apply Hfp, elem_of_footprint; by left).
  - cbn. by rewrite lookup_insert_eq.
  - eapply lseg_agree; [|exact Hc]. intros x Hx.
    apply Hw2, Hfp, elem_of_footprint. right. by left.
  - eapply vals_agree; [|exact He]. intros c b Hcb Hb.
    rewrite Hw2; [done|]. by exists b.
  - split; [split|..]; cbn; try done.
    by rewrite lookup_insert_ne, lookup_insert_eq.
  - apply Hfp, elem_of_footprint. by left.
  - intros x Hx. apply Hfp, elem_of_footprint. right. by left.
  - intros c Hc' HT. apply Hfp, elem_of_footprint. right. by right.
  - intros x Hx. rewrite Hw2 by done. exact Hx.
  - intros x Hx [b Hb]. apply elem_of_footprint in Hx as [->|[Hx|[_ Hx]]].
    + by rewrite Hd in Hb.
    + by apply elem_of_nil in Hx.
    + by apply elem_of_nil in Hx.
  - intros [b Hb]. by rewrite Hit0 in Hb.
  - cbn [app] in *.
    set (w' := mkWorld (base.delete it (mem wc)) (stderr wc)).
    assert (forall x, x ∈ footprint d ld nsd -> x <> it) as Hfpit.
    { intros x Hx ->. destruct Hwf as [Hld _ _ _].
      destruct (footprint_blocks _ _ _ _ _ _ Hld Hx) as (b & Hb & Hkind).
      rewrite Hiti in Hb. injection Hb as <-.
      destruct Hkind as [[? ?]|[[? ?]|?]]; done. }
    assert (is_list (mem w') this l ns es) as Hl'.
    { eapply is_list_agree; [|exact Hl]. intros x Hx. cbn.
      rewrite lookup_delete_ne.
      - rewrite Hfr by (by apply Hfp). by apply Hw2, Hfp.
      - intros ->. destruct (Hfp _ Hx) as [b Hb]. by rewrite Hit0 in Hb. }
    assert (wf_list (mem w') d ld nsd es) as Hwf'.
    { eapply wf_list_agree; [|exact Hwf]. intros x Hx. cbn.
      rewrite lookup_delete_ne; [done|]. intros ->. by eapply Hfpit. }
    exists d, ld, nsd, w'.
    split.
    { unfold duplicate. exec load_Lista_ok.
      rewrite (bind_Ok _ _ _ _ _ Hnew), (bind_Ok _ _ _ _ _ Hnewit).
      rewrite (bind_Ok _ _ _ _ _ Hrun).
      unfold freeIterator. by exec free_ok. }
    split; [done|]. split; [done|]. split; [done|]. split; [done|].
    split; [done|].
    intros pre a v post epre e epost arg e' -> -> Hlen Harg Hne.
    destruct Hwf' as [Hld' _ _ _].
    destruct (set_ok d ld pre a v post epre e epost arg e' w' Hf Ht Hld' Hlen)
      as (v' & w'' & Hset & Hget & Hv' & Hfr' & Herr').
    { by rewrite Hty. }
    { by rewrite Hty. }
    exists v', w''. split; [done|]. split; [done|].
    split; [by rewrite <- Hty|].
    eapply is_list_agree; [|exact Hl']. intros x Hx.
    apply Hfr'.
    + by eapply footprint_live.
    + intros ->. eapply Hpd; [|by apply Hfp].
      apply elem_of_footprint. right. left.
      rewrite fmap_app. apply elem_of_app. right. cbn. left.
    + intros HTd <-. eapply Hpd; [|by apply Hfp].
      apply elem_of_footprint. right. right. split; [done|].
      rewrite fmap_app. apply elem_of_app. right. cbn. left.
Qed.

(** ** Rejected indices *)

(** An index at or beyond the end of the chain: the operation prints
    its message and leaves the store as it was. *)

Lemma get_out_of_range this l ns index w :
  mem w !! this = Some (BLista l) ->
  lseg (mem w) (_head l) ns NULL ->
  Z.of_nat (length ns) <= index ->
  get (Some this) index w =
  Ok NULL (mkWorld (mem w)
             (stderr w ++ [OutOfBounds Fget index (Z.of_nat (length ns))])).
Proof.
  intros Hthis Hs Hi. unfold get. rewrite decide_False by lia.
  exec load_Lista_ok.
  rewrite (get_loop_skip w _ NULL ns); [|done|lia|lia].
  by destruct (Z.to_nat index - length ns)%nat.
Qed.

Lemma set_out_of_range this l ns index a w :
  mem w !! this = Some (BLista l) ->
  lseg (mem w) (_head l) ns NULL ->
  Z.of_nat (length ns) <= index ->
  set (Some this) index a w =
  Ok tt (mkWorld (mem w)
           (stderr w ++ [OutOfBounds Fset index (Z.of_nat (length ns))])).
Proof.
  intros Hthis Hs Hi. unfold set. rewrite decide_False by lia.
  exec load_Lista_ok.
  rewrite (set_loop_skip w _ _ _ NULL ns); [|done|lia|lia].
  by destruct (Z.to_nat index - length ns)%nat.
Qed.

Lemma pick_out_of_range this l ns index w :
  mem w !! this = Some (BLista l) ->
  lseg (mem w) (_head l) ns NULL ->
  Z.of_nat (length ns) <= index -> 1 <= index ->
  pick (Some this) index w =
  Ok NULL (mkWorld (mem w)
             (stderr w ++ [OutOfBounds Fpick index (Z.of_nat (length ns))])).
Proof.
  intros Hthis Hs Hi H1. unfold pick.
  rewrite decide_False by lia. rewrite decide_False by lia.
  exec load_Lista_ok.
  destruct (decide (Z.of_nat (length ns) = index)) as [Heq|Hne].
  - destruct ns as [|[b vb] ns0 _] using rev_ind; [cbn in Heq; lia|].
    apply lseg_snoc in Hs as [Hs Hb]. rewrite length_app in *. cbn [length] in *.
    rewrite (pick_loop_skip w _ _ (Some b) ns0); [|done|lia|lia].
    replace (Z.to_nat index - length ns0)%nat with 1%nat by lia.
    cbn [pick_loop]. exec load_Node_ok.
    rewrite decide_False by (intros [_ ?]; done). cbn [pick_loop].
    unfold bind, report, ret. cbn. do 5 f_equal. lia.
  - rewrite (pick_loop_skip w _ _ NULL ns); [|done|lia|lia].
    by destruct (Z.to_nat index - length ns)%nat.
Qed.

Lemma delete_out_of_range this l ns index w :
  mem w !! this = Some (BLista l) ->
  lseg (mem w) (_head l) ns NULL ->
  Z.of_nat (length ns) <= index -> 1 <= index ->
  exists x,
    delete (Some this) index w =
    Ok tt (mkWorld (mem w) (stderr w ++ [OutOfBounds Fdelete index x])).
Proof.
  intros Hthis Hs Hi H1. unfold delete.
  rewrite decide_False by lia. rewrite decide_False by lia.
  destruct (decide (Z.of_nat (length ns) = index)) as [Heq|Hne].
  - destruct ns as [|[b vb] ns0 _] using rev_ind; [cbn in Heq; lia|].
    apply lseg_snoc in Hs as [Hs Hb]. rewrite length_app in *. cbn [length] in *.
    eexists. exec load_Lista_ok.
    rewrite (delete_loop_skip w _ _ (Some b) ns0); [|done|lia|lia].
    replace (Z.to_nat index - length ns0)%nat with 1%nat by lia.
    cbn [delete_loop]. rewrite decide_True by lia.
    exec load_Node_ok. reflexivity.
  - eexists. exec load_Lista_ok.
    rewrite (delete_loop_skip w _ _ NULL ns); [|done|lia|lia].
    by destruct (Z.to_nat index - length ns)%nat.
Qed.

Lemma insert_out_of_range this l index a w :
  mem w !! this = Some (BLista l) ->
  index < 0 \/ index > _length l ->
  insert (Some this) index a w =
  Ok tt (mkWorld (mem w) (stderr w ++ [InsertBounds index (_length l)])).
Proof.
  intros Hthis Hi. unfold insert.
  rewrite (bind_Ok _ _ _ _ _ (len_ok _ _ _ Hthis)).
  by rewrite decide_True by done.
Qed.

Lemma negative_index this index w :
  index < 0 ->
  get (Some this) index w =
    Ok NULL (mkWorld (mem w) (stderr w ++ [NegativeIndex Fget index])) /\
  pick (Some this) index w =
    Ok NULL (mkWorld (mem w) (stderr w ++ [NegativeIndex Fpick index])) /\
  delete (Some this) index w =
    Ok tt (mkWorld (mem w) (stderr w ++ [NegativeIndex Fdelete index])) /\
  (forall a, set (Some this) index a w =
    Ok tt (mkWorld (mem w) (stderr w ++ [NegativeIndex Fset index]))).
Proof.
  intros Hi. unfold get, pick, delete, set.
  rewrite !decide_True by done. repeat split.
  intros a. by rewrite decide_True by done.
Qed.

(** ** [insert] at the front *)

(** After [insert(0, v)], [get(0)] returns a value that stands for [v]. *)
Lemma insert_front_get this l ns es a e w :
  malloc_fresh P -> malloc_total P ->
  is_list (mem w) this l ns es ->
  arg_elem (mem w) (_type l) a e ->
  0 <= _length l < INT_MAX ->
  exists v w',
    insert (Some this) 0 a w = Ok tt w' /\
    get (Some this) 0 w' = Ok v w' /\
    val_elem (mem w') (_type l) v e /\
    exists l' n, is_list (mem w') this l' ((n, v) :: ns) (e :: es).
Proof.
  intros Hf Ht Hl Ha Hlen. pose proof Hl as [Hthis Hc He].
  destruct (node_of_arg_ok l a e w Hf Ht Ha)
    as (n & v & w1 & Hrun & Hn & Hn1 & Hv & Hfresh & Hframe & Hnone & Herr).
  assert (this <> n) as Htn by (intros ->; by rewrite Hn in Hthis).
  assert (mem w1 !! this = Some (BLista l)) as Hthis1
    by (rewrite Hframe; eauto).
  set (l' := mkLista (Some n) (_tail l) (_type l) (_size l) (_length l + 1)).
  set (m' := <[this := BLista l']>
               (<[n := BNode (mkNode v (_head l))]> (mem w1))).
  assert (forall x b, mem w !! x = Some b -> x <> this -> m' !! x = Some b)
    as Hother.
  { intros x b Hx Hxt. unfold m'. rewrite !lookup_insert_ne.
    - rewrite Hframe; eauto.
    - intros ->. by rewrite Hn in Hx.
    - done. }
  assert (insert (Some this) 0 a w = Ok tt (mkWorld m' (stderr w1))) as Hins.
  { unfold insert. rewrite (bind_Ok _ _ _ _ _ (len_ok _ _ _ Hthis)).
    rewrite decide_False by lia. exec load_Lista_ok.
    rewrite (bind_Ok _ _ _ _ _ Hrun). unfold underInsert.
    rewrite decide_True by done. exec load_Lista_ok.
    exec wr_nextNode_ok. exec wr_head_ok.
    erewrite length_incr_ok;
      [|lookup|cbn; unfold INT_MIN, INT_MAX in *; lia].
    cbn [mem stderr _head _tail _type _size _length].
    unfold m', l'. by rewrite insert_insert_eq. }
  assert (m' !! n = Some (BNode (mkNode v (_head l)))) as Hn'.
  { unfold m'. by rewrite lookup_insert_ne, lookup_insert_eq. }
  assert (val_elem m' (_type l) v e) as Hv'.
  { eapply val_elem_agree; [|exact Hv]. intros c -> HT.
    destruct (Hfresh c eq_refl HT) as [Hcnil Hcn].
    unfold m'. rewrite !lookup_insert_ne; [done|congruence|].
    intros ->. by rewrite Hthis in Hcnil. }
  exists v, (mkWorld m' (stderr w1)). split; [done|]. split; [|split; [done|]].
  - eapply (get_at this l' [] n v (_head l)); cbn [mem].
    + unfold m'. by rewrite lookup_insert_eq.
    + done.
    + done.
  - exists l', n. split; cbn [mem _head _type l'].
    + unfold m'. by rewrite lookup_insert_eq.
    + cbn. split; [done|]. exists (_head l). split; [done|].
      eapply lseg_agree; [|exact Hc]. intros x Hx.
      destruct (lseg_live _ _ _ _ _ Hc Hx) as [nd Hnd].
      rewrite Hnd. eapply Hother; [done|]. intros ->.
      rewrite Hthis in Hnd. done.
    + cbn. constructor; [done|].
      eapply vals_agree; [|exact He]. intros c b Hcb Hb.
      eapply Hother; [done|]. intros ->. rewrite Hthis in Hcb. by simplify_eq.
Qed.

(** ** The constructor, [push] and [pop] on a well-formed list *)

(** X1. [newList] either finds no memory, prints its message and exits,
    or returns a new block that holds an empty, well-formed list of the
    kind asked for, with the width of that kind; nothing else in the
    store changes, [len] is 0 and [pop] returns [NULL]. *)
Theorem newList_empty type w :
  malloc_fresh P ->
  match malloc (mem w) with
  | None =>
      newList type w =
      Exit (mkWorld (mem w) (stderr w ++ [AllocFailed FnewList]))
  | Some d =>
      exists w',
        newList type w = Ok (Some d) w' /\
        mem w !! d = None /\
        wf_list (mem w') d (mkLista NULL NULL type (sizeof_ type) 0) [] [] /\
        (forall x, x <> d -> mem w' !! x = mem w !! x) /\
        stderr w' = stderr w /\
        len (Some d) w' = Ok 0 w' /\
        pop (Some d) w' = Ok NULL w'
  end.
Proof.
  intros Hf. destruct (malloc (mem w)) as [d|] eqn:Hm.
  - pose proof (Hf _ _ Hm) as Hd.
    set (l0 := mkLista NULL NULL type (sizeof_ type) 0).
    exists (mkWorld (<[d := BLista l0]> (mem w)) (stderr w)).
    assert (newList type w =
            Ok (Some d) (mkWorld (<[d := BLista l0]> (mem w)) (stderr w)))
      as Hrun.
    { unfold newList.
      erewrite bind_Ok; [|unfold malloc_; rewrite Hm; reflexivity].
      cbv iota. exec store_ok. unfold ret. by rewrite insert_insert_eq. }
    assert ((<[d := BLista l0]> (mem w)) !! d = Some (BLista l0)) as Hl
      by (by rewrite lookup_insert_eq).
    split; [done|]. split; [done|]. cbn [mem stderr].
    split; [|split; [|split; [done|split]]].
    + split; [split|..]; done.
    + intros x Hx. by rewrite lookup_insert_ne.
    + by rewrite (len_ok d l0).
    + by apply (pop_empty d l0).
  - unfold newList.
    erewrite bind_Ok; [|unfold malloc_; rewrite Hm; reflexivity].
    reflexivity.
Qed.

(** X2. [push] on a well-formed list appends: the list is well formed
    again with the new element last, [len] has grown by one and [get] at
    the old length returns the new value. The node is a new block; for
    the kind [T] it keeps the pointer passed, for the other kinds a
    pointer to new storage. *)
Theorem push_appends this l ns es a e w :
  malloc_fresh P -> malloc_total P ->
  wf_list (mem w) this l ns es ->
  arg_elem (mem w) (_type l) a e ->
  Z.of_nat (length ns) < INT_MAX ->
  exists n v l' w',
    push (Some this) a w = Ok tt w' /\
    wf_list (mem w') this l' (ns ++ [(n, v)]) (es ++ [e]) /\
    len (Some this) w' = Ok (Z.of_nat (length ns) + 1) w' /\
    get (Some this) (Z.of_nat (length ns)) w' = Ok v w' /\
    mem w !! n = None /\
    (_type l = T -> a = APtr v) /\
    (_type l <> T -> exists c, v = Some c /\ mem w !! c = None) /\
    stderr w' = stderr w.
Proof.
  intros Hf Ht Hwf Ha Hmax.
  destruct (push_ok this l ns es a e w Hf Ht Hwf Ha Hmax)
    as (n & v & l' & w' & Hrun & Hwf' & Hty & Hn & Hc & _ & _ & Herr).
  exists n, v, l', w'. pose proof Hwf' as [[Hthis Hch He] _ Hlen _].
  split; [done|]. split; [done|].
  apply lseg_snoc in Hch as [Hch Hnode].
  rewrite fmap_app in He. cbn in He.
  apply Forall2_snoc_inv in He as [_ Hv].
  split; [|split; [|split; [done|split; [|split; [|done]]]]].
  - rewrite (len_ok _ _ _ Hthis), Hlen, length_app. cbn [length].
    do 2 f_equal. lia.
  - by eapply (get_at this l' ns n v NULL).
  - intros HT. unfold arg_elem, val_elem in *. rewrite Hty in Hv.
    rewrite HT in Ha, Hv. destruct Ha as (p & -> & ->). by injection Hv as ->.
  - intros HT. rewrite Hty in Hv.
    destruct (value_of_elem _ _ _ _ Hv HT) as (c & blk & -> & _ & _).
    exists c. split; [done|]. by apply Hc.
Qed.

(** X3. After any number of pushes on a well-formed list, [len] returns
    the number of elements there were plus the number pushed. *)
Theorem len_counts_pushes this l ns es args es' w :
  malloc_fresh P -> malloc_total P ->
  wf_list (mem w) this l ns es ->
  Forall2 (arg_elem (mem w) (_type l)) args es' ->
  Z.of_nat (length ns + length args) <= INT_MAX ->
  exists w',
    push_all (Some this) args w = Ok tt w' /\
    len (Some this) w' = Ok (Z.of_nat (length ns + length args)) w'.
Proof.
  intros Hf Ht Hwf Ha Hmax.
  destruct (push_all_ok args es' this l ns es w Hf Ht Hwf Ha Hmax)
    as (l' & ns' & w' & Hrun & Hwf' & _ & Hlen & _).
  exists w'. split; [done|]. destruct Hwf' as [[Hthis _ _] _ Hl _].
  rewrite (len_ok _ _ _ Hthis), Hl, length_app. by rewrite Hlen.
Qed.

(** X4. [pop] on a well-formed list that is not empty returns the value
    of the first element and leaves the rest, well formed. The node is
    released and nothing else: the storage of the value is still live and
    now the caller's, and the store holds one block less. *)
Theorem pop_removes_head this l a v ns e es w :
  wf_list (mem w) this l ((a, v) :: ns) (e :: es) ->
  exists l' w',
    pop (Some this) w = Ok v w' /\
    wf_list (mem w') this l' ns es /\
    val_elem (mem w') (_type l) v e /\
    mem w' !! a = None /\
    size (mem w') = pred (size (mem w)) /\
    len (Some this) w' = Ok (Z.of_nat (length ns)) w' /\
    stderr w' = stderr w.
Proof.
  intros Hwf. pose proof Hwf as [[Hthis Hc _] _ _ _].
  cbn in Hc. destruct Hc as [_ (nx & Ha & _)].
  assert (a <> this) by (intros ->; rewrite Hthis in Ha; done).
  destruct (pop_cons this l a v ns e es w Hwf)
    as (l' & w' & Hrun & Hwf' & Hty & Hv & Hm & Herr).
  exists l', w'. split; [done|]. split; [done|]. split; [done|].
  destruct Hwf' as [[Hthis' _ _] _ Hlen _].
  split; [|split; [|split; [|done]]].
  - rewrite Hm. by rewrite lookup_insert_ne, lookup_delete_eq.
  - rewrite Hm. rewrite map_size_insert_Some.
    + apply map_size_delete_Some. eauto.
    + rewrite lookup_delete_ne by done. eauto.
  - by rewrite (len_ok _ _ _ Hthis'), Hlen.
Qed.

(** ** [remove] on a well-formed list *)

(** The store [remove] leaves, before the storage of the value is
    released. *)
Lemma delete_unlinks this l pre a v post epre e epost w :
  is_list (mem w) this l (pre ++ (a, v) :: post) (epre ++ e :: epost) ->
  length epre = length pre ->
  INT_MIN < _length l <= INT_MAX ->
  exists l' m1,
    delete (Some this) (Z.of_nat (length pre)) w =
      Ok tt (release (_type l) v (mkWorld m1 (stderr w))) /\
    is_list m1 this l' (pre ++ post) (epre ++ epost) /\
    val_elem m1 (_type l) v e /\
    m1 !! a = None /\
    size m1 = pred (size (mem w)) /\
    _type l' = _type l /\
    (wf_list (mem w) this l (pre ++ (a, v) :: post) (epre ++ e :: epost) ->
     wf_list m1 this l' (pre ++ post) (epre ++ epost)).
Proof.
  intros Hl Hlen Hrange. pose proof Hl as [Hthis Hc _].
  destruct (is_list_parts _ _ _ _ _ _ _ _ _ _ Hl Hlen)
    as (nx & Hpre & Ha & Hpost & He1 & He2 & He3 & Hna1 & Hna2 & Hnd & Hdis).
  assert (a <> this) as Hat by (intros ->; rewrite Hthis in Ha; done).
  assert (forall x, x ∈ pre.*1 \/ x ∈ post.*1 ->
            x <> this /\ x <> a /\ exists n, mem w !! x = Some (BNode n))
    as Hnodes.
  { intros x Hx. assert (x ∈ (pre ++ (a, v) :: post).*1) as Hin.
    { rewrite fmap_app. cbn. apply elem_of_app.
      destruct Hx; [by left|right; by right]. }
    destruct (lseg_live _ _ _ _ _ Hc Hin) as [n Hn].
    split; [intros ->; rewrite Hthis in Hn; done|].
    split; [|eauto]. intros ->. destruct Hx; done. }
  assert (forall c blk, mem w !! c = Some blk -> value_block blk ->
            c <> this /\ c <> a) as Hvals.
  { intros c blk Hcb Hb.
    split; intros ->; rewrite Hcb in *; by simplify_eq. }
  assert (_type l <> T ->
          exists c blk, v = Some c /\ mem w !! c = Some blk /\ value_block blk)
    as Hv by (intros; by eapply value_of_elem).
  destruct pre as [|[b vb] pre0 _] using rev_ind.
  - cbn in Hpre. cbn [length app] in *.
    apply Forall2_nil_inv_l in He1 as ->. cbn [app].
    set (m1 := <[this := BLista (beheaded l nx)]> (base.delete a (mem w))).
    assert (forall x blk, mem w !! x = Some blk -> x <> this -> x <> a ->
              m1 !! x = Some blk) as Hother.
    { intros x blk Hx ? ?. unfold m1.
      by rewrite lookup_insert_ne, lookup_delete_ne. }
    assert (lseg m1 nx post NULL) as Hpost1.
    { eapply lseg_agree; [|exact Hpost]. intros x Hx.
      destruct (Hnodes x (or_intror Hx)) as (? & ? & n & Hn).
      rewrite Hn. by eapply Hother. }
    assert (forall c blk, mem w !! c = Some blk -> value_block blk ->
              m1 !! c = Some blk) as Hkeep.
    { intros c blk Hcb Hb. destruct (Hvals _ _ Hcb Hb).
      by eapply Hother. }
    exists (beheaded l nx), m1.
    split; [by eapply delete_head|].
    assert (is_list m1 this (beheaded l nx) post epost) as Hl1.
    { split; cbn [_head _type beheaded].
      - unfold m1. by rewrite lookup_insert_eq.
      - done.
      - by eapply vals_agree. }
    split; [done|]. split; [by eapply val_elem_preserved|].
    split; [unfold m1; by rewrite lookup_insert_ne, lookup_delete_eq|].
    split.
    { unfold m1. rewrite map_size_insert_Some.
      - apply map_size_delete_Some. eauto.
      - rewrite lookup_delete_ne by done. eauto. }
    split; [done|].
    intros [_ Htail Hlength Hrg]. split; [done|..].
    + cbn [_tail beheaded]. cbn in Htail.
      destruct post as [|[b u] post]; cbn in Hpost.
      * by subst nx.
      * destruct Hpost as [-> _]. by rewrite Htail.
    + cbn [_length beheaded]. rewrite Hlength. cbn [length]. lia.
    + cbn [length] in Hrg. lia.
  - clear Hnd. apply lseg_snoc in Hpre as [Hpre Hb].
    assert (a <> b) as Hab.
    { intros ->. apply Hna1. rewrite fmap_app. apply elem_of_app. right.
      cbn. left. }
    assert (b <> this) as Hbt by (intros ->; rewrite Hthis in Hb; done).
    assert (b ∉ pre0.*1) as Hb1.
    { pose proof (lseg_NoDup _ _ _ Hc) as Hnd.
      rewrite !fmap_app in Hnd. cbn in Hnd.
      apply NoDup_app in Hnd as (Hnd & _ & _).
      apply NoDup_app in Hnd as (_ & Hd & _).
      intros Hin. eapply Hd; [exact Hin|]. left. }
    assert (b ∉ post.*1) as Hb2.
    { apply Hdis. rewrite fmap_app. apply elem_of_app. right. cbn. left. }
    rewrite length_app. cbn [length].
    replace (length pre0 + 1)%nat with (S (length pre0)) by lia.
    set (m1 := <[this := BLista (unlinked l a (Some b))]>
                 (base.delete a (<[b := BNode (mkNode vb nx)]> (mem w)))).
    assert (forall x blk, mem w !! x = Some blk -> x <> this -> x <> a ->
              x <> b -> m1 !! x = Some blk) as Hother.
    { intros x blk Hx ? ? ?. unfold m1.
      by rewrite lookup_insert_ne, lookup_delete_ne, lookup_insert_ne. }
    assert (m1 !! b = Some (BNode (mkNode vb nx))) as Hb'.
    { unfold m1.
      by rewrite lookup_insert_ne, lookup_delete_ne, lookup_insert_eq. }
    assert (lseg m1 (_head l) (pre0 ++ (b, vb) :: post) NULL) as Hchain1.
    { eapply lseg_app; [|cbn; split; [done|]; exists nx; split; [done|]].
      - eapply lseg_agree; [|exact Hpre]. intros x Hx.
        destruct (Hnodes x) as (? & ? & n & Hn).
        { left. rewrite fmap_app. apply elem_of_app. by left. }
        rewrite Hn. eapply Hother; [done..|]. intros ->. done.
      - eapply lseg_agree; [|exact Hpost]. intros x Hx.
        destruct (Hnodes x (or_intror Hx)) as (? & ? & n & Hn).
        rewrite Hn. eapply Hother; [done..|]. intros ->. done. }
    assert (forall c blk, mem w !! c = Some blk -> value_block blk ->
              m1 !! c = Some blk) as Hkeep.
    { intros c blk Hcb Hbk. destruct (Hvals _ _ Hcb Hbk).
      eapply Hother; [done..|]. intros ->. rewrite Hb in Hcb. by simplify_eq. }
    exists (unlinked l a (Some b)), m1.
    split; [by eapply delete_mid|].
    rewrite <- !app_assoc. cbn [app].
    assert (is_list m1 this (unlinked l a (Some b)) (pre0 ++ (b, vb) :: post)
              (epre ++ epost)) as Hl1.
    { split; cbn [_head _type unlinked].
      - unfold m1. by rewrite lookup_insert_eq.
      - done.
      - replace (pre0 ++ (b, vb) :: post) with ((pre0 ++ [(b, vb)]) ++ post)
          by (by rewrite <- app_assoc).
        rewrite fmap_app. apply Forall2_app; by eapply vals_agree. }
    split; [done|]. split; [by eapply val_elem_preserved|].
    split; [unfold m1; by rewrite lookup_insert_ne, lookup_delete_eq|].
    split.
    { unfold m1. rewrite map_size_insert_Some.
      - rewrite map_size_delete_Some.
        + rewrite map_size_insert_Some; eauto.
        + rewrite lookup_insert_ne by done. eauto.
      - rewrite lookup_delete_ne, lookup_insert_ne by done. eauto. }
    split; [done|].
    intros [_ Htail Hlength Hrg]. split; [done|..].
    + cbn [_tail unlinked].
      destruct post as [|[t u] post0 _] using rev_ind.
      * replace (pre0 ++ [(b, vb); (a, v)])
          with ((pre0 ++ [(b, vb)]) ++ [(a, v)]) in Htail
          by (by rewrite <- app_assoc).
        rewrite last_fst_snoc in Htail.
        rewrite decide_True by done. by rewrite last_fst_snoc.
      * replace (pre0 ++ (b, vb) :: (a, v) :: post0 ++ [(t, u)])
          with ((pre0 ++ (b, vb) :: (a, v) :: post0) ++ [(t, u)]) in Htail
          by (by rewrite <- app_assoc).
        rewrite last_fst_snoc in Htail.
        replace (pre0 ++ (b, vb) :: post0 ++ [(t, u)])
          with ((pre0 ++ (b, vb) :: post0) ++ [(t, u)])
          by (by rewrite <- app_assoc).
        rewrite last_fst_snoc.
        rewrite decide_False; [done|]. rewrite Htail. intros [= ->].
        apply Hna2. rewrite fmap_app. apply elem_of_app. right.
        cbn. left.
    + cbn [_length unlinked]. rewrite Hlength.
      rewrite ?length_app. cbn [length]. rewrite ?length_app.
      cbn [length]. lia.
    + rewrite ?length_app in *. cbn [length] in *.
      rewrite ?length_app in *. cbn [length] in *. lia.
Qed.

(** X5. [remove] at an index that holds a node, on a well-formed list
    whose values are not shared between nodes: the list is well formed
    again without that element, the node is released and, unless the
    kind is [T], so is the storage of its value (one block less for [T],
    two for the other kinds); [get] at the same index now returns the
    value that followed. *)
Theorem remove_at this l pre a v post epre e epost w :
  wf_list (mem w) this l (pre ++ (a, v) :: post) (epre ++ e :: epost) ->
  length epre = length pre ->
  (_type l <> T -> v ∉ (pre ++ post).*2) ->
  exists l' w',
    delete (Some this) (Z.of_nat (length pre)) w = Ok tt w' /\
    wf_list (mem w') this l' (pre ++ post) (epre ++ epost) /\
    mem w' !! a = None /\
    (_type l <> T -> forall c, v = Some c -> mem w' !! c = None) /\
    size (mem w') =
      (if decide (_type l = T) then pred (size (mem w))
       else pred (pred (size (mem w)))) /\
    (forall b u post', post = (b, u) :: post' ->
       get (Some this) (Z.of_nat (length pre)) w' = Ok u w') /\
    stderr w' = stderr w.
Proof.
  intros Hwf Hlen Hapart. pose proof Hwf as [Hl _ Hlength Hrg].
  assert (INT_MIN < _length l <= INT_MAX) as Hrange.
  { rewrite Hlength. rewrite length_app in *. cbn [length] in *.
    unfold INT_MIN, INT_MAX in *. lia. }
  destruct (delete_unlinks this l pre a v post epre e epost w Hl Hlen Hrange)
    as (l' & m1 & Hrun & Hl1 & Hv1 & Ha1 & Hsize & Hty & Hwf1).
  specialize (Hwf1 Hwf).
  set (w' := release (_type l) v (mkWorld m1 (stderr w))) in *.
  assert (forall x, x ∈ footprint this l' (pre ++ post) ->
            mem w' !! x = m1 !! x) as Hfp.
  { intros x Hx. unfold w', release.
    destruct (decide (_type l = T)) as [HT|HT]; [done|].
    destruct (value_of_elem _ _ _ _ Hv1 HT) as (c & blk & -> & Hc & Hblk).
    cbn. rewrite lookup_delete_ne; [done|]. intros ->.
    destruct (footprint_blocks _ _ _ _ _ _ Hl1 Hx) as (bx & Hbx & Hkind).
    apply elem_of_footprint in Hx as [->|[Hx|[_ Hx]]].
    - destruct Hl1 as [Ht1 _ _]. rewrite Ht1 in Hc. by simplify_eq.
    - destruct Hl1 as [_ Hc1 _].
      destruct (lseg_live _ _ _ _ _ Hc1 Hx) as [n Hn].
      rewrite Hn in Hc. by simplify_eq.
    - by apply Hapart. }
  exists l', w'. split; [done|].
  assert (wf_list (mem w') this l' (pre ++ post) (epre ++ epost)) as Hwf'.
  { eapply wf_list_agree; [|exact Hwf1]. done. }
  split; [done|].
  assert (stderr w' = stderr w) as Herr.
  { unfold w', release. destruct (decide (_type l = T)); [done|].
    by destruct v. }
  split; [|split; [|split; [|split; [|done]]]].
  - unfold w', release. destruct (decide (_type l = T)); [done|].
    destruct v as [c|]; [|done]. cbn.
    destruct (decide (a = c)) as [->|]; [by rewrite lookup_delete_eq|].
    by rewrite lookup_delete_ne.
  - intros HT c ->. unfold w', release. rewrite decide_False by done.
    cbn. by rewrite lookup_delete_eq.
  - unfold w', release. destruct (decide (_type l = T)) as [HT|HT];
      [by cbn|].
    destruct (value_of_elem _ _ _ _ Hv1 HT) as (c & blk & -> & Hc & Hblk).
    cbn. rewrite map_size_delete_Some by eauto. by rewrite Hsize.
  - intros b u post' ->. destruct Hwf' as [[Hthis' Hc' _] _ _ _].
    apply lseg_split in Hc' as (q & Hpre' & Hpost'). cbn in Hpost'.
    destruct Hpost' as [-> (nx' & Hb' & _)].
    by eapply (get_at this l' pre b u nx').
Qed.

(** ** [insert] at any index *)

Lemma underInsert_loop_skip w this index node q pre : forall fuel p x,
  lseg (mem w) p pre q ->
  x + Z.of_nat (length pre) <= index - 1 ->
  (length pre <= fuel)%nat ->
  underInsert_loop fuel this p x index node w =
  underInsert_loop (fuel - length pre) this q (x + Z.of_nat (length pre))
    index node w.
Proof.
  induction pre as [|[a v] pre IH]; intros fuel p x Hs Hx Hfuel.
  - cbn in *. subst. by rewrite Nat.sub_0_r, Z.add_0_r.
  - cbn in Hs. destruct Hs as [-> (nx & Ha & Hs)]. cbn [length] in *.
    destruct fuel as [|fuel]; [lia|]. cbn [underInsert_loop].
    rewrite decide_False by lia. exec load_Node_ok.
    rewrite IH; [|done|lia|lia]. f_equal. lia.
Qed.

(** X6. [insert] at an index from 0 to the number of nodes (and within
    [_length], which is what the guard tests) links a new node there:
    the chain then holds the new element at that index, followed by what
    was there, and [get] at the index returns the new value. [_length]
    grows by one and [_tail] is left as it was, so the list stays well
    formed whenever the new node is not the last one. *)
Theorem insert_at this l pre post epre epost a e w :
  malloc_fresh P -> malloc_total P ->
  is_list (mem w) this l (pre ++ post) (epre ++ epost) ->
  length epre = length pre ->
  arg_elem (mem w) (_type l) a e ->
  0 <= _length l < INT_MAX ->
  Z.of_nat (length pre) <= _length l ->
  exists n v l' w',
    insert (Some this) (Z.of_nat (length pre)) a w = Ok tt w' /\
    is_list (mem w') this l' (pre ++ (n, v) :: post) (epre ++ e :: epost) /\
    get (Some this) (Z.of_nat (length pre)) w' = Ok v w' /\
    mem w !! n = None /\
    _length l' = _length l + 1 /\
    _tail l' = _tail l /\
    _type l' = _type l /\
    (wf_list (mem w) this l (pre ++ post) (epre ++ epost) -> post <> [] ->
     wf_list (mem w') this l' (pre ++ (n, v) :: post) (epre ++ e :: epost)) /\
    stderr w' = stderr w.
Proof.
  intros Hf Ht Hl Hlen Ha Hrg Hidx. pose proof Hl as [Hthis Hc He].
  destruct (node_of_arg_ok l a e w Hf Ht Ha)
    as (n & v & w1 & Hrun & Hn & Hn1 & Hv & Hfresh & Hframe & Hnone & Herr).
  assert (this <> n) as Htn by (intros ->; by rewrite Hn in Hthis).
  assert (mem w1 !! this = Some (BLista l)) as Hthis1
    by (rewrite Hframe; eauto).
  apply lseg_split in Hc as Hc'. destruct Hc' as (q & Hpre & Hpost).
  rewrite fmap_app in He.
  apply Forall2_app_inv in He as [He1 He2]; [|by rewrite length_fmap].
  assert (forall x, x ∈ (pre ++ post).*1 ->
            x <> this /\ x <> n /\ exists nd, mem w !! x = Some (BNode nd))
    as Hnodes.
  { intros x Hx. destruct (lseg_live _ _ _ _ _ Hc Hx) as [nd Hnd].
    split; [intros ->; rewrite Hthis in Hnd; done|].
    split; [intros ->; by rewrite Hn in Hnd|eauto]. }
  assert (forall c blk, mem w !! c = Some blk -> value_block blk ->
            c <> this /\ c <> n /\ mem w1 !! c = Some blk) as Hvals.
  { intros c blk Hcb Hb. split; [intros ->; rewrite Hthis in Hcb; by simplify_eq|].
    split; [intros ->; by rewrite Hn in Hcb|]. rewrite Hframe; eauto. }
  assert (forall c, v = Some c -> _type l <> T -> c <> this) as Hvthis.
  { intros c -> HT ->. destruct (Hfresh _ eq_refl HT) as [Hnil _].
    by rewrite Hthis in Hnil. }
  set (l' := mkLista (match pre with [] => Some n | _ => _head l end)
                (_tail l) (_type l) (_size l) (_length l + 1)).
  assert (forall w',
    insert (Some this) (Z.of_nat (length pre)) a w = Ok tt w' ->
    mem w' !! this = Some (BLista l') ->
    lseg (mem w') (_head l') pre (Some n) ->
    mem w' !! n = Some (BNode (mkNode v q)) ->
    lseg (mem w') q post NULL ->
    (forall c blk, mem w1 !! c = Some blk -> value_block blk ->
       c <> this -> c <> n -> mem w' !! c = Some blk) ->
    stderr w' = stderr w ->
    exists n v l' w',
      insert (Some this) (Z.of_nat (length pre)) a w = Ok tt w' /\
      is_list (mem w') this l' (pre ++ (n, v) :: post) (epre ++ e :: epost) /\
      get (Some this) (Z.of_nat (length pre)) w' = Ok v w' /\
      mem w !! n = None /\
      _length l' = _length l + 1 /\
      _tail l' = _tail l /\
      _type l' = _type l /\
      (wf_list (mem w) this l (pre ++ post) (epre ++ epost) -> post <> [] ->
       wf_list (mem w') this l' (pre ++ (n, v) :: post) (epre ++ e :: epost)) /\
      stderr w' = stderr w) as Hfinish.
  { intros w' Hins Hthis' Hpre' Hn' Hpost' Hkeep Herr'.
    assert (is_list (mem w') this l' (pre ++ (n, v) :: post)
              (epre ++ e :: epost)) as Hl'.
    { split.
      - done.
      - eapply lseg_app; [exact Hpre'|]. cbn. split; [done|]. eauto.
      - rewrite fmap_app. cbn. apply Forall2_app; [|constructor].
        + eapply vals_agree; [|exact He1]. intros c blk Hcb Hb.
          destruct (Hvals _ _ Hcb Hb) as (? & ? & ?). by apply Hkeep.
        + eapply val_elem_agree; [|exact Hv]. intros c -> HT.
          destruct (Hfresh c eq_refl HT) as [_ Hcn].
          destruct (value_of_elem _ _ _ _ Hv HT) as (c' & blk & [= <-] & Hcb & Hb).
          rewrite Hcb. apply Hkeep; [done|done|by eapply Hvthis|done].
        + eapply vals_agree; [|exact He2]. intros c blk Hcb Hb.
          destruct (Hvals _ _ Hcb Hb) as (? & ? & ?). by apply Hkeep. }
    exists n, v, l', w'. split; [done|]. split; [done|].
    split; [by eapply (get_at this l' pre n v q)|].
    split; [done|]. split; [done|]. split; [done|]. split; [done|].
    split; [|done].
    intros [_ Htail Hlength Hrange] Hpost0. split; [done|..].
    - cbn [_tail l']. rewrite Htail, !fmap_app, !last_app. cbn [fmap list_fmap].
      rewrite last_cons.
      destruct (last (post.*1)) eqn:Hlast; [done|].
      apply last_None in Hlast. destruct post; done.
    - cbn [_length l']. rewrite Hlength, !length_app. cbn [length]. lia.
    - rewrite !length_app in *. cbn [length]. lia. }
  assert (forall x nd, mem w !! x = Some (BNode nd) -> mem w1 !! x = Some (BNode nd))
    as Hnode1 by (intros x nd Hx; rewrite Hframe; eauto).
  destruct pre as [|[b vb] pre0 _] using rev_ind.
  - cbn in Hpre. subst q. cbn [length] in *.
    set (m' := <[this := BLista l']>
                 (<[n := BNode (mkNode v (_head l))]> (mem w1))).
    apply (Hfinish (mkWorld m' (stderr w1))); cbn [mem stderr].
    + unfold insert. rewrite (bind_Ok _ _ _ _ _ (len_ok _ _ _ Hthis)).
      rewrite decide_False by lia. exec load_Lista_ok.
      rewrite (bind_Ok _ _ _ _ _ Hrun). unfold underInsert.
      rewrite decide_True by done. exec load_Lista_ok.
      exec wr_nextNode_ok. exec wr_head_ok.
      erewrite length_incr_ok;
        [|lookup|cbn; unfold INT_MIN, INT_MAX in *; lia].
      cbn [mem stderr _head _tail _type _size _length].
      unfold m', l'. by rewrite insert_insert_eq.
    + unfold m'. by rewrite lookup_insert_eq.
    + done.
    + unfold m'. by rewrite lookup_insert_ne, lookup_insert_eq.
    + eapply lseg_agree; [|exact Hpost]. intros x Hx.
      destruct (Hnodes x Hx) as (? & ? & nd & Hnd).
      unfold m'. rewrite !lookup_insert_ne by done. rewrite Hnd.
      by apply Hnode1.
    + intros c blk Hcb Hb ? ?. unfold m'. by rewrite !lookup_insert_ne.
    + done.
  - apply lseg_snoc in Hpre as [Hpre Hb].
    rewrite length_app in *. cbn [length] in *.
    assert (b <> this) as Hbt by (intros ->; rewrite Hthis in Hb; done).
    assert (b <> n) as Hbn by (intros ->; by rewrite Hn in Hb).
    assert ((b ∉ pre0.*1) /\ (b ∉ post.*1)) as [Hb1 Hb2].
    { pose proof (lseg_NoDup _ _ _ Hc) as Hnd.
      rewrite !fmap_app in Hnd. cbn in Hnd.
      apply NoDup_app in Hnd as (Hnd & Hdis & _).
      apply NoDup_app in Hnd as (_ & Hd & _).
      split.
      - intros Hin. eapply Hd; [exact Hin|]. left.
      - apply Hdis. apply elem_of_app. right. left. }
    assert (l' = mkLista (_head l) (_tail l) (_type l) (_size l) (_length l + 1))
      as Hl'eq by (unfold l'; by destruct pre0).
    set (m' := <[this := BLista l']>
                 (<[n := BNode (mkNode v q)]>
                    (<[b := BNode (mkNode vb (Some n))]> (mem w1)))).
    assert (forall x, x <> this -> x <> n -> x <> b -> m' !! x = mem w1 !! x)
      as Hother by (intros; unfold m'; by rewrite !lookup_insert_ne).
    apply (Hfinish (mkWorld m' (stderr w1))); cbn [mem stderr].
    + unfold insert. rewrite (bind_Ok _ _ _ _ _ (len_ok _ _ _ Hthis)).
      rewrite decide_False by lia. exec load_Lista_ok.
      rewrite (bind_Ok _ _ _ _ _ Hrun). unfold underInsert.
      rewrite decide_False by lia. exec load_Lista_ok.
      rewrite (underInsert_loop_skip w1 _ _ _ (Some b) pre0); [| |lia|lia].
      2:{ eapply lseg_agree; [|exact Hpre]. intros x Hx.
          destruct (lseg_live _ _ _ _ _ Hpre Hx) as [nd Hnd].
          rewrite Hnd. by apply Hnode1. }
      replace (Z.to_nat (Z.of_nat (length pre0 + 1)) - length pre0)%nat
        with 1%nat by lia.
      cbn [underInsert_loop]. rewrite decide_True by lia.
      assert (mem w1 !! b = Some (BNode (mkNode vb q))) by (by apply Hnode1).
      exec load_Node_ok. exec wr_nextNode_ok. exec wr_nextNode_ok.
      erewrite length_incr_ok;
        [|lookup|cbn; unfold INT_MIN, INT_MAX in *; lia].
      cbn [mem stderr _head _tail _type _size _length].
      unfold m'. by rewrite Hl'eq.
    + unfold m'. by rewrite lookup_insert_eq.
    + rewrite Hl'eq. cbn [_head]. apply lseg_snoc. split.
      * eapply lseg_agree; [|exact Hpre]. intros x Hx.
        destruct (Hnodes x) as (? & ? & nd & Hnd).
        { rewrite !fmap_app. apply elem_of_app. left. apply elem_of_app. by left. }
        rewrite Hother; [rewrite Hnd; by apply Hnode1|done|done|].
        intros ->. done.
      * unfold m'. by rewrite lookup_insert_ne, lookup_insert_ne, lookup_insert_eq.
    + unfold m'. by rewrite lookup_insert_ne, lookup_insert_eq.
    + eapply lseg_agree; [|exact Hpost]. intros x Hx.
      destruct (Hnodes x) as (? & ? & nd & Hnd).
      { rewrite !fmap_app. apply elem_of_app. by right. }
      rewrite Hother; [rewrite Hnd; by apply Hnode1|done|done|].
      intros ->. done.
    + intros c blk Hcb Hbk ? ?. rewrite Hother; [done|done|done|].
      intros ->. rewrite (Hnode1 _ _ Hb) in Hcb. by simplify_eq.
    + done.
Qed.

(** ** [set] on a list whose values are not shared *)

Lemma set_at_size this l a v nx arg e' w w' :
  malloc_fresh P -> malloc_total P ->
  mem w !! this = Some (BLista l) ->
  mem w !! a = Some (BNode (mkNode v nx)) ->
  (_type l <> T ->
   exists c blk, v = Some c /\ mem w !! c = Some blk /\ value_block blk) ->
  arg_elem (mem w) (_type l) arg e' ->
  (_type l = STRING -> arg <> APtr v) ->
  set_at (Some this) (Some a) arg w = Ok tt w' ->
  size (mem w') = size (mem w).
Proof.
  intros Hf Ht Hthis Ha Hv Harg Hne.
  unfold set_at. exec load_Lista_ok. unfold arg_elem in *.
  destruct (_type l) eqn:Hty.
  - destruct Harg as (p & -> & ->). finish wr_val_ok.
    intros [= <-]. cbn. apply map_size_insert_Some. eauto.
  - destruct Harg as (z & -> & ->).
    destruct Hv as (c & blk & -> & Hc & Hblk); [done|].
    exec load_Node_ok. finish store_ok.
    intros [= <-]. cbn. apply map_size_insert_Some. eauto.
  - destruct Harg as (s & str & -> & Hs & ->).
    destruct Hv as (c & blk & -> & Hc & Hblk); [done|].
    assert (a <> c) by (intros ->; rewrite Ha in Hc; by simplify_eq).
    assert (s <> c) by (intros ->; by apply Hne).
    destruct (malloc_ok BRaw (mkWorld (base.delete c (mem w)) (stderr w)) Hf Ht)
      as (c' & Hc' & Hm).
    cbn [mem stderr] in Hc', Hm.
    assert (c' <> a).
    { intros ->. rewrite lookup_delete_ne in Hc' by done. by rewrite Ha in Hc'. }
    exec load_Node_ok. exec free_ok. exec load_ok.
    rewrite (bind_Ok _ _ _ _ _ Hm). exec wr_val_ok. finish store_ok.
    intros [= <-]. cbn.
    rewrite map_size_insert_Some by (rewrite lookup_insert_ne by done;
                                     rewrite lookup_insert_eq; eauto).
    rewrite map_size_insert_Some
      by (rewrite lookup_insert_ne, lookup_delete_ne by done; eauto).
    rewrite map_size_insert_None by done.
    rewrite map_size_delete_Some by eauto.
    assert (size (mem w) <> 0%nat).
    { intros Hz. apply map_size_empty_inv in Hz. by rewrite Hz in Hc. }
    lia.
  - destruct Harg as (d & -> & ->).
    destruct Hv as (c & blk & -> & Hc & Hblk); [done|].
    exec load_Node_ok. finish store_ok.
    intros [= <-]. cbn. apply map_size_insert_Some. eauto.
  - destruct Harg as (d & -> & ->).
    destruct Hv as (c & blk & -> & Hc & Hblk); [done|].
    exec load_Node_ok. finish store_ok.
    intros [= <-]. cbn. apply map_size_insert_Some. eauto.
Qed.

(** X7. [set] at an index that holds a node, on a list whose values are
    not shared between nodes, with an argument of the list's kind (for
    [STRING], a source other than the stored string): afterwards the
    list holds the new element at that index and every other element as
    before, [get] at the index returns the new value, and the number of
    live blocks is the same: the string stored before has been released,
    nothing is leaked. *)
Theorem set_replaces this l pre a v post epre e epost arg e' w :
  malloc_fresh P -> malloc_total P ->
  is_list (mem w) this l (pre ++ (a, v) :: post) (epre ++ e :: epost) ->
  length epre = length pre ->
  (_type l <> T -> v ∉ (pre ++ post).*2) ->
  arg_elem (mem w) (_type l) arg e' ->
  (_type l = STRING -> arg <> APtr v) ->
  exists v' w',
    set (Some this) (Z.of_nat (length pre)) arg w = Ok tt w' /\
    is_list (mem w') this l (pre ++ (a, v') :: post) (epre ++ e' :: epost) /\
    get (Some this) (Z.of_nat (length pre)) w' = Ok v' w' /\
    size (mem w') = size (mem w) /\
    (wf_list (mem w) this l (pre ++ (a, v) :: post) (epre ++ e :: epost) ->
     wf_list (mem w') this l (pre ++ (a, v') :: post) (epre ++ e' :: epost)) /\
    stderr w' = stderr w.
Proof.
  intros Hf Ht Hl Hlen Hapart Harg Hne. pose proof Hl as [Hthis Hc _].
  destruct (is_list_parts _ _ _ _ _ _ _ _ _ _ Hl Hlen)
    as (nx & Hpre & Ha & Hpost & He1 & He2 & He3 & Hna1 & Hna2 & Hnd & Hdis).
  assert (_type l <> T ->
          exists c blk, v = Some c /\ mem w !! c = Some blk /\ value_block blk)
    as Hv by (intros; by eapply value_of_elem).
  destruct (set_at_ok this l a v nx arg e' w Hf Ht Hthis Ha Hv Harg Hne)
    as (v' & w' & Hrun & Ha' & Hv' & Hfr & Herr).
  assert (set (Some this) (Z.of_nat (length pre)) arg w = Ok tt w') as Hset.
  { unfold set. rewrite decide_False by lia. exec load_Lista_ok.
    rewrite (set_loop_skip w _ _ _ (Some a) pre); [|done|lia|lia].
    rewrite Nat2Z.id, Nat.sub_diag, Z.add_0_l. cbn [set_loop].
    by rewrite decide_True by done. }
  assert (forall x b, mem w !! x = Some b -> x <> a ->
            (forall c, v = Some c -> _type l <> T -> x <> c) ->
            mem w' !! x = Some b) as Hkeep.
  { intros x b Hx Hxa Hxc. rewrite Hfr; [done|eauto|done|].
    intros HT <-. by eapply Hxc. }
  assert (forall x nd, mem w !! x = Some (BNode nd) -> x <> a ->
            mem w' !! x = Some (BNode nd)) as Hnode.
  { intros x nd Hx Hxa. apply Hkeep; [done|done|]. intros c -> HT ->.
    destruct (Hv HT) as (c' & blk & [= <-] & Hcb & Hb).
    rewrite Hx in Hcb. by simplify_eq. }
  assert (forall vs es, Forall2 (val_elem (mem w) (_type l)) vs es ->
            (_type l <> T -> v ∉ vs) ->
            Forall2 (val_elem (mem w') (_type l)) vs es) as Hvals.
  { intros vs es Hall Hnotin.
    induction Hall as [|u x vs es Hux Hall IH]; constructor.
    - eapply val_elem_agree; [|exact Hux]. intros c -> HT.
      destruct (value_of_elem _ _ _ _ Hux HT) as (c' & blk & [= <-] & Hcb & Hb).
      rewrite Hcb. apply Hkeep; [done|..].
      + intros ->. rewrite Ha in Hcb. by simplify_eq.
      + intros c' -> _ ->. apply (Hnotin HT). left.
    - apply IH. intros HT Hin. apply (Hnotin HT). by right. }
  assert (mem w' !! this = Some (BLista l)) as Hthis'.
  { apply Hkeep; [done| |].
    - intros ->. rewrite Hthis in Ha. done.
    - intros c -> HT ->. destruct (Hv HT) as (c' & blk & [= <-] & Hcb & Hb).
      rewrite Hthis in Hcb. by simplify_eq. }
  assert (lseg (mem w') (_head l) pre (Some a)) as Hpre'.
  { eapply lseg_agree; [|exact Hpre]. intros x Hx.
    destruct (lseg_live _ _ _ _ _ Hpre Hx) as [nd Hlv].
    rewrite Hlv. apply Hnode; [done|]. intros ->. done. }
  assert (is_list (mem w') this l (pre ++ (a, v') :: post)
            (epre ++ e' :: epost)) as Hl'.
  { split.
    - done.
    - eapply lseg_app; [exact Hpre'|]. cbn. split; [done|].
      exists nx. split; [done|].
      eapply lseg_agree; [|exact Hpost]. intros x Hx.
      destruct (lseg_live _ _ _ _ _ Hpost Hx) as [nd Hlv].
      rewrite Hlv. apply Hnode; [done|]. intros ->. done.
    - rewrite fmap_app. cbn. apply Forall2_app; [|constructor; [done|]].
      + apply Hvals; [done|]. intros HT Hin. apply (Hapart HT).
        rewrite fmap_app. apply elem_of_app. by left.
      + apply Hvals; [done|]. intros HT Hin. apply (Hapart HT).
        rewrite fmap_app. apply elem_of_app. by right. }
  exists v', w'. split; [done|]. split; [done|].
  split; [by eapply (get_at this l pre a v' nx)|].
  split; [by eapply set_at_size|]. split; [|done].
  intros [_ Htail Hlength Hrange]. split; [done|..].
  - rewrite Htail, !fmap_app. done.
  - rewrite Hlength, !length_app. done.
  - rewrite !length_app in *. done.
Qed.

(** X8. On a list of kind [STRING], [set] with the pointer that the
    node at the index already stores (what [get] returns for it) has
    undefined behaviour: the stored string is released before the source
    is read. *)
Theorem set_string_from_itself this l pre a v post epre e epost w :
  is_list (mem w) this l (pre ++ (a, v) :: post) (epre ++ e :: epost) ->
  length epre = length pre ->
  _type l = STRING ->
  get (Some this) (Z.of_nat (length pre)) w = Ok v w /\
  set (Some this) (Z.of_nat (length pre)) (APtr v) w = Undef.
Proof.
  intros Hl Hlen Hty. pose proof Hl as [Hthis Hc _].
  destruct (is_list_parts _ _ _ _ _ _ _ _ _ _ Hl Hlen)
    as (nx & Hpre & Ha & Hpost & He1 & He2 & He3 & Hna1 & Hna2 & Hnd & Hdis).
  split; [by eapply get_at|].
  destruct (value_of_elem _ _ _ _ He2) as (c & blk & -> & Hcb & Hb);
    [by rewrite Hty|].
  unfold set. rewrite decide_False by lia. exec load_Lista_ok.
  rewrite (set_loop_skip w _ _ _ (Some a) pre); [|done|lia|lia].
  rewrite Nat2Z.id, Nat.sub_diag, Z.add_0_l. cbn [set_loop].
  rewrite decide_True by done. unfold set_at. exec load_Lista_ok.
  rewrite Hty. exec load_Node_ok. exec free_ok.
  unfold bind, load. cbn. by rewrite lookup_delete_eq.
Qed.

(** ** [destroyList] *)

Lemma vals_value_block (m : heap) type vs es c :
  Forall2 (val_elem m type) vs es -> type <> T -> Some c ∈ vs ->
  exists b, m !! c = Some b /\ value_block b.
Proof.
  intros He HT. induction He as [|v e vs es Hve He IH].
  - by intros ?%elem_of_nil.
  - intros [<-|Hin]%elem_of_cons; [|by apply IH].
    destruct (value_of_elem _ _ _ _ Hve HT) as (c' & b & [= <-] & Hc & Hb).
    eauto.
Qed.

Lemma vals_agree_on (m m' : heap) type vs es :
  (forall c, Some c ∈ vs -> type <> T -> m' !! c = m !! c) ->
  Forall2 (val_elem m type) vs es -> Forall2 (val_elem m' type) vs es.
Proof.
  intros Hag He. induction He as [|v e vs es Hve He IH]; constructor.
  - eapply val_elem_agree; [|done]. intros c -> HT. apply Hag; [left|done].
  - apply IH. intros c Hc. apply Hag. by right.
Qed.

(** As many live blocks as there are nodes in a chain. *)
Lemma live_keys_size (m : heap) (ks : list loc) :
  NoDup ks -> (forall k, k ∈ ks -> is_Some (m !! k)) ->
  (length ks <= size m)%nat.
Proof.
  revert m. induction ks as [|k ks IH]; intros m Hnd Hlive; cbn; [lia|].
  apply NoDup_cons in Hnd as [Hk Hnd].
  destruct (Hlive k) as [b Hb]; [left|].
  assert (length ks <= size (base.delete k m))%nat as Hle.
  { apply IH; [done|]. intros k' Hk'. rewrite lookup_delete_ne.
    - apply Hlive. by right.
    - intros ->. done. }
  rewrite map_size_delete_Some in Hle by eauto.
  assert (size m <> 0%nat).
  { intros Hz. apply map_size_empty_inv in Hz. by rewrite Hz in Hb. }
  lia.
Qed.

Lemma destroyList_loop_ok this l : forall ns es p fuel w,
  mem w !! this = Some (BLista l) ->
  lseg (mem w) p ns NULL ->
  Forall2 (val_elem (mem w) (_type l)) (ns.*2) es ->
  owned_apart l ns ->
  (length ns <= fuel)%nat ->
  exists w',
    destroyList_loop fuel (Some this) p w = Ok tt w' /\
    (forall a, a ∈ ns.*1 -> mem w' !! a = None) /\
    (_type l <> T -> forall c, Some c ∈ ns.*2 -> mem w' !! c = None) /\
    (forall x, x ∉ ns.*1 -> (_type l <> T -> Some x ∉ ns.*2) ->
       mem w' !! x = mem w !! x) /\
    (size (mem w') + length ns * blocks_per_node (_type l) = size (mem w))%nat /\
    stderr w' = stderr w.
Proof.
  induction ns as [|[a v] ns IH]; intros es p fuel w Hthis Hc He Hown Hfuel.
  - cbn in Hc. subst p. exists w. cbn. split; [by destruct fuel|].
    split; [by intros a ?%elem_of_nil|].
    split; [by intros _ c ?%elem_of_nil|]. split; [done|]. split; [lia|done].
  - pose proof (lseg_NoDup _ _ _ Hc) as Hnd. cbn in Hnd.
    apply NoDup_cons in Hnd as [Hna Hnd].
    cbn in Hc. destruct Hc as [-> (nx & Ha & Hc)].
    cbn in He. apply Forall2_cons_inv_l in He as (e & es' & Hve & He & ->).
    destruct fuel as [|fuel]; [cbn in Hfuel; lia|].
    assert (this <> a) as Hta by (intros ->; rewrite Hthis in Ha; done).
    assert (forall x, x ∈ ns.*1 -> exists n, mem w !! x = Some (BNode n))
      as Hnodes by (intros x Hx; by eapply lseg_live).
    assert (forall c, _type l <> T -> Some c ∈ v :: ns.*2 ->
              exists b, mem w !! c = Some b /\ value_block b) as Hvals.
    { intros c HT Hin. eapply (vals_value_block _ _ (v :: ns.*2) (e :: es'));
        [by constructor|done..]. }
    assert (exists w0 w1,
      free_val (Some this) (Some a) w = Ok tt w0 /\
      free (Some a) w0 = Ok tt w1 /\
      mem w1 !! a = None /\
      (_type l <> T -> forall c, v = Some c -> mem w1 !! c = None) /\
      (forall x, x <> a -> (_type l <> T -> Some x <> v) ->
         mem w1 !! x = mem w !! x) /\
      (size (mem w1) + blocks_per_node (_type l) = size (mem w))%nat /\
      stderr w1 = stderr w)
      as (w0 & w1 & Hfv & Hfree & Ha1 & Hv1 & Hfr1 & Hsz1 & Herr1).
    { assert (size (mem w) <> 0%nat) as Hnz.
      { intros Hz. apply map_size_empty_inv in Hz. by rewrite Hz in Ha. }
      unfold free_val, blocks_per_node.
      destruct (decide (_type l = T)) as [HT|HT].
      - exists w. eexists. split.
        { exec load_Lista_ok. by rewrite decide_False by tauto. }
        split; [by eapply free_ok|]. cbn.
        split; [by rewrite lookup_delete_eq|]. split; [done|].
        split; [by intros x Hx _; rewrite lookup_delete_ne|].
        split; [|done]. rewrite map_size_delete_Some by eauto. lia.
      - destruct (value_of_elem _ _ _ _ Hve HT) as (c & b & -> & Hcb & Hb).
        assert (a <> c) by (intros ->; rewrite Ha in Hcb; by simplify_eq).
        eexists. eexists. split.
        { exec load_Lista_ok. rewrite decide_True by done.
          exec load_Node_ok. by eapply free_ok. }
        split; [eapply free_ok; cbn; by rewrite lookup_delete_ne|]. cbn.
        split; [by rewrite lookup_delete_eq|].
        split.
        { intros _ c' [= <-]. rewrite lookup_delete_ne by done.
          by rewrite lookup_delete_eq. }
        split.
        { intros x Hx Hxv. rewrite !lookup_delete_ne; [done|..].
          - intros ->. by apply Hxv.
          - done. }
        split; [|done].
        rewrite map_size_delete_Some
          by (rewrite lookup_delete_ne by done; eauto).
        rewrite map_size_delete_Some by eauto.
        assert (size (base.delete c (mem w)) <> 0%nat) as Hnz'.
        { intros Hz. apply map_size_empty_inv in Hz.
          assert (base.delete c (mem w) !! a = Some (BNode (mkNode (Some c) nx)))
            as Hx by (by rewrite lookup_delete_ne).
          by rewrite Hz in Hx. }
        rewrite map_size_delete_Some in Hnz' by eauto. lia. }
    assert (forall x, x ∈ ns.*1 -> mem w1 !! x = mem w !! x) as Hkeep_nodes.
    { intros x Hx. apply Hfr1.
      - intros ->. done.
      - intros HT <-. destruct (Hnodes x Hx) as [n Hn].
        destruct (Hvals x HT) as (b & Hb & Hvb); [left|].
        rewrite Hn in Hb. by simplify_eq. }
    assert (forall c, Some c ∈ ns.*2 -> _type l <> T ->
              mem w1 !! c = mem w !! c) as Hkeep_vals.
    { intros c Hin HT. destruct (Hvals c HT) as (b & Hb & Hvb); [by right|].
      apply Hfr1.
      - intros ->. rewrite Ha in Hb. by simplify_eq.
      - intros _ <-. specialize (Hown HT). cbn in Hown.
        by apply NoDup_cons in Hown as [Hno _]. }
    destruct (IH es' nx fuel w1) as (w' & Hloop & Hn' & Hv' & Hfr' & Hsz' & Herr').
    { rewrite Hfr1; [done|done|]. intros HT <-.
      destruct (Hvals this HT) as (b & Hb & Hvb); [left|].
      rewrite Hthis in Hb. by simplify_eq. }
    { eapply lseg_agree; [|exact Hc]. done. }
    { eapply vals_agree_on; [|exact He]. done. }
    { intros HT. specialize (Hown HT). cbn in Hown.
      by apply NoDup_cons in Hown as [_ Hown]. }
    { cbn in Hfuel. lia. }
    exists w'. split.
    { cbn [destroyList_loop]. exec load_Node_ok.
      rewrite (bind_Ok _ _ _ _ _ Hfv). by rewrite (bind_Ok _ _ _ _ _ Hfree). }
    split.
    { intros x Hx. cbn in Hx.
      apply elem_of_cons in Hx as [->|Hx]; [|by apply Hn'].
      rewrite Hfr'; [done|done|]. intros HT Hin.
      destruct (Hvals a HT) as (b & Hb & Hvb); [by right|].
      rewrite Ha in Hb. by simplify_eq. }
    split.
    { intros HT c Hin. cbn in Hin.
      apply elem_of_cons in Hin as [Heq|Hin]; [subst v|by apply Hv'].
      rewrite Hfr'; [by apply Hv1| |].
      - intros Hin. destruct (Hnodes c Hin) as [n Hn].
        destruct (Hvals c HT) as (b & Hb & Hvb); [left|].
        rewrite Hn in Hb. by simplify_eq.
      - intros _ Hin. specialize (Hown HT). cbn in Hown.
        by apply NoDup_cons in Hown as [Hno _]. }
    split.
    { intros x Hx Hxv. cbn in Hx. apply not_elem_of_cons in Hx as [Hxa Hx].
      rewrite Hfr'; [apply Hfr1; [done|]|done|].
      - intros HT <-. apply (Hxv HT). left.
      - intros HT Hin. apply (Hxv HT). by right. }
    split; [|congruence]. cbn [length]. lia.
Qed.

Lemma destroyList_empty this l w :
  mem w !! this = Some (BLista l) -> _head l = NULL ->
  destroyList (Some this) w =
  Ok tt (mkWorld (<[this := BLista (mkLista NULL NULL (_type l) (_size l) 0)]>
                    (mem w)) (stderr w)).
Proof.
  intros Hthis Hhead. unfold destroyList. exec load_Lista_ok.
  rewrite Hhead. cbn [destroyList_loop].
  change ((fun w0 : world => ret tt w0) ;;
          (wr_head (Some this) NULL ;;
           (wr_tail (Some this) NULL ;; wr_length (Some this) 0)))%prog
    with (bind (fun w0 : world => ret tt w0)
            (fun _ => (wr_head (Some this) NULL ;;
               (wr_tail (Some this) NULL ;; wr_length (Some this) 0))%prog)).
  unfold bind at 1, ret at 1.
  exec wr_head_ok. exec wr_tail_ok. finish wr_length_ok.
  f_equal. f_equal. heap_eq x.
Qed.

Lemma destroyList_ok this l ns es w :
  is_list (mem w) this l ns es ->
  owned_apart l ns ->
  exists w2,
    destroyList (Some this) w =
    Ok tt (mkWorld (<[this := BLista (mkLista NULL NULL (_type l) (_size l) 0)]>
                      (mem w2)) (stderr w)) /\
    mem w2 !! this = Some (BLista l) /\
    (forall a, a ∈ ns.*1 -> mem w2 !! a = None) /\
    (_type l <> T -> forall c, Some c ∈ ns.*2 -> mem w2 !! c = None) /\
    (forall x, x ∉ ns.*1 -> (_type l <> T -> Some x ∉ ns.*2) ->
       mem w2 !! x = mem w !! x) /\
    (size (mem w2) + length ns * blocks_per_node (_type l) = size (mem w))%nat.
Proof.
  intros [Hthis Hc He] Hown.
  destruct (destroyList_loop_ok this l ns es (_head l) (S (size (mem w))) w)
    as (w2 & Hloop & Hn & Hv & Hfr & Hsz & Herr); [done..| |].
  { assert (length (ns.*1) <= size (mem w))%nat as Hle.
    { apply live_keys_size; [by eapply lseg_NoDup|].
      intros k Hk. destruct (lseg_live _ _ _ _ _ Hc Hk) as [n Hk']. eauto. }
    rewrite length_fmap in Hle. lia. }
  assert (mem w2 !! this = Some (BLista l)) as Hthis2.
  { rewrite Hfr; [done| |].
    - eapply lseg_not_node; [exact Hc|exact Hthis|done].
    - intros HT Hin.
      destruct (vals_value_block _ _ _ _ _ He HT Hin) as (b & Hb & Hvb).
      rewrite Hthis in Hb. by simplify_eq. }
  exists w2. split; [|done].
  unfold destroyList. exec load_Lista_ok.
  rewrite (bind_Ok (fun w0 => destroyList_loop (S (size (mem w0))) (Some this)
                                (_head l) w0) _ w tt w2 Hloop).
  exec wr_head_ok. exec wr_tail_ok. finish wr_length_ok.
  rewrite Herr. f_equal. f_equal. heap_eq x.
Qed.

(** X9. [destroyList] on a list whose nodes each own the storage of
    their value (no pointer is kept twice, unless the kind is [T]):
    the call returns and leaves the list empty, with [_head] and
    [_tail] [NULL] and [_length] 0; every node is released and, unless
    the kind is [T], the storage of every value; every block that is not
    part of the list is as before, and the store has shrunk by one block
    per node, two when the values are owned. The list structure itself
    is kept, and nothing is reported. *)
Theorem destroyList_releases this l ns es w :
  is_list (mem w) this l ns es ->
  owned_apart l ns ->
  exists w',
    destroyList (Some this) w = Ok tt w' /\
    wf_list (mem w') this (mkLista NULL NULL (_type l) (_size l) 0) [] [] /\
    (forall a, a ∈ ns.*1 -> mem w' !! a = None) /\
    (_type l <> T -> forall c, Some c ∈ ns.*2 -> mem w' !! c = None) /\
    (forall x, x ∉ footprint this l ns -> mem w' !! x = mem w !! x) /\
    (size (mem w') + length ns * blocks_per_node (_type l) = size (mem w))%nat /\
    stderr w' = stderr w.
Proof.
  intros Hl Hown. pose proof Hl as [Hthis Hc He].
  destruct (destroyList_ok _ _ _ _ _ Hl Hown)
    as (w2 & Hrun & Hthis2 & Hn & Hv & Hfr & Hsz).
  eexists. split; [exact Hrun|]. cbn [mem stderr].
  split.
  { split; [split| | |]; cbn.
    - by rewrite lookup_insert_eq.
    - done.
    - constructor.
    - done.
    - done.
    - unfold INT_MAX. lia. }
  split.
  { intros a Ha. rewrite lookup_insert_ne; [by apply Hn|].
    intros <-. by eapply lseg_not_node. }
  split.
  { intros HT c Hin. rewrite lookup_insert_ne; [by apply Hv|].
    intros <-. destruct (vals_value_block _ _ _ _ _ He HT Hin) as (b & Hb & Hvb).
    rewrite Hthis in Hb. by simplify_eq. }
  split.
  { intros x Hx. rewrite elem_of_footprint in Hx.
    rewrite lookup_insert_ne by (intros <-; tauto).
    apply Hfr; [tauto|]. intros HT Hin. tauto. }
  split; [|done].
  rewrite map_size_insert_Some by eauto. done.
Qed.

(** X10. A second [destroyList] on the same list is harmless: after
    the first call has released the nodes, the second one finds the
    empty chain, releases nothing and leaves the store as it found
    it. *)
Theorem destroyList_twice this l ns es w :
  is_list (mem w) this l ns es ->
  owned_apart l ns ->
  exists w',
    destroyList (Some this) w = Ok tt w' /\
    destroyList (Some this) w' = Ok tt w' /\
    (destroyList (Some this) ;; destroyList (Some this))%prog w = Ok tt w'.
Proof.
  intros Hl Hown.
  destruct (destroyList_ok _ _ _ _ _ Hl Hown)
    as (w2 & Hrun & Hthis2 & Hn & Hv & Hfr & Hsz).
  eexists. split; [exact Hrun|].
  assert (forall w1 : world,
            w1 = mkWorld (<[this := BLista (mkLista NULL NULL (_type l)
                                             (_size l) 0)]> (mem w2)) (stderr w) ->
            destroyList (Some this) w1 = Ok tt w1) as Hagain.
  { intros w1 ->. erewrite destroyList_empty; [|by apply lookup_insert_eq|done].
    cbn. f_equal. f_equal. heap_eq x. }
  split; [by apply Hagain|].
  rewrite (bind_Ok _ _ _ _ _ Hrun). by apply Hagain.
Qed.

(** ** Programs that only read the store *)

Lemma read_only_ret {A} (a : A) : read_only (ret a).
Proof. by intros w. Qed.

Lemma read_only_undef {A} : read_only (@undef A).
Proof. by intros w. Qed.

Lemma read_only_diverge {A} : read_only (@diverge A).
Proof. by intros w. Qed.

Lemma read_only_report d : read_only (report d).
Proof. by intros w. Qed.

Lemma read_only_bind {A B} (m : M A) (k : A -> M B) :
  read_only m -> (forall a, read_only (k a)) -> read_only (bind m k).
Proof.
  intros Hm Hk w. unfold bind. specialize (Hm w).
  destruct (m w) as [a w1| | |]; try done.
  specialize (Hk a w1). destruct (k a w1); try done; congruence.
Qed.

Lemma read_only_load p : read_only (load p).
Proof. intros w. unfold load. destruct p as [a|]; [|done]. by destruct (mem w !! a). Qed.

Lemma read_only_load_Node p : read_only (load_Node p).
Proof.
  apply read_only_bind; [apply read_only_load|].
  intros []; (apply read_only_ret || apply read_only_undef).
Qed.

Lemma read_only_load_Lista p : read_only (load_Lista p).
Proof.
  apply read_only_bind; [apply read_only_load|].
  intros []; (apply read_only_ret || apply read_only_undef).
Qed.

Lemma read_only_load_Iter p : read_only (load_Iter p).
Proof.
  apply read_only_bind; [apply read_only_load|].
  intros []; (apply read_only_ret || apply read_only_undef).
Qed.

Ltac read_only_step :=
  first
    [ apply read_only_ret | apply read_only_undef | apply read_only_diverge
    | apply read_only_report | apply read_only_load
    | apply read_only_load_Node | apply read_only_load_Lista
    | apply read_only_load_Iter
    | apply read_only_bind; [|intros ?] ].

Lemma read_only_get_loop index fuel : forall p x,
  read_only (get_loop fuel p x index).
Proof.
  induction fuel as [|fuel IH]; intros p x; destruct p as [a|]; cbn;
    try case_decide; repeat read_only_step. apply IH.
Qed.

Lemma read_only_print_item this current : read_only (print_item this current).
Proof.
  unfold print_item. do 2 (apply read_only_bind; [read_only_step|intros ?]).
  destruct (_type _); repeat read_only_step;
    match goal with |- read_only (match ?b with _ => _ end) => destruct b end;
    repeat read_only_step.
Qed.

Lemma read_only_print_loop this fuel : forall p,
  read_only (print_loop fuel this p).
Proof.
  induction fuel as [|fuel IH]; intros p; destruct p as [a|];
    cbn [print_loop]; [read_only_step..| |read_only_step].
  apply read_only_bind; [apply read_only_print_item|intros item].
  apply read_only_bind; [read_only_step|intros n].
  apply read_only_bind; [apply IH|intros rest]. read_only_step.
Qed.

(** X11. [get], [len], [hasNext] and [print] write nothing to the
    store: on every store, with every argument, whenever they come to
    an end the blocks are those they started from. *)
Theorem readers_keep_store this index iterator fuel :
  read_only (get this index) /\
  read_only (len this) /\
  read_only (hasNext iterator) /\
  read_only (print fuel this).
Proof.
  split; [|split; [|split]].
  - unfold get. destruct this; [|repeat read_only_step].
    case_decide; repeat read_only_step. apply read_only_get_loop.
  - unfold len. apply read_only_bind; [destruct this; read_only_step|intros ?].
    repeat read_only_step.
  - unfold hasNext. destruct iterator; repeat read_only_step.
  - unfold print. destruct this; [|read_only_step].
    apply read_only_bind; [read_only_step|intros l0].
    apply read_only_bind; [apply read_only_print_loop|intros body].
    read_only_step.
Qed.

(** ** Indices that hold no node *)

(** X12. An index at or past the end of the list, other than 0: [get]
    and [pick] return [NULL], [set] and [remove] return, each after one
    line on [stderr], and the store is as it was. The size the line
    gives is the number of nodes, except that [remove] at the index
    just past the end gives one less. *)
Theorem index_past_end this l ns es index a w :
  is_list (mem w) this l ns es ->
  Z.of_nat (length ns) <= index -> 1 <= index ->
  get (Some this) index w =
    Ok NULL (mkWorld (mem w)
               (stderr w ++ [OutOfBounds Fget index (Z.of_nat (length ns))])) /\
  pick (Some this) index w =
    Ok NULL (mkWorld (mem w)
               (stderr w ++ [OutOfBounds Fpick index (Z.of_nat (length ns))])) /\
  set (Some this) index a w =
    Ok tt (mkWorld (mem w)
             (stderr w ++ [OutOfBounds Fset index (Z.of_nat (length ns))])) /\
  delete (Some this) index w =
    Ok tt (mkWorld (mem w)
             (stderr w ++
              [OutOfBounds Fdelete index
                 (if decide (index = Z.of_nat (length ns))
                  then Z.of_nat (length ns) - 1 else Z.of_nat (length ns))])).
Proof.
  intros [Hthis Hs _] Hi H1.
  split; [by eapply get_out_of_range|].
  split; [by eapply pick_out_of_range|].
  split; [by eapply set_out_of_range|].
  unfold delete. rewrite decide_False by lia. rewrite decide_False by lia.
  destruct (decide (index = Z.of_nat (length ns))) as [Heq|Hne].
  - destruct ns as [|[b vb] ns0 _] using rev_ind; [cbn in Heq; lia|].
    apply lseg_snoc in Hs as [Hs Hb]. rewrite length_app in *. cbn [length] in *.
    exec load_Lista_ok.
    rewrite (delete_loop_skip w _ _ (Some b) ns0); [|done|lia|lia].
    replace (Z.to_nat index - length ns0)%nat with 1%nat by lia.
    cbn [delete_loop]. rewrite decide_True by lia.
    exec load_Node_ok. unfold report. cbn [mem stderr].
    replace (0 + Z.of_nat (length ns0)) with (Z.of_nat (length ns0 + 1) - 1)
      by lia.
    done.
  - exec load_Lista_ok.
    rewrite (delete_loop_skip w _ _ NULL ns); [|done|lia|lia].
    rewrite Z.add_0_l. by destruct (Z.to_nat index - length ns)%nat.
Qed.

(** X13. A negative index is refused by every operation that takes
    one: one line on [stderr] that names the index, [NULL] from [get]
    and [pick], and the store as it was. For [insert] the line is the
    one of an index out of bounds, with the length of the list. *)
Theorem negative_index_refused this l index a w :
  mem w !! this = Some (BLista l) ->
  index < 0 ->
  get (Some this) index w =
    Ok NULL (mkWorld (mem w) (stderr w ++ [NegativeIndex Fget index])) /\
  pick (Some this) index w =
    Ok NULL (mkWorld (mem w) (stderr w ++ [NegativeIndex Fpick index])) /\
  set (Some this) index a w =
    Ok tt (mkWorld (mem w) (stderr w ++ [NegativeIndex Fset index])) /\
  delete (Some this) index w =
    Ok tt (mkWorld (mem w) (stderr w ++ [NegativeIndex Fdelete index])) /\
  insert (Some this) index a w =
    Ok tt (mkWorld (mem w) (stderr w ++ [InsertBounds index (_length l)])).
Proof.
  intros Hthis Hi.
  destruct (negative_index this index w Hi) as (Hg & Hp & Hd & Hs).
  repeat split; try done. apply insert_out_of_range; [done|by left].
Qed.

(** ** Allocation failure and the [NULL] string *)

(** X14. When [malloc] returns [NULL], [push], [insert] at an index
    within the bounds, [newIterator] and [duplicate] print the message
    of the constructor that failed and exit; the store is as it was. *)
Theorem out_of_memory_exits this l a e index fuel w :
  malloc (mem w) = None ->
  mem w !! this = Some (BLista l) ->
  arg_elem (mem w) (_type l) a e ->
  0 <= index <= _length l ->
  push (Some this) a w =
    Exit (mkWorld (mem w) (stderr w ++ [AllocFailed FnewNode])) /\
  insert (Some this) index a w =
    Exit (mkWorld (mem w) (stderr w ++ [AllocFailed FnewNode])) /\
  newIterator (Some this) w =
    Exit (mkWorld (mem w) (stderr w ++ [AllocFailed FnewIterator])) /\
  duplicate fuel (Some this) w =
    Exit (mkWorld (mem w) (stderr w ++ [AllocFailed FnewList])).
Proof.
  intros Hm Hthis Ha Hi.
  assert (forall init, malloc_ init w = Ok NULL w) as Hmalloc
    by (intros init; unfold malloc_; by rewrite Hm).
  assert (node_of_arg l a w =
          Exit (mkWorld (mem w) (stderr w ++ [AllocFailed FnewNode]))) as Hnode.
  { unfold node_of_arg, arg_elem in *.
    destruct (_type l); [destruct Ha as (p & -> & _)
                        |destruct Ha as (z & -> & _)
                        |destruct Ha as (c & s & -> & _ & _)
                        |destruct Ha as (d & -> & _)
                        |destruct Ha as (d & -> & _)];
      unfold newNode; by rewrite (bind_Ok _ _ _ _ _ (Hmalloc _)). }
  split; [|split; [|split]].
  - unfold push. exec load_Lista_ok. unfold bind at 1. by rewrite Hnode.
  - unfold insert. rewrite (bind_Ok _ _ _ _ _ (len_ok _ _ _ Hthis)).
    rewrite decide_False by lia. exec load_Lista_ok.
    unfold bind at 1. by rewrite Hnode.
  - unfold newIterator. by rewrite (bind_Ok _ _ _ _ _ (Hmalloc _)).
  - unfold duplicate. exec load_Lista_ok. unfold newList.
    unfold bind at 1. by rewrite (bind_Ok _ _ _ _ _ (Hmalloc _)).
Qed.

(** X15. On a list of kind [STRING], [push] and [insert] (at an index
    within the bounds) of a [NULL] string print the message of
    [newNode] and exit: the list is not touched, and the node that was
    allocated first is all that is new in the store. *)
Theorem null_string_refused this l index w :
  malloc_fresh P -> malloc_total P ->
  mem w !! this = Some (BLista l) ->
  _type l = STRING ->
  0 <= index <= _length l ->
  exists n,
    mem w !! n = None /\
    push (Some this) (APtr NULL) w =
      Exit (mkWorld (<[n := BNode (mkNode NULL NULL)]> (mem w))
              (stderr w ++ [NullString])) /\
    insert (Some this) index (APtr NULL) w =
      Exit (mkWorld (<[n := BNode (mkNode NULL NULL)]> (mem w))
              (stderr w ++ [NullString])).
Proof.
  intros Hf Ht Hthis Hty Hi.
  destruct (malloc_ok (BNode (mkNode NULL NULL)) w Hf Ht) as (n & Hn & Hm).
  exists n. split; [done|].
  assert (node_of_arg l (APtr NULL) w =
          Exit (mkWorld (<[n := BNode (mkNode NULL NULL)]> (mem w))
                  (stderr w ++ [NullString]))) as Hnode.
  { unfold node_of_arg. rewrite Hty. unfold newNode.
    by rewrite (bind_Ok _ _ _ _ _ Hm). }
  split.
  - unfold push. exec load_Lista_ok. unfold bind at 1. by rewrite Hnode.
  - unfold insert. rewrite (bind_Ok _ _ _ _ _ (len_ok _ _ _ Hthis)).
    rewrite decide_False by lia. exec load_Lista_ok.
    unfold bind at 1. by rewrite Hnode.
Qed.

(** ** The empty list *)

(** X16. On an empty list [pop] and [pick] at index 0 return [NULL]
    without a message and change nothing; [get] at index 0 returns
    [NULL] after the message for an index out of bounds; [len] returns
    the stored length. *)
Theorem empty_list_reads this l w :
  mem w !! this = Some (BLista l) ->
  _head l = NULL ->
  pop (Some this) w = Ok NULL w /\
  pick (Some this) 0 w = Ok NULL w /\
  get (Some this) 0 w =
    Ok NULL (mkWorld (mem w) (stderr w ++ [OutOfBounds Fget 0 0])) /\
  len (Some this) w = Ok (_length l) w.
Proof.
  intros Hthis Hh. split; [by eapply pop_empty|].
  split; [unfold pick; cbn; by eapply pop_empty|].
  split; [|by apply len_ok].
  unfold get. rewrite decide_False by lia. exec load_Lista_ok.
  by rewrite Hh.
Qed.

(** ** Iterators and the list they walk *)

(** X17. A whole traversal leaves the store exactly as it found it:
    [newIterator], as many rounds of [hasNext] and [next] as there are
    nodes, then [freeIterator]. Every round answers [true] and yields
    the value of the next node, in list order. *)
Theorem traversal_round_trip this l ns es w :
  malloc_fresh P -> malloc_total P ->
  is_list (mem w) this l ns es ->
  Z.of_nat (length ns) <= INT_MAX ->
  (it <- newIterator (Some this) ;;
   r <- iterate it (length ns) ;;
   freeIterator it ;;
   ret r) w
  = Ok (map (fun v => (true, v)) (ns.*2)) w.
Proof.
  intros Hf Ht [Hthis Hc He] Hmax.
  destruct (newIterator_ok this l w Hf Ht Hthis) as (it & Hit & Hnew).
  rewrite (bind_Ok _ _ _ _ _ Hnew).
  replace (iterate (Some it) (length ns))
    with (iterate (Some it) (length ns + 0)) by (f_equal; lia).
  erewrite bind_Ok; [|eapply (iterate_chain it (Some this) ns 0 (_head l) 0)].
  - cbn [replicate mem stderr]. unfold freeIterator. exec free_ok.
    unfold ret. rewrite !app_nil_r. destruct w as [m err]. cbn in *.
    f_equal. f_equal. apply map_eq. intros x.
    destruct (decide (x = it)) as [->|Hx].
    + by rewrite lookup_delete_eq.
    + by rewrite lookup_delete_ne, !lookup_insert_ne.
  - cbn. by rewrite lookup_insert_eq.
  - cbn. eapply lseg_agree; [|done]. intros b Hb.
    rewrite lookup_insert_ne; [done|]. intros <-. by eapply lseg_fresh.
  - lia.
  - lia.
Qed.

(** X18. An iterator does not survive the removal of the node it
    stands on: after [pop] has released the first node, [hasNext] of an
    iterator created before still answers [true], and [next] reads the
    released node, which is undefined behaviour. *)
Theorem next_after_pop_undefined this l a v nx w :
  malloc_fresh P -> malloc_total P ->
  mem w !! this = Some (BLista l) ->
  _head l = Some a ->
  mem w !! a = Some (BNode (mkNode v nx)) ->
  INT_MIN < _length l <= INT_MAX ->
  (exists w', (it <- newIterator (Some this) ;; pop (Some this) ;; hasNext it) w
              = Ok true w') /\
  (it <- newIterator (Some this) ;; pop (Some this) ;; next it) w = Undef.
Proof.
  intros Hf Ht Hthis Hh Ha Hrange.
  destruct (newIterator_ok this l w Hf Ht Hthis) as (it & Hit & Hnew).
  assert (this <> it) by (intros ->; by rewrite Hit in Hthis).
  assert (a <> it) by (intros ->; by rewrite Hit in Ha).
  assert (a <> this) by (intros ->; rewrite Hthis in Ha; done).
  rewrite !(bind_Ok _ _ _ _ _ Hnew).
  pose proof (pop_run this l a v nx
                (mkWorld (<[it := BIter (mkTIterator (Some this) (_head l) 0)]>
                            (mem w)) (stderr w))) as Hpop.
  cbn [mem stderr] in Hpop.
  specialize (Hpop ltac:(by rewrite lookup_insert_ne) Hh
                   ltac:(by rewrite lookup_insert_ne) Hrange).
  rewrite !(bind_Ok _ _ _ _ _ Hpop). split.
  - eexists. unfold hasNext. exec load_Iter_ok. rewrite Hh. done.
  - unfold next. exec load_Iter_ok. rewrite Hh.
    unfold bind, load_Node, bind, load. cbn.
    rewrite lookup_insert_ne by done. by rewrite lookup_delete_eq.
Qed.

(** ** [foreach] and [print] *)

Lemma foreach_loop_visits function :
  keeps_nodes function ->
  forall ns p fuel w,
    lseg (mem w) p ns NULL -> (length ns <= fuel)%nat ->
    foreach_loop fuel p function w = visit_all function (ns.*2) w.
Proof.
  intros Hkeep. induction ns as [|[a v] ns IH]; intros p fuel w Hs Hfuel.
  - cbn in Hs. subst p. by destruct fuel.
  - cbn in Hs. destruct Hs as [-> (nx & Ha & Hs)].
    destruct fuel as [|fuel]; [cbn in Hfuel; lia|].
    cbn [foreach_loop visit_all fmap list_fmap]. exec load_Node_ok.
    unfold bind at 1 3. cbn [snd].
    destruct (function v w) as [[] w1| | |] eqn:Hrun; try done.
    pose proof (Hkeep _ _ _ Hrun) as Hnodes.
    rewrite (bind_Ok _ _ _ _ _ (load_Node_ok _ _ _ (Hnodes _ _ Ha))).
    cbn [_nextNode]. apply IH; [|cbn in Hfuel; lia].
    eapply lseg_agree; [|exact Hs]. intros b Hb.
    destruct (lseg_live _ _ _ _ _ Hs Hb) as [n Hn].
    rewrite Hn. by apply Hnodes.
Qed.

(** X19. [foreach] with a visitor that leaves the nodes of the store
    alone runs the visitor on the value of every node, first to last,
    and does nothing else: it is the sequence of these calls, also when
    one of them does not return. *)
Theorem foreach_visits this l ns es function fuel w :
  is_list (mem w) this l ns es ->
  keeps_nodes function ->
  (length ns <= fuel)%nat ->
  foreach fuel (Some this) function w =
  (visit_all function (ns.*2) ;; ret []) w.
Proof.
  intros [Hthis Hc _] Hkeep Hfuel. unfold foreach. exec load_Lista_ok.
  unfold bind. by rewrite (foreach_loop_visits function Hkeep ns).
Qed.

Lemma print_item_ok this l a v nx e w :
  mem w !! this = Some (BLista l) ->
  mem w !! a = Some (BNode (mkNode v nx)) ->
  val_elem (mem w) (_type l) v e ->
  print_item (Some this) (Some a) w = Ok [render_elem e] w.
Proof.
  intros Hthis Ha Hv. unfold print_item. exec load_Lista_ok.
  exec load_Node_ok. unfold val_elem in Hv.
  destruct (_type l); [by subst e|..];
    destruct Hv as (c & b & -> & Hc & Hb); destruct e; try done;
    cbn in Hb; injection Hb as <-; by exec load_ok.
Qed.

Lemma print_loop_ok this l w : forall ns es p fuel,
  mem w !! this = Some (BLista l) ->
  lseg (mem w) p ns NULL ->
  Forall2 (val_elem (mem w) (_type l)) (ns.*2) es ->
  (length ns <= fuel)%nat ->
  print_loop fuel (Some this) p w = Ok (render es) w.
Proof.
  induction ns as [|[a v] ns IH]; intros es p fuel Hthis Hs He Hfuel.
  - cbn in Hs. subst p. cbn in He. apply Forall2_nil_inv_l in He as ->.
    by destruct fuel.
  - cbn in Hs. destruct Hs as [-> (nx & Ha & Hs)].
    cbn in He. apply Forall2_cons_inv_l in He as (e & es' & Hve & He & ->).
    destruct fuel as [|fuel]; [cbn in Hfuel; lia|].
    cbn [print_loop].
    rewrite (bind_Ok _ _ _ _ _ (print_item_ok _ _ _ _ _ _ _ Hthis Ha Hve)).
    exec load_Node_ok.
    rewrite (bind_Ok _ _ _ _ _ (IH es' nx fuel Hthis Hs He
                                  ltac:(cbn in Hfuel; lia))).
    unfold ret. f_equal.
    destruct ns as [|[b u] ns].
    + cbn in Hs. subst nx. cbn in He. by apply Forall2_nil_inv_l in He as ->.
    + cbn in Hs. destruct Hs as [-> _].
      cbn in He. by apply Forall2_cons_inv_l in He as (e1 & es1 & _ & _ & ->).
Qed.

(** X20. [print] writes an opening bracket, the elements of the list in
    order, each converted at the kind of the list and separated from the
    next by a comma and a space, a closing bracket and a newline; it
    writes nothing on [stderr] and leaves the store as it was. *)
Theorem print_renders this l ns es fuel w :
  is_list (mem w) this l ns es ->
  (length ns <= fuel)%nat ->
  print fuel (Some this) w =
  Ok (OText "[" :: render es ++ [OText "]"; ONewline]) w.
Proof.
  intros [Hthis Hc He] Hfuel. unfold print. exec load_Lista_ok.
  by rewrite (bind_Ok _ _ _ _ _ (print_loop_ok _ _ _ _ _ _ _ Hthis Hc He Hfuel)).
Qed.

End Proofs.

(** ** The platform [fresh_platform] *)

Lemma fresh_platform_fresh : malloc_fresh fresh_platform.
Proof.
  intros m a [= <-]. apply not_elem_of_dom. apply is_fresh.
Qed.

Lemma fresh_platform_total : malloc_total fresh_platform.
Proof. intros m. cbn. eauto. Qed.

Lemma fresh_platform_exact : float_exact fresh_platform.
Proof. intros f. reflexivity. Qed.

(** ** The scenario of the specification *)

Lemma three_ints_built :
  (l <- newList (P := fresh_platform) INT ;;
   push (P := fresh_platform) l (AInt 10) ;;
   push (P := fresh_platform) l (AInt 20) ;;
   push (P := fresh_platform) l (AInt 30) ;;
   ret l) empty_world = Ok (Some 1%positive) three_ints.
Proof. vm_compute. reflexivity. Qed.

Lemma three_ints_is_list :
  is_list (mem three_ints) 1%positive three_ints_Lista three_ints_nodes
    [EInt 10; EInt 20; EInt 30].
Proof.
  split.
  - reflexivity.
  - cbn. repeat (split; [reflexivity|]; eexists; split; [reflexivity|]).
    reflexivity.
  - cbn. repeat constructor; eexists _, _; repeat split; reflexivity.
Qed.

Lemma three_ints_wf :
  wf_list (mem three_ints) 1%positive three_ints_Lista three_ints_nodes
    [EInt 10; EInt 20; EInt 30].
Proof.
  split; [apply three_ints_is_list|reflexivity|reflexivity|].
  cbn. unfold INT_MAX. lia.
Qed.

(** [pick(1)] returns 20 and leaves [10, 30]; [insert(1, 99)] gives
    [10, 99, 30]; [pop()] returns 10 and leaves [99, 30], of length 2. *)
Lemma scenario :
  (picked <- pick (Some 1%positive) 1 ;;
   x <- read_int picked ;;
   insert (P := fresh_platform) (Some 1%positive) 1 (AInt 99) ;;
   popped <- pop (Some 1%positive) ;;
   y <- read_int popped ;;
   n <- len (Some 1%positive) ;;
   e0 <- get (Some 1%positive) 0 ;; z0 <- read_int e0 ;;
   e1 <- get (Some 1%positive) 1 ;; z1 <- read_int e1 ;;
   ret (x, y, n, z0, z1)) three_ints
  = Ok (20, 10, 2, 99, 30)
       (mkWorld
          (list_to_map
             [ (1%positive, BLista (mkLista (Some 8%positive) (Some 6%positive) INT 4 2));
               (3%positive, BInt 10);
               (5%positive, BInt 20);
               (6%positive, BNode (mkNode (Some 7%positive) NULL));
               (7%positive, BInt 30);
               (8%positive, BNode (mkNode (Some 9%positive) (Some 6%positive)));
               (9%positive, BInt 99) ])
          []).
Proof. vm_compute. reflexivity. Qed.

(** [destroyList] on [three_ints] releases the nodes and the values and
    leaves the empty list; a second call changes nothing. *)
Lemma teardown_three_ints :
  destroyList (Some 1%positive) three_ints = Ok tt empty_list_world /\
  destroyList (Some 1%positive) empty_list_world = Ok tt empty_list_world.
Proof. split; vm_compute; reflexivity. Qed.

(** ** Instances of the theorems *)

Lemma next_exhausted_witness :
  exists w',
    next_n (Some 8%positive) 2 exhausted_world = Ok (replicate 2 NULL) w' /\
    mem w' = mem exhausted_world /\
    stderr w' = stderr exhausted_world ++ replicate 2 NoMoreElements /\
    hasNext (Some 8%positive) w' = Ok false w'.
Proof.
  apply (next_exhausted 8%positive (mkTIterator (Some 1%positive) NULL 3)
           exhausted_world 2); reflexivity.
Defined.

Lemma iterator_yields_witness :
  exists it w0 w1,
    newIterator (P := fresh_platform) (Some 1%positive) three_ints
      = Ok (Some it) w0 /\
    iterate (Some it) (length three_ints_nodes + 2) w0 =
      Ok (map (fun v => (true, v)) (three_ints_nodes.*2)
          ++ replicate 2 (false, NULL)) w1 /\
    is_list (mem w1) 1%positive three_ints_Lista three_ints_nodes
      [EInt 10; EInt 20; EInt 30] /\
    (forall a, a <> it -> mem w1 !! a = mem three_ints !! a).
Proof.
  apply (iterator_yields (P := fresh_platform) 1%positive three_ints_Lista
           three_ints_nodes [EInt 10; EInt 20; EInt 30] three_ints 2).
  - exact fresh_platform_fresh.
  - exact fresh_platform_total.
  - exact three_ints_is_list.
  - vm_compute. discriminate.
Defined.

Lemma push_pop_fifo_witness :
  exists w1 vals w2,
    push_all (P := fresh_platform) (Some 1%positive) [AInt 1; AInt 2]
      empty_list_world = Ok tt w1 /\
    pop_n (Some 1%positive) 2 w1 = Ok vals w2 /\
    Forall2 (val_elem (mem w2) INT) vals [EInt 1; EInt 2] /\
    len (Some 1%positive) w2 = Ok 0 w2 /\
    pop (Some 1%positive) w2 = Ok NULL w2.
Proof.
  apply (push_pop_fifo (P := fresh_platform) 1%positive
           (mkLista NULL NULL INT 4 0) [AInt 1; AInt 2] [EInt 1; EInt 2]
           empty_list_world).
  - exact fresh_platform_fresh.
  - exact fresh_platform_total.
  - split; [split|..]; try reflexivity; [constructor|vm_compute; discriminate].
  - repeat constructor; eexists; split; reflexivity.
  - vm_compute. discriminate.
Defined.

Lemma pick_get_remove_witness :
  exists l' w1,
    get (Some 1%positive) 1 three_ints = Ok (Some 5%positive) three_ints /\
    pick (Some 1%positive) 1 three_ints = Ok (Some 5%positive) w1 /\
    delete (Some 1%positive) 1 three_ints =
      Ok tt (release INT (Some 5%positive) w1) /\
    is_list (mem w1) 1%positive l'
      [(2%positive, Some 3%positive); (6%positive, Some 7%positive)]
      [EInt 10; EInt 30] /\
    val_elem (mem w1) INT (Some 5%positive) (EInt 20) /\
    mem (release INT (Some 5%positive) w1) !! 1%positive = Some (BLista l') /\
    lseg (mem (release INT (Some 5%positive) w1)) (_head l')
      [(2%positive, Some 3%positive); (6%positive, Some 7%positive)] NULL /\
    _type l' = INT /\
    _length l' = 3 - 1 /\
    stderr w1 = [] /\
    (wf_list (mem three_ints) 1%positive three_ints_Lista three_ints_nodes
       [EInt 10; EInt 20; EInt 30] ->
     wf_list (mem w1) 1%positive l'
       [(2%positive, Some 3%positive); (6%positive, Some 7%positive)]
       [EInt 10; EInt 30]) /\
    (forall w', pick (Some 1%positive) 0 w' = pop (Some 1%positive) w').
Proof.
  apply (pick_get_remove 1%positive three_ints_Lista
           [(2%positive, Some 3%positive)] 4%positive (Some 5%positive)
           [(6%positive, Some 7%positive)] [EInt 10] (EInt 20) [EInt 30]
           three_ints).
  - exact three_ints_is_list.
  - reflexivity.
  - vm_compute. split; [reflexivity|discriminate].
Defined.

Lemma duplicate_independent_witness :
  exists d ld nsd w',
    duplicate (P := fresh_platform) 3 (Some 1%positive) three_ints
      = Ok (Some d) w' /\
    d <> 1%positive /\
    is_list (mem w') 1%positive three_ints_Lista three_ints_nodes
      [EInt 10; EInt 20; EInt 30] /\
    wf_list (mem w') d ld nsd [EInt 10; EInt 20; EInt 30] /\
    _type ld = INT /\
    (INT = T -> nsd.*2 = three_ints_nodes.*2) /\
    (forall pre a v post epre e epost arg e',
       nsd = pre ++ (a, v) :: post ->
       [EInt 10; EInt 20; EInt 30] = epre ++ e :: epost ->
       length epre = length pre ->
       arg_elem (P := fresh_platform) (mem w') INT arg e' ->
       (INT = STRING -> arg <> APtr v) ->
       exists v' w'',
         set (P := fresh_platform) (Some d) (Z.of_nat (length pre)) arg w'
           = Ok tt w'' /\
         get (Some d) (Z.of_nat (length pre)) w'' = Ok v' w'' /\
         val_elem (mem w'') INT v' e' /\
         is_list (mem w'') 1%positive three_ints_Lista three_ints_nodes
           [EInt 10; EInt 20; EInt 30]).
Proof.
  apply (duplicate_independent (P := fresh_platform) 1%positive
           three_ints_Lista three_ints_nodes [EInt 10; EInt 20; EInt 30]
           three_ints 3).
  - exact fresh_platform_fresh.
  - exact fresh_platform_total.
  - exact fresh_platform_exact.
  - exact three_ints_is_list.
  - cbn. lia.
  - vm_compute. discriminate.
Defined.

(** [duplicate] and then [set] on the copy, run on [three_ints]: the copy
    reads [10, 77, 30] and the original still reads [10, 20, 30]. *)
Lemma duplicate_then_set :
  exists w,
    (d <- duplicate (P := fresh_platform) 3 (Some 1%positive) ;;
     set (P := fresh_platform) d 1 (AInt 77) ;;
     a <- get d 1 ;; x <- read_int a ;;
     b <- get (Some 1%positive) 1 ;; y <- read_int b ;;
     ret (x, y)) three_ints = Ok (77, 20) w.
Proof. eexists. vm_compute. reflexivity. Qed.

(** ** Where the program departs from the specification *)

(** C1. [insert] at index 0 of the empty list that [newList] returns
    leaves a list of length 1 whose head is set and whose tail is [NULL]:
    no chain of nodes makes the invariant of the data model hold. *)
Theorem insert_breaks_invariant :
  exists w l,
    (this <- newList (P := fresh_platform) INT ;;
     insert (P := fresh_platform) this 0 (AInt 5) ;;
     ret this) empty_world = Ok (Some 1%positive) w /\
    mem w !! 1%positive = Some (BLista l) /\
    _length l = 1 /\ _head l = Some 2%positive /\ _tail l = NULL /\
    (forall ns es, ~ wf_list (mem w) 1%positive l ns es).
Proof.
  eexists. exists (mkLista (Some 2%positive) NULL INT 4 1).
  split; [vm_compute; reflexivity|].
  split; [reflexivity|]. split; [reflexivity|]. split; [reflexivity|].
  split; [reflexivity|].
  intros ns es [[_ Hc _] Htail _ _]. cbn in Hc, Htail.
  destruct ns as [|[a v] ns]; cbn in Hc; [done|].
  symmetry in Htail. apply last_None in Htail. done.
Qed.

(** [insert] at the end of a list links the new node behind the last one
    and leaves [_tail] on the old last node; the next [push] overwrites
    that link, so the inserted node is lost while [_length] counts it. *)
Lemma insert_at_end_then_push :
  exists w,
    (insert (P := fresh_platform) (Some 1%positive) 3 (AInt 40) ;;
     push (P := fresh_platform) (Some 1%positive) (AInt 50)) three_ints
      = Ok tt w /\
    mem w !! 1%positive =
      Some (BLista (mkLista (Some 2%positive) (Some 10%positive) INT 4 5)) /\
    lseg (mem w) (Some 2%positive)
      [ (2%positive, Some 3%positive); (4%positive, Some 5%positive);
        (6%positive, Some 7%positive); (10%positive, Some 11%positive) ] NULL.
Proof.
  eexists. split; [vm_compute; reflexivity|]. split; [reflexivity|].
  cbn. repeat (split; [reflexivity|]; eexists; split; [reflexivity|]).
  reflexivity.
Qed.

(** C2. After [push(1)], [insert(1, 2)] (index [len]) and [push(3)], the
    list reports length 3, holds 3 at index 1 and nothing at index 2;
    with [push(2)] in place of the [insert] it holds 2 at index 1 and an
    element at index 2. And after [insert(0, v)] on an empty list [get(0)]
    returns [v], but a following [push] dereferences the [NULL] tail. *)
Theorem insert_at_len_is_not_push :
  (exists w,
     (l <- newList (P := fresh_platform) INT ;;
      push (P := fresh_platform) l (AInt 1) ;;
      insert (P := fresh_platform) l 1 (AInt 2) ;;
      push (P := fresh_platform) l (AInt 3) ;;
      n <- len l ;;
      e1 <- get l 1 ;; x <- read_int e1 ;;
      e2 <- get l 2 ;;
      ret (n, x, e2)) empty_world = Ok (3, 3, NULL) w) /\
  (exists w,
     (l <- newList (P := fresh_platform) INT ;;
      push (P := fresh_platform) l (AInt 1) ;;
      push (P := fresh_platform) l (AInt 2) ;;
      push (P := fresh_platform) l (AInt 3) ;;
      n <- len l ;;
      e1 <- get l 1 ;; x <- read_int e1 ;;
      e2 <- get l 2 ;;
      ret (n, x, e2)) empty_world = Ok (3, 2, Some 7%positive) w) /\
  (exists w,
     (l <- newList (P := fresh_platform) INT ;;
      insert (P := fresh_platform) l 0 (AInt 7) ;;
      e0 <- get l 0 ;; read_int e0) empty_world = Ok 7 w) /\
  (l <- newList (P := fresh_platform) INT ;;
   insert (P := fresh_platform) l 0 (AInt 7) ;;
   push (P := fresh_platform) l (AInt 8)) empty_world = Undef.
Proof.
  split; [eexists; vm_compute; reflexivity|].
  split; [eexists; vm_compute; reflexivity|].
  split; [eexists; vm_compute; reflexivity|].
  vm_compute. reflexivity.
Qed.

(** C3. On an empty list, [remove(0)] reads [_nextNode] through the
    [NULL] head: it neither reports an error nor returns. On the same
    list [get(0)] reports the index and returns [NULL], and [pick(0)]
    returns [NULL], both leaving the store as it was. *)
Theorem remove_on_empty_list :
  delete (Some 1%positive) 0 empty_list_world = Undef /\
  get (Some 1%positive) 0 empty_list_world =
    Ok NULL (mkWorld (mem empty_list_world) [OutOfBounds Fget 0 0]) /\
  pick (Some 1%positive) 0 empty_list_world = Ok NULL empty_list_world.
Proof. repeat split; vm_compute; reflexivity. Qed.

(** Out of range on a list that has elements, every index operation
    reports and leaves the store as it was. *)
Lemma out_of_range_on_three_ints :
  get (Some 1%positive) 3 three_ints =
    Ok NULL (mkWorld (mem three_ints) [OutOfBounds Fget 3 3]) /\
  set (P := fresh_platform) (Some 1%positive) 3 (AInt 0) three_ints =
    Ok tt (mkWorld (mem three_ints) [OutOfBounds Fset 3 3]) /\
  delete (Some 1%positive) 3 three_ints =
    Ok tt (mkWorld (mem three_ints) [OutOfBounds Fdelete 3 2]) /\
  pick (Some 1%positive) 3 three_ints =
    Ok NULL (mkWorld (mem three_ints) [OutOfBounds Fpick 3 3]) /\
  insert (P := fresh_platform) (Some 1%positive) 4 (AInt 0) three_ints =
    Ok tt (mkWorld (mem three_ints) [InsertBounds 4 3]) /\
  get (Some 1%positive) (-1) three_ints =
    Ok NULL (mkWorld (mem three_ints) [NegativeIndex Fget (-1)]).
Proof. repeat split; vm_compute; reflexivity. Qed.

(** C8. [len] on a [NULL] list prints its message and then reads
    [_length] through the [NULL] pointer. The other operations return
    after the message and leave the store as it was. *)
Theorem len_null_undefined (w : world) :
  len NULL w = Undef /\
  get NULL 0 w = Ok NULL (mkWorld (mem w) (stderr w ++ [NullList Fget])) /\
  pop NULL w = Ok NULL (mkWorld (mem w) (stderr w ++ [NullList Fpop])) /\
  pick NULL 0 w = Ok NULL (mkWorld (mem w) (stderr w ++ [NullList Fpick])) /\
  delete NULL 0 w = Ok tt (mkWorld (mem w) (stderr w ++ [NullList Fdelete])) /\
  (forall P a, set (P := P) NULL 0 a w =
     Ok tt (mkWorld (mem w) (stderr w ++ [NullList Fset]))).
Proof. repeat split. Qed.

(** C9. On a list of kind [STRING] that holds one string, [set] with a
    [NULL] source releases the stored string and then reads the length
    of the source through the [NULL] pointer. [push] and [insert] with a
    [NULL] source print the message of [newNode] and exit. *)
Theorem set_null_string_undefined :
  (l <- newList (P := fresh_platform) STRING ;;
   push (P := fresh_platform) l (APtr (Some 1%positive)) ;;
   set (P := fresh_platform) l 0 (APtr NULL)) literal_world = Undef /\
  (exists w,
     (l <- newList (P := fresh_platform) STRING ;;
      push (P := fresh_platform) l (APtr NULL)) literal_world = Exit w /\
     stderr w = [NullString]) /\
  (exists w,
     (l <- newList (P := fresh_platform) STRING ;;
      insert (P := fresh_platform) l 0 (APtr NULL)) literal_world = Exit w /\
     stderr w = [NullString]).
Proof.
  split; [vm_compute; reflexivity|].
  split; eexists; (split; [vm_compute; reflexivity|reflexivity]).
Qed.

(** ** Instances of the further properties *)

Lemma two_strings_is_list :
  is_list (mem two_strings) 1%positive two_strings_Lista two_strings_nodes
    [EStr "ab"; EStr "cd"].
Proof.
  split.
  - reflexivity.
  - cbn. repeat (split; [reflexivity|]; eexists; split; [reflexivity|]).
    reflexivity.
  - cbn. repeat constructor; eexists _, _; repeat split; reflexivity.
Qed.

Lemma two_strings_wf :
  wf_list (mem two_strings) 1%positive two_strings_Lista two_strings_nodes
    [EStr "ab"; EStr "cd"].
Proof.
  split; [apply two_strings_is_list|reflexivity|reflexivity|].
  cbn. unfold INT_MAX. lia.
Qed.

Lemma empty_list_wf :
  wf_list (mem empty_list_world) 1%positive (mkLista NULL NULL INT 4 0) [] [].
Proof.
  split; [split|..]; try reflexivity; [constructor|vm_compute; discriminate].
Qed.

Lemma add_one_keeps_nodes : keeps_nodes add_one.
Proof.
  intros v w w' Hrun a n Ha. unfold add_one, bind, load in Hrun.
  destruct v as [c|]; [|done].
  destruct (mem w !! c) as [b|] eqn:Hc; [|done].
  destruct b; try done. unfold store in Hrun. rewrite Hc in Hrun.
  injection Hrun as <-. cbn. rewrite lookup_insert_ne; [done|].
  intros ->. rewrite Hc in Ha. done.
Qed.

Lemma newList_empty_witness :
  match malloc (Platform := fresh_platform) (mem empty_world) with
  | None =>
      newList (P := fresh_platform) INT empty_world =
      Exit (mkWorld (mem empty_world)
              (stderr empty_world ++ [AllocFailed FnewList]))
  | Some d =>
      exists w',
        newList (P := fresh_platform) INT empty_world = Ok (Some d) w' /\
        mem empty_world !! d = None /\
        wf_list (mem w') d (mkLista NULL NULL INT (sizeof_ INT) 0) [] [] /\
        (forall x, x <> d -> mem w' !! x = mem empty_world !! x) /\
        stderr w' = stderr empty_world /\
        len (Some d) w' = Ok 0 w' /\
        pop (Some d) w' = Ok NULL w'
  end.
Proof.
  apply (newList_empty (P := fresh_platform) INT empty_world).
  exact fresh_platform_fresh.
Defined.

Lemma push_appends_witness :
  exists n v l' w',
    push (P := fresh_platform) (Some 1%positive) (AInt 40) three_ints
      = Ok tt w' /\
    wf_list (mem w') 1%positive l' (three_ints_nodes ++ [(n, v)])
      ([EInt 10; EInt 20; EInt 30] ++ [EInt 40]) /\
    len (Some 1%positive) w' = Ok (Z.of_nat (length three_ints_nodes) + 1) w' /\
    get (Some 1%positive) (Z.of_nat (length three_ints_nodes)) w' = Ok v w' /\
    mem three_ints !! n = None /\
    (_type three_ints_Lista = T -> AInt 40 = APtr v) /\
    (_type three_ints_Lista <> T ->
     exists c, v = Some c /\ mem three_ints !! c = None) /\
    stderr w' = stderr three_ints.
Proof.
  apply (push_appends (P := fresh_platform) 1%positive three_ints_Lista
           three_ints_nodes [EInt 10; EInt 20; EInt 30] (AInt 40) (EInt 40)
           three_ints).
  - exact fresh_platform_fresh.
  - exact fresh_platform_total.
  - exact three_ints_wf.
  - exists 40. split; reflexivity.
  - vm_compute. reflexivity.
Defined.

Lemma len_counts_pushes_witness :
  exists w',
    push_all (P := fresh_platform) (Some 1%positive) [AInt 1; AInt 2]
      empty_list_world = Ok tt w' /\
    len (Some 1%positive) w'
      = Ok (Z.of_nat (length (@nil (loc * ptr)) + length [AInt 1; AInt 2])) w'.
Proof.
  apply (len_counts_pushes (P := fresh_platform) 1%positive
           (mkLista NULL NULL INT 4 0) [] [] [AInt 1; AInt 2]
           [EInt 1; EInt 2] empty_list_world).
  - exact fresh_platform_fresh.
  - exact fresh_platform_total.
  - exact empty_list_wf.
  - repeat constructor; eexists; split; reflexivity.
  - vm_compute. discriminate.
Defined.

Lemma pop_removes_head_witness :
  exists l' w',
    pop (Some 1%positive) three_ints = Ok (Some 3%positive) w' /\
    wf_list (mem w') 1%positive l'
      [(4%positive, Some 5%positive); (6%positive, Some 7%positive)]
      [EInt 20; EInt 30] /\
    val_elem (mem w') (_type three_ints_Lista) (Some 3%positive) (EInt 10) /\
    mem w' !! 2%positive = None /\
    size (mem w') = pred (size (mem three_ints)) /\
    len (Some 1%positive) w'
      = Ok (Z.of_nat (length [(4%positive, Some 5%positive);
                              (6%positive, Some 7%positive)])) w' /\
    stderr w' = stderr three_ints.
Proof.
  apply (pop_removes_head 1%positive three_ints_Lista 2%positive
           (Some 3%positive)
           [(4%positive, Some 5%positive); (6%positive, Some 7%positive)]
           (EInt 10) [EInt 20; EInt 30] three_ints).
  exact three_ints_wf.
Defined.

Lemma remove_at_witness :
  exists l' w',
    delete (Some 1%positive)
      (Z.of_nat (length [(2%positive, Some 3%positive)])) two_strings
      = Ok tt w' /\
    wf_list (mem w') 1%positive l' ([(2%positive, Some 3%positive)] ++ [])
      ([EStr "ab"] ++ []) /\
    mem w' !! 4%positive = None /\
    (_type two_strings_Lista <> T ->
     forall c, Some 5%positive = Some c -> mem w' !! c = None) /\
    size (mem w') =
      (if decide (_type two_strings_Lista = T)
       then pred (size (mem two_strings))
       else pred (pred (size (mem two_strings)))) /\
    (forall (b : loc) (u : ptr) (post' : list (loc * ptr)),
       [] = (b, u) :: post' ->
       get (Some 1%positive)
         (Z.of_nat (length [(2%positive, Some 3%positive)])) w' = Ok u w') /\
    stderr w' = stderr two_strings.
Proof.
  apply (remove_at 1%positive two_strings_Lista
           [(2%positive, Some 3%positive)] 4%positive (Some 5%positive) []
           [EStr "ab"] (EStr "cd") [] two_strings).
  - exact two_strings_wf.
  - reflexivity.
  - intros _ Hin. apply list_elem_of_singleton in Hin. discriminate.
Defined.

Lemma insert_at_witness :
  exists n v l' w',
    insert (P := fresh_platform) (Some 1%positive)
      (Z.of_nat (length [(2%positive, Some 3%positive)])) (AInt 99) three_ints
      = Ok tt w' /\
    is_list (mem w') 1%positive l'
      ([(2%positive, Some 3%positive)] ++ (n, v) ::
       [(4%positive, Some 5%positive); (6%positive, Some 7%positive)])
      ([EInt 10] ++ EInt 99 :: [EInt 20; EInt 30]) /\
    get (Some 1%positive)
      (Z.of_nat (length [(2%positive, Some 3%positive)])) w' = Ok v w' /\
    mem three_ints !! n = None /\
    _length l' = _length three_ints_Lista + 1 /\
    _tail l' = _tail three_ints_Lista /\
    _type l' = _type three_ints_Lista /\
    (wf_list (mem three_ints) 1%positive three_ints_Lista
       ([(2%positive, Some 3%positive)] ++
        [(4%positive, Some 5%positive); (6%positive, Some 7%positive)])
       ([EInt 10] ++ [EInt 20; EInt 30]) ->
     [(4%positive, Some 5%positive); (6%positive, Some 7%positive)] <> [] ->
     wf_list (mem w') 1%positive l'
       ([(2%positive, Some 3%positive)] ++ (n, v) ::
        [(4%positive, Some 5%positive); (6%positive, Some 7%positive)])
       ([EInt 10] ++ EInt 99 :: [EInt 20; EInt 30])) /\
    stderr w' = stderr three_ints.
Proof.
  apply (insert_at (P := fresh_platform) 1%positive three_ints_Lista
           [(2%positive, Some 3%positive)]
           [(4%positive, Some 5%positive); (6%positive, Some 7%positive)]
           [EInt 10] [EInt 20; EInt 30] (AInt 99) (EInt 99) three_ints).
  - exact fresh_platform_fresh.
  - exact fresh_platform_total.
  - exact three_ints_is_list.
  - reflexivity.
  - exists 99. split; reflexivity.
  - vm_compute. split; [discriminate|reflexivity].
  - vm_compute. discriminate.
Defined.

Lemma set_replaces_witness :
  exists v' w',
    set (P := fresh_platform) (Some 1%positive)
      (Z.of_nat (length (@nil (loc * ptr)))) (APtr (Some 5%positive))
      two_strings = Ok tt w' /\
    is_list (mem w') 1%positive two_strings_Lista
      ([] ++ (2%positive, v') :: [(4%positive, Some 5%positive)])
      ([] ++ EStr "cd" :: [EStr "cd"]) /\
    get (Some 1%positive) (Z.of_nat (length (@nil (loc * ptr)))) w'
      = Ok v' w' /\
    size (mem w') = size (mem two_strings) /\
    (wf_list (mem two_strings) 1%positive two_strings_Lista
       ([] ++ (2%positive, Some 3%positive) :: [(4%positive, Some 5%positive)])
       ([] ++ EStr "ab" :: [EStr "cd"]) ->
     wf_list (mem w') 1%positive two_strings_Lista
       ([] ++ (2%positive, v') :: [(4%positive, Some 5%positive)])
       ([] ++ EStr "cd" :: [EStr "cd"])) /\
    stderr w' = stderr two_strings.
Proof.
  apply (set_replaces (P := fresh_platform) 1%positive two_strings_Lista
           [] 2%positive (Some 3%positive) [(4%positive, Some 5%positive)]
           [] (EStr "ab") [EStr "cd"] (APtr (Some 5%positive)) (EStr "cd")
           two_strings).
  - exact fresh_platform_fresh.
  - exact fresh_platform_total.
  - exact two_strings_is_list.
  - reflexivity.
  - intros _ Hin. apply list_elem_of_singleton in Hin. discriminate.
  - exists 5%positive, "cd"%string. repeat split; reflexivity.
  - intros _. discriminate.
Defined.

Lemma set_string_from_itself_witness :
  get (Some 1%positive) (Z.of_nat (length (@nil (loc * ptr)))) two_strings
    = Ok (Some 3%positive) two_strings /\
  set (P := fresh_platform) (Some 1%positive)
    (Z.of_nat (length (@nil (loc * ptr)))) (APtr (Some 3%positive))
    two_strings = Undef.
Proof.
  apply (set_string_from_itself (P := fresh_platform) 1%positive
           two_strings_Lista [] 2%positive (Some 3%positive)
           [(4%positive, Some 5%positive)] [] (EStr "ab") [EStr "cd"]
           two_strings).
  - exact two_strings_is_list.
  - reflexivity.
  - reflexivity.
Defined.

Lemma destroyList_releases_witness :
  exists w',
    destroyList (Some 1%positive) two_strings = Ok tt w' /\
    wf_list (mem w') 1%positive
      (mkLista NULL NULL (_type two_strings_Lista) (_size two_strings_Lista) 0)
      [] [] /\
    (forall a, a ∈ two_strings_nodes.*1 -> mem w' !! a = None) /\
    (_type two_strings_Lista <> T ->
     forall c, Some c ∈ two_strings_nodes.*2 -> mem w' !! c = None) /\
    (forall x, x ∉ footprint 1%positive two_strings_Lista two_strings_nodes ->
       mem w' !! x = mem two_strings !! x) /\
    (size (mem w') +
     length two_strings_nodes * blocks_per_node (_type two_strings_Lista)
     = size (mem two_strings))%nat /\
    stderr w' = stderr two_strings.
Proof.
  apply (destroyList_releases 1%positive two_strings_Lista two_strings_nodes
           [EStr "ab"; EStr "cd"] two_strings).
  - exact two_strings_is_list.
  - intros _. cbn. repeat constructor.
    + intros Hin. apply list_elem_of_singleton in Hin. discriminate.
    + intros Hin. by apply elem_of_nil in Hin.
Defined.

Lemma destroyList_twice_witness :
  exists w',
    destroyList (Some 1%positive) three_ints = Ok tt w' /\
    destroyList (Some 1%positive) w' = Ok tt w' /\
    (destroyList (Some 1%positive) ;; destroyList (Some 1%positive))%prog
      three_ints = Ok tt w'.
Proof.
  apply (destroyList_twice 1%positive three_ints_Lista three_ints_nodes
           [EInt 10; EInt 20; EInt 30] three_ints).
  - exact three_ints_is_list.
  - intros _. cbn. repeat constructor.
    + intros Hin. apply elem_of_cons in Hin as [Hin|Hin]; [discriminate|].
      apply list_elem_of_singleton in Hin. discriminate.
    + intros Hin. apply list_elem_of_singleton in Hin. discriminate.
    + intros Hin. by apply elem_of_nil in Hin.
Defined.

Lemma index_past_end_witness :
  get (Some 1%positive) 3 three_ints =
    Ok NULL (mkWorld (mem three_ints)
               (stderr three_ints ++
                [OutOfBounds Fget 3 (Z.of_nat (length three_ints_nodes))])) /\
  pick (Some 1%positive) 3 three_ints =
    Ok NULL (mkWorld (mem three_ints)
               (stderr three_ints ++
                [OutOfBounds Fpick 3 (Z.of_nat (length three_ints_nodes))])) /\
  set (P := fresh_platform) (Some 1%positive) 3 (AInt 0) three_ints =
    Ok tt (mkWorld (mem three_ints)
             (stderr three_ints ++
              [OutOfBounds Fset 3 (Z.of_nat (length three_ints_nodes))])) /\
  delete (Some 1%positive) 3 three_ints =
    Ok tt (mkWorld (mem three_ints)
             (stderr three_ints ++
              [OutOfBounds Fdelete 3
                 (if decide (3 = Z.of_nat (length three_ints_nodes))
                  then Z.of_nat (length three_ints_nodes) - 1
                  else Z.of_nat (length three_ints_nodes))])).
Proof.
  apply (index_past_end (P := fresh_platform) 1%positive three_ints_Lista
           three_ints_nodes [EInt 10; EInt 20; EInt 30] 3 (AInt 0) three_ints).
  - exact three_ints_is_list.
  - vm_compute. discriminate.
  - lia.
Defined.

Lemma negative_index_refused_witness :
  get (Some 1%positive) (-1) three_ints =
    Ok NULL (mkWorld (mem three_ints)
               (stderr three_ints ++ [NegativeIndex Fget (-1)])) /\
  pick (Some 1%positive) (-1) three_ints =
    Ok NULL (mkWorld (mem three_ints)
               (stderr three_ints ++ [NegativeIndex Fpick (-1)])) /\
  set (P := fresh_platform) (Some 1%positive) (-1) (AInt 0) three_ints =
    Ok tt (mkWorld (mem three_ints)
             (stderr three_ints ++ [NegativeIndex Fset (-1)])) /\
  delete (Some 1%positive) (-1) three_ints =
    Ok tt (mkWorld (mem three_ints)
             (stderr three_ints ++ [NegativeIndex Fdelete (-1)])) /\
  insert (P := fresh_platform) (Some 1%positive) (-1) (AInt 0) three_ints =
    Ok tt (mkWorld (mem three_ints)
             (stderr three_ints ++
              [InsertBounds (-1) (_length three_ints_Lista)])).
Proof.
  apply (negative_index_refused (P := fresh_platform) 1%positive
           three_ints_Lista (-1) (AInt 0) three_ints).
  - reflexivity.
  - lia.
Defined.

Lemma out_of_memory_exits_witness :
  push (P := no_memory) (Some 1%positive) (AInt 40) three_ints =
    Exit (mkWorld (mem three_ints)
            (stderr three_ints ++ [AllocFailed FnewNode])) /\
  insert (P := no_memory) (Some 1%positive) 1 (AInt 40) three_ints =
    Exit (mkWorld (mem three_ints)
            (stderr three_ints ++ [AllocFailed FnewNode])) /\
  newIterator (P := no_memory) (Some 1%positive) three_ints =
    Exit (mkWorld (mem three_ints)
            (stderr three_ints ++ [AllocFailed FnewIterator])) /\
  duplicate (P := no_memory) 3 (Some 1%positive) three_ints =
    Exit (mkWorld (mem three_ints)
            (stderr three_ints ++ [AllocFailed FnewList])).
Proof.
  apply (out_of_memory_exits (P := no_memory) 1%positive three_ints_Lista
           (AInt 40) (EInt 40) 1 3%nat three_ints).
  - reflexivity.
  - reflexivity.
  - exists 40. split; reflexivity.
  - vm_compute. split; discriminate.
Defined.

Lemma null_string_refused_witness :
  exists n,
    mem two_strings !! n = None /\
    push (P := fresh_platform) (Some 1%positive) (APtr NULL) two_strings =
      Exit (mkWorld (<[n := BNode (mkNode NULL NULL)]> (mem two_strings))
              (stderr two_strings ++ [NullString])) /\
    insert (P := fresh_platform) (Some 1%positive) 1 (APtr NULL) two_strings =
      Exit (mkWorld (<[n := BNode (mkNode NULL NULL)]> (mem two_strings))
              (stderr two_strings ++ [NullString])).
Proof.
  apply (null_string_refused (P := fresh_platform) 1%positive
           two_strings_Lista 1 two_strings).
  - exact fresh_platform_fresh.
  - exact fresh_platform_total.
  - reflexivity.
  - reflexivity.
  - vm_compute. split; discriminate.
Defined.

Lemma empty_list_reads_witness :
  pop (Some 1%positive) empty_list_world = Ok NULL empty_list_world /\
  pick (Some 1%positive) 0 empty_list_world = Ok NULL empty_list_world /\
  get (Some 1%positive) 0 empty_list_world =
    Ok NULL (mkWorld (mem empty_list_world)
               (stderr empty_list_world ++ [OutOfBounds Fget 0 0])) /\
  len (Some 1%positive) empty_list_world
    = Ok (_length (mkLista NULL NULL INT 4 0)) empty_list_world.
Proof.
  apply (empty_list_reads 1%positive
           (mkLista NULL NULL INT 4 0) empty_list_world).
  - reflexivity.
  - reflexivity.
Defined.

Lemma traversal_round_trip_witness :
  (it <- newIterator (P := fresh_platform) (Some 1%positive) ;;
   r <- iterate it (length three_ints_nodes) ;;
   freeIterator it ;;
   ret r)%prog three_ints
  = Ok (map (fun v => (true, v)) (three_ints_nodes.*2)) three_ints.
Proof.
  apply (traversal_round_trip (P := fresh_platform) 1%positive
           three_ints_Lista three_ints_nodes [EInt 10; EInt 20; EInt 30]
           three_ints).
  - exact fresh_platform_fresh.
  - exact fresh_platform_total.
  - exact three_ints_is_list.
  - vm_compute. discriminate.
Defined.

Lemma next_after_pop_undefined_witness :
  (exists w',
     (it <- newIterator (P := fresh_platform) (Some 1%positive) ;;
      pop (Some 1%positive) ;; hasNext it)%prog three_ints = Ok true w') /\
  (it <- newIterator (P := fresh_platform) (Some 1%positive) ;;
   pop (Some 1%positive) ;; next it)%prog three_ints = Undef.
Proof.
  apply (next_after_pop_undefined (P := fresh_platform) 1%positive
           three_ints_Lista 2%positive (Some 3%positive) (Some 4%positive)
           three_ints).
  - exact fresh_platform_fresh.
  - exact fresh_platform_total.
  - reflexivity.
  - reflexivity.
  - reflexivity.
  - vm_compute. split; [reflexivity|discriminate].
Defined.

Lemma foreach_visits_witness :
  foreach 3 (Some 1%positive) add_one three_ints =
  (visit_all add_one (three_ints_nodes.*2) ;; ret [])%prog three_ints.
Proof.
  apply (foreach_visits 1%positive three_ints_Lista
           three_ints_nodes [EInt 10; EInt 20; EInt 30] add_one 3%nat
           three_ints).
  - exact three_ints_is_list.
  - exact add_one_keeps_nodes.
  - cbn. lia.
Defined.

Lemma print_renders_witness :
  print (P := fresh_platform) 2 (Some 1%positive) two_strings =
  Ok (OText "[" :: render (P := fresh_platform) [EStr "ab"; EStr "cd"] ++
      [OText "]"; ONewline]) two_strings.
Proof.
  apply (print_renders (P := fresh_platform) 1%positive two_strings_Lista
           two_strings_nodes [EStr "ab"; EStr "cd"] 2%nat two_strings).
  - exact two_strings_is_list.
  - cbn. lia.
Defined.

(** What [print] writes for [two_strings], and what [foreach] with
    [add_one] leaves of [three_ints]. *)
Lemma print_two_strings :
  print (P := fresh_platform) 2 (Some 1%positive) two_strings =
  Ok [OText "["; OStr "ab"; OText ", "; OStr "cd"; OText "]"; ONewline]
     two_strings.
Proof. vm_compute. reflexivity. Qed.

Lemma foreach_add_one :
  (foreach 3 (Some 1%positive) add_one ;;
   a <- get (Some 1%positive) 0 ;; x <- read_int a ;;
   b <- get (Some 1%positive) 1 ;; y <- read_int b ;;
   c <- get (Some 1%positive) 2 ;; z <- read_int c ;;
   ret (x, y, z))%prog three_ints
  = Ok (11, 21, 31)
       (mkWorld (<[3%positive := BInt 11]>
                   (<[5%positive := BInt 21]>
                      (<[7%positive := BInt 31]> (mem three_ints)))) []).
Proof. vm_compute. reflexivity. Qed.

End Tlist.
